(** * BlackRoad RSS aggregator: a shallow embedding of [rss_aggregator.py]

    The development follows the Python module top to bottom: the string
    helpers the fingerprint uses, SHA-256 ([hashlib.sha256]), the
    dataclasses, the three SQLite tables with their two triggers, a small
    state-and-exception monad for the methods of [RSSAggregator], and then
    the methods themselves.  The theorems come after all definitions.

    Modelling conventions.
    - [str] values are [string]s, one character for each byte.  On ASCII
      text (every code below 128, [str.isascii()]) a [string] is the Python
      string and its UTF-8 encoding at once, and [lower], [upper] and
      [strip] below are [str.lower], [str.upper] and [str.strip].  Unicode
      case mapping and Unicode white space are not modelled: statements
      about letter case and trimming carry the hypothesis that the text is
      ASCII.
    - Integers bound as SQL parameters must fit SQLite's 64-bit INTEGER;
      the [sqlite3] module raises [OverflowError] otherwise, before the
      statement runs.
    - Timestamps ([datetime.isoformat()] of UTC instants, stored as TEXT and
      compared as text by SQLite) are modelled by the instant itself, in
      microseconds, as a [Z]: for such strings text order and time order
      agree.
    - [uuid.uuid4()], the clock, the feed fetcher and the MATCH operator of
      FTS5 are the environment of the aggregator: an [Env] record holds
      them, and the world counts how many identifiers and clock readings
      have been drawn.
    - The tables are those of a database with the schema of [_init_db]:
      statements about DELETE are made for stores whose full-text index
      holds the rows of [feed_items] ([wf_store]), which is what the two
      triggers maintain; what SQLite does with an index that was put out
      of step from outside is not modelled. *)

From Stdlib Require Import ZArith List String Ascii Bool Lia Arith DecimalString.
From Stdlib Require Import Permutation Sorted.
Import ListNotations.

Local Open Scope string_scope.
Local Open Scope list_scope.
Local Open Scope Z_scope.

(* ------------------------------------------------------------------ *)
(** ** Python string operations *)

Module PyStr.

Definition code (c : ascii) : Z := Z.of_N (N_of_ascii c).

(** [s.isascii()]: every character code is below 128. *)
Fixpoint isascii (s : string) : bool :=
  match s with
  | EmptyString => true
  | String c r => (code c <? 128) && isascii r
  end.

(** [c.isupper()] on the ASCII range. *)
Definition is_upper (c : ascii) : bool :=
  (65 <=? code c) && (code c <=? 90).

Definition lower_char (c : ascii) : ascii :=
  if is_upper c then ascii_of_N (Z.to_N (code c + 32)) else c.

Definition upper_char (c : ascii) : ascii :=
  if (97 <=? code c) && (code c <=? 122)
  then ascii_of_N (Z.to_N (code c - 32)) else c.

(** [s.lower()], for ASCII [s]. *)
Fixpoint lower (s : string) : string :=
  match s with
  | EmptyString => EmptyString
  | String c r => String (lower_char c) (lower r)
  end.

(** [s.upper()], for ASCII [s]. *)
Fixpoint upper (s : string) : string :=
  match s with
  | EmptyString => EmptyString
  | String c r => String (upper_char c) (upper r)
  end.

(** [c.isspace()] on the ASCII range: TAB, LF, VT, FF, CR, the four
    separators FS, GS, RS, US, and the space. *)
Definition is_space (c : ascii) : bool :=
  ((9 <=? code c) && (code c <=? 13))
  || ((28 <=? code c) && (code c <=? 32)).

Fixpoint lstrip (s : string) : string :=
  match s with
  | EmptyString => EmptyString
  | String c r => if is_space c then lstrip r else s
  end.

Fixpoint rstrip (s : string) : string :=
  match s with
  | EmptyString => EmptyString
  | String c r =>
      match rstrip r with
      | EmptyString => if is_space c then EmptyString else String c EmptyString
      | r' => String c r'
      end
  end.

(** [s.strip()], for ASCII [s]. *)
Definition strip (s : string) : string := rstrip (lstrip s).

(** A string made of white space only. *)
Fixpoint all_space (s : string) : bool :=
  match s with
  | EmptyString => true
  | String c r => is_space c && all_space r
  end.

(** [s[:n]]: the first [n] characters, and for a negative [n] all but
    the last [-n]. *)
Definition slice_to (n : Z) (s : string) : string :=
  if 0 <=? n then substring 0 (Z.to_nat n) s
  else substring 0 (String.length s - Z.to_nat (- n)) s.

(** [l[:n]] on lists. *)
Definition list_slice_to {A} (n : Z) (l : list A) : list A :=
  if 0 <=? n then firstn (Z.to_nat n) l
  else firstn (List.length l - Z.to_nat (- n)) l.

(** [s.encode()]: the UTF-8 bytes, which for ASCII text are the
    character codes. *)
Definition encode (s : string) : list Z :=
  map code (list_ascii_of_string s).

(** Two strings that differ in letter case only. *)
Fixpoint same_letters (s t : string) : Prop :=
  match s, t with
  | EmptyString, EmptyString => True
  | String a r, String b q => lower_char a = lower_char b /\ same_letters r q
  | _, _ => False
  end.

End PyStr.

(* ------------------------------------------------------------------ *)
(** ** [hashlib.sha256]

    FIPS 180-4 on 32-bit words held in [Z], every addition reduced modulo
    [2^32]. *)

Module Sha256.

Definition wrap32 (x : Z) : Z := x mod 2 ^ 32.
Definition add32 (x y : Z) : Z := wrap32 (x + y).

Definition rotr (n x : Z) : Z :=
  Z.lor (Z.shiftr x n) (wrap32 (Z.shiftl x (32 - n))).
Definition shr (n x : Z) : Z := Z.shiftr x n.

Definition Ch (x y z : Z) : Z :=
  Z.lxor (Z.land x y) (Z.land (Z.lxor x 0xffffffff) z).
Definition Maj (x y z : Z) : Z :=
  Z.lxor (Z.lxor (Z.land x y) (Z.land x z)) (Z.land y z).
Definition Sigma0 (x : Z) : Z :=
  Z.lxor (Z.lxor (rotr 2 x) (rotr 13 x)) (rotr 22 x).
Definition Sigma1 (x : Z) : Z :=
  Z.lxor (Z.lxor (rotr 6 x) (rotr 11 x)) (rotr 25 x).
Definition sigma0 (x : Z) : Z :=
  Z.lxor (Z.lxor (rotr 7 x) (rotr 18 x)) (shr 3 x).
Definition sigma1 (x : Z) : Z :=
  Z.lxor (Z.lxor (rotr 17 x) (rotr 19 x)) (shr 10 x).

(** The round constants: the first 32 bits of the fractional parts of the
    cube roots of the first sixty-four primes. *)
Definition is_prime (n : Z) : bool :=
  forallb (fun d => negb (n mod Z.of_nat d =? 0)) (seq 2 (Z.to_nat n - 2)).

Definition first_primes : list Z :=
  filter is_prime (map Z.of_nat (seq 2 310)).

(** The integer cube root, found bit by bit from the top. *)
Definition icbrt (n : Z) : Z :=
  fold_left (fun r b => let c := r + 2 ^ Z.of_nat b in
                        if c * c * c <=? n then c else r)
            (rev (seq 0 36)) 0.

Definition K : list Z :=
  Eval vm_compute in map (fun p => icbrt (p * 2 ^ 96) mod 2 ^ 32) first_primes.

(** The eight working variables, and the hash value between blocks. *)
Record regs : Type := Regs {
  ra : Z; rb : Z; rc : Z; rd : Z; re : Z; rf : Z; rg : Z; rh : Z
}.

Definition H0 : regs :=
  Regs 0x6a09e667 0xbb67ae85 0x3c6ef372 0xa54ff53a
       0x510e527f 0x9b05688c 0x1f83d9ab 0x5be0cd19.

(** Padding: a [1] bit, zeros up to 56 modulo 64 bytes, then the bit
    length on eight bytes, most significant first. *)
Definition be_bytes (n : nat) (x : Z) : list Z :=
  map (fun i => (x / 2 ^ (8 * Z.of_nat i)) mod 256) (rev (seq 0 n)).

Definition pad (msg : list Z) : list Z :=
  let len := Z.of_nat (List.length msg) in
  msg ++ [0x80] ++ repeat 0 (Z.to_nat ((55 - len) mod 64))
      ++ be_bytes 8 (8 * len).

Fixpoint words (bs : list Z) : list Z :=
  match bs with
  | a :: b :: c :: d :: r =>
      (((a * 256 + b) * 256 + c) * 256 + d) :: words r
  | _ => []
  end.

(** The message schedule: sixteen words of the block extended to
    sixty-four. *)
Fixpoint extend (n : nat) (w : list Z) : list Z :=
  match n with
  | O => w
  | S n' =>
      let t := List.length w in
      let x := add32 (add32 (sigma1 (nth (t - 2) w 0)) (nth (t - 7) w 0))
                     (add32 (sigma0 (nth (t - 15) w 0)) (nth (t - 16) w 0)) in
      extend n' (w ++ [x])
  end.

Definition round (r : regs) (kw : Z * Z) : regs :=
  let t1 := add32 (add32 (add32 (rh r) (Sigma1 (re r)))
                         (add32 (Ch (re r) (rf r) (rg r)) (fst kw)))
                  (snd kw) in
  let t2 := add32 (Sigma0 (ra r)) (Maj (ra r) (rb r) (rc r)) in
  Regs (add32 t1 t2) (ra r) (rb r) (rc r) (add32 (rd r) t1) (re r) (rf r) (rg r).

Definition compress (h : regs) (block : list Z) : regs :=
  let r := fold_left round (combine K (extend 48 block)) h in
  Regs (add32 (ra h) (ra r)) (add32 (rb h) (rb r))
       (add32 (rc h) (rc r)) (add32 (rd h) (rd r))
       (add32 (re h) (re r)) (add32 (rf h) (rf r))
       (add32 (rg h) (rg r)) (add32 (rh h) (rh r)).

Fixpoint blocks (n : nat) (ws : list Z) (h : regs) : regs :=
  match n with
  | O => h
  | S n' => blocks n' (skipn 16 ws) (compress h (firstn 16 ws))
  end.

Definition digest (msg : list Z) : regs :=
  let ws := words (pad msg) in
  blocks (List.length ws / 16) ws H0.

Definition hexdigit (x : Z) : ascii :=
  if x <? 10 then ascii_of_N (Z.to_N (48 + x))
  else ascii_of_N (Z.to_N (87 + x)).

Definition nibble (x i : Z) : ascii := hexdigit ((x / 2 ^ (4 * i)) mod 16).

Definition hex32 (x : Z) (rest : string) : string :=
  String (nibble x 7) (String (nibble x 6) (String (nibble x 5)
  (String (nibble x 4) (String (nibble x 3) (String (nibble x 2)
  (String (nibble x 1) (String (nibble x 0) rest))))))).

(** [hashlib.sha256(data).hexdigest()] *)
Definition hexdigest (msg : list Z) : string :=
  let h := digest msg in
  hex32 (ra h) (hex32 (rb h) (hex32 (rc h) (hex32 (rd h)
  (hex32 (re h) (hex32 (rf h) (hex32 (rg h) (hex32 (rh h) ""))))))).

End Sha256.

(** [RSSAggregator._fingerprint]:
    [text = f"{title.lower().strip()}{url.lower().strip()}"],
    [hashlib.sha256(text.encode()).hexdigest()[:16]]. *)
Definition normalize (s : string) : string := PyStr.strip (PyStr.lower s).

Definition fingerprint_text (title url : string) : string :=
  String.append (normalize title) (normalize url).

Definition _fingerprint (title url : string) : string :=
  PyStr.slice_to 16 (Sha256.hexdigest (PyStr.encode (fingerprint_text title url))).

(* ------------------------------------------------------------------ *)
(** ** The dataclasses *)

Definition Time : Type := Z.

(** [timedelta(hours=h)] in microseconds. *)
Definition hours (h : Z) : Z := h * 3600 * 1000000.

Inductive FeedStatus : Type := ACTIVE | PAUSED | ERROR.

Definition status_eqb (a b : FeedStatus) : bool :=
  match a, b with
  | ACTIVE, ACTIVE | PAUSED, PAUSED | ERROR, ERROR => true
  | _, _ => false
  end.

Record AggregatorConfig : Type := {
  max_items_per_feed : Z;
  dedupe_window_days : Z;
  fetch_timeout : Z;
  max_summary_length : Z
}.

Definition default_config : AggregatorConfig :=
  {| max_items_per_feed := 100; dedupe_window_days := 30;
     fetch_timeout := 10; max_summary_length := 500 |}.

Module Feed.
Record t : Type := mk {
  id : string;
  name : string;
  url : string;
  category : string;
  fetch_interval_min : Z;
  last_fetched : option Time;
  status : FeedStatus;
  error_message : option string;
  item_count : Z;
  created_at : Time
}.

(** [SET last_fetched=?, status='active', item_count=?] *)
Definition set_fetched (now : Time) (total : Z) (f : t) : t :=
  mk (id f) (name f) (url f) (category f) (fetch_interval_min f)
     (Some now) ACTIVE (error_message f) total (created_at f).

(** [SET status='error', error_message=?] *)
Definition set_error (msg : string) (f : t) : t :=
  mk (id f) (name f) (url f) (category f) (fetch_interval_min f)
     (last_fetched f) ERROR (Some msg) (item_count f) (created_at f).

(** [SET status=...] *)
Definition set_status (st : FeedStatus) (f : t) : t :=
  mk (id f) (name f) (url f) (category f) (fetch_interval_min f)
     (last_fetched f) st (error_message f) (item_count f) (created_at f).
End Feed.

Module FeedItem.
Record t : Type := mk {
  id : string;
  feed_id : string;
  title : string;
  url : string;
  summary : string;
  author : string;
  published_at : Time;
  fingerprint : string;
  is_read : bool;
  is_bookmarked : bool;
  created_at : Time
}.

Definition set_is_read (b : bool) (i : t) : t :=
  mk (id i) (feed_id i) (title i) (url i) (summary i) (author i)
     (published_at i) (fingerprint i) b (is_bookmarked i) (created_at i).

Definition set_is_bookmarked (b : bool) (i : t) : t :=
  mk (id i) (feed_id i) (title i) (url i) (summary i) (author i)
     (published_at i) (fingerprint i) (is_read i) b (created_at i).
End FeedItem.

(** One record of a parsed feed, as the fetcher returns it.  [title] and
    [url] are read with [raw["..."]]; the other three with [raw.get], so
    they may be missing. *)
Record RawItem : Type := {
  raw_title : string;
  raw_url : string;
  raw_summary : option string;
  raw_author : option string;
  raw_published_at : option Time
}.

Definition raw_fingerprint (raw : RawItem) : string :=
  _fingerprint (raw_title raw) (raw_url raw).

(** Exceptions, with [str(e)]: [ValueError] and [OverflowError] of
    Python, [IntegrityError] and [OperationalError] of [sqlite3], and what
    a fetcher raises. *)
Inductive Exception : Type :=
| ValueError (msg : string)
| IntegrityError (msg : string)
| FetchError (msg : string)
| OverflowError (msg : string)
| OperationalError (msg : string).

Definition str_of (e : Exception) : string :=
  match e with
  | ValueError m | IntegrityError m | FetchError m
  | OverflowError m | OperationalError m => m
  end.

(* ------------------------------------------------------------------ *)
(** ** The store: tables [feeds], [feed_items], [feed_items_fts] *)

(** A row of [feed_items] with its SQLite [rowid]. *)
Record ItemRow : Type := {
  rowid : Z;
  item : FeedItem.t
}.

(** An entry of the full-text index: the three indexed columns of the row
    with that [rowid]. *)
Record FtsDoc : Type := {
  fts_rowid : Z;
  fts_title : string;
  fts_summary : string;
  fts_author : string
}.

Record Store : Type := {
  feeds : list Feed.t;
  feed_items : list ItemRow;
  feed_items_fts : list FtsDoc
}.

Definition empty_store : Store :=
  {| feeds := []; feed_items := []; feed_items_fts := [] |}.

Definition doc_of (r : ItemRow) : FtsDoc :=
  {| fts_rowid := rowid r;
     fts_title := FeedItem.title (item r);
     fts_summary := FeedItem.summary (item r);
     fts_author := FeedItem.author (item r) |}.

Definition doc_eqb (a b : FtsDoc) : bool :=
  (fts_rowid a =? fts_rowid b)
  && String.eqb (fts_title a) (fts_title b)
  && String.eqb (fts_summary a) (fts_summary b)
  && String.eqb (fts_author a) (fts_author b).

(** [SELECT * FROM feeds WHERE id=?] / [WHERE url=?], [fetchone()]. *)
Definition select_feed_by_id (fid : string) (s : Store) : option Feed.t :=
  find (fun f => String.eqb (Feed.id f) fid) (feeds s).

Definition select_feed_by_url (u : string) (s : Store) : option Feed.t :=
  find (fun f => String.eqb (Feed.url f) u) (feeds s).

(** [INSERT OR IGNORE INTO feeds ...]: ignored when the primary key [id]
    or the UNIQUE [url] is already taken. *)
Definition insert_or_ignore_feed (f : Feed.t) (s : Store) : Store :=
  if existsb (fun g => String.eqb (Feed.id g) (Feed.id f)
                       || String.eqb (Feed.url g) (Feed.url f)) (feeds s)
  then s
  else {| feeds := feeds s ++ [f];
          feed_items := feed_items s;
          feed_items_fts := feed_items_fts s |}.

(** [UPDATE feeds SET ... WHERE id=?], with [rowcount]. *)
Definition update_feeds (fid : string) (upd : Feed.t -> Feed.t) (s : Store)
  : Store * Z :=
  ({| feeds := map (fun f => if String.eqb (Feed.id f) fid then upd f else f)
                   (feeds s);
      feed_items := feed_items s;
      feed_items_fts := feed_items_fts s |},
   Z.of_nat (List.length (filter (fun f => String.eqb (Feed.id f) fid) (feeds s)))).

(** [SELECT id FROM feed_items WHERE fingerprint=?], [fetchone()] not
    [None]. *)
Definition fingerprint_exists (fp : string) (s : Store) : bool :=
  existsb (fun r => String.eqb (FeedItem.fingerprint (item r)) fp) (feed_items s).

(** The [rowid] SQLite gives to a new row: one more than the largest in
    use. *)
Definition next_rowid (rows : list ItemRow) : Z :=
  fold_right (fun r m => Z.max (rowid r) m) 0 rows + 1.

(** [INSERT INTO feed_items ...]: the primary key [id] must be fresh; the
    trigger [feed_items_ai] adds the row to the full-text index. *)
Definition insert_item (it : FeedItem.t) (s : Store) : Exception + Store :=
  if existsb (fun r => String.eqb (FeedItem.id (item r)) (FeedItem.id it))
             (feed_items s)
  then inl (IntegrityError "UNIQUE constraint failed: feed_items.id")
  else
    let r := {| rowid := next_rowid (feed_items s); item := it |} in
    inr {| feeds := feeds s;
           feed_items := feed_items s ++ [r];
           feed_items_fts := feed_items_fts s ++ [doc_of r] |}.

(** [SELECT COUNT( * ) FROM feed_items WHERE feed_id=?] *)
Definition count_items_of (fid : string) (s : Store) : Z :=
  Z.of_nat (List.length
    (filter (fun r => String.eqb (FeedItem.feed_id (item r)) fid) (feed_items s))).

(** [UPDATE feed_items SET ... WHERE id=?], with [rowcount]. *)
Definition update_items (iid : string) (upd : FeedItem.t -> FeedItem.t)
  (s : Store) : Store * Z :=
  ({| feeds := feeds s;
      feed_items :=
        map (fun r => if String.eqb (FeedItem.id (item r)) iid
                      then {| rowid := rowid r; item := upd (item r) |} else r)
            (feed_items s);
      feed_items_fts := feed_items_fts s |},
   Z.of_nat (List.length
     (filter (fun r => String.eqb (FeedItem.id (item r)) iid) (feed_items s)))).

(** The ['delete'] command of the trigger [feed_items_ad]: the entry with
    the old row's [rowid] and column values leaves the index.  The command
    is meant for an entry that is in the index, which is the case when the
    index holds the rows of the table. *)
Definition fts_delete (old : ItemRow) (idx : list FtsDoc) : list FtsDoc :=
  filter (fun d => negb (doc_eqb d (doc_of old))) idx.

(** [DELETE FROM feed_items WHERE fingerprint=? AND id != ?], with
    [rowcount]; the trigger runs once for each deleted row. *)
Definition doomed (fp keep : string) (r : ItemRow) : bool :=
  String.eqb (FeedItem.fingerprint (item r)) fp
  && negb (String.eqb (FeedItem.id (item r)) keep).

Definition delete_items (fp keep : string) (s : Store) : Store * Z :=
  let dead := filter (doomed fp keep) (feed_items s) in
  ({| feeds := feeds s;
      feed_items := filter (fun r => negb (doomed fp keep r)) (feed_items s);
      feed_items_fts := fold_left (fun idx r => fts_delete r idx) dead
                                  (feed_items_fts s) |},
   Z.of_nat (List.length dead)).

(** [MIN(id)] over TEXT: the least string in byte order. *)
Definition str_min (a b : string) : string :=
  if String.ltb b a then b else a.

Definition min_id (ids : list string) : string :=
  match ids with
  | [] => ""
  | a :: r => fold_left str_min r a
  end.

(** [SELECT fingerprint, COUNT( * ) as cnt, MIN(id) as keep_id
     FROM feed_items GROUP BY fingerprint HAVING cnt > 1].
    One result row for each distinct fingerprint carried by more than one
    item.  The order of the groups does not matter to the caller. *)
Definition ids_with (fp : string) (rows : list ItemRow) : list string :=
  map (fun r => FeedItem.id (item r))
      (filter (fun r => String.eqb (FeedItem.fingerprint (item r)) fp) rows).

Definition duplicate_groups (s : Store) : list (string * Z * string) :=
  let rows := feed_items s in
  filter (fun g => 1 <? snd (fst g))
    (map (fun fp => (fp, Z.of_nat (List.length (ids_with fp rows)),
                     min_id (ids_with fp rows)))
         (nodup string_dec (map (fun r => FeedItem.fingerprint (item r)) rows))).

(** [ORDER BY published_at DESC]: a stable insertion sort, so rows with
    equal timestamps keep their table order. *)
Fixpoint insert_desc (r : ItemRow) (l : list ItemRow) : list ItemRow :=
  match l with
  | [] => [r]
  | x :: l' =>
      if FeedItem.published_at (item x) <=? FeedItem.published_at (item r)
      then r :: l
      else x :: insert_desc r l'
  end.

Definition order_by_published_desc (l : list ItemRow) : list ItemRow :=
  fold_right insert_desc [] l.

(** [LIMIT n]: a negative [n] is no limit. *)
Definition sql_limit {A} (n : Z) (l : list A) : list A :=
  if n <? 0 then l else firstn (Z.to_nat n) l.

(* ------------------------------------------------------------------ *)
(** ** The environment and the world *)

(** What the aggregator uses and does not own: the identifier source
    [uuid.uuid4()], the clock behind [_now()], the configuration, the
    fetcher behind [self._simulate_fetch] (it sees the moment it is called
    at), and the MATCH operator of the FTS5 table: what FTS5 makes of a
    query string, the [sqlite3.OperationalError] it raises for a string it
    cannot parse or the test it applies to the entries of the index. *)
Record Env : Type := {
  uuid4 : nat -> string;
  utcnow : nat -> Time;
  config : AggregatorConfig;
  fetcher : AggregatorConfig -> Feed.t -> Time -> Exception + list RawItem;
  fts_match : string -> Exception + (FtsDoc -> bool)
}.

(** The call log records the two calls the specification speaks of: every
    entry into [refresh] and every invocation of the fetcher. *)
Inductive Event : Type :=
| Refreshing (feed_id : string)
| Fetching (feed_id : string).

Record World : Type := {
  store : Store;
  uuids_drawn : nat;
  clock_reads : nat;
  calls : list Event
}.

Definition empty_world : World :=
  {| store := empty_store; uuids_drawn := 0; clock_reads := 0; calls := [] |}.

Definition set_store (s : Store) (w : World) : World :=
  {| store := s; uuids_drawn := uuids_drawn w;
     clock_reads := clock_reads w; calls := calls w |}.

Definition tick (w : World) : World :=
  {| store := store w; uuids_drawn := uuids_drawn w;
     clock_reads := S (clock_reads w); calls := calls w |}.

Definition draw (w : World) : World :=
  {| store := store w; uuids_drawn := S (uuids_drawn w);
     clock_reads := clock_reads w; calls := calls w |}.

Definition record_call (ev : Event) (w : World) : World :=
  {| store := store w; uuids_drawn := uuids_drawn w;
     clock_reads := clock_reads w; calls := calls w ++ [ev] |}.

(** State and exceptions. *)
Definition M (A : Type) : Type := World -> World * (Exception + A).

Definition ret {A} (a : A) : M A := fun w => (w, inr a).

Definition bind {A B} (m : M A) (k : A -> M B) : M B :=
  fun w =>
    match m w with
    | (w', inr a) => k a w'
    | (w', inl e) => (w', inl e)
    end.

Definition raise {A} (e : Exception) : M A := fun w => (w, inl e).

(** [try: m  except Exception as e: h e] *)
Definition try_except {A} (m : M A) (h : Exception -> M A) : M A :=
  fun w =>
    match m w with
    | (w', inr a) => (w', inr a)
    | (w', inl e) => h e w'
    end.

(** [with self._connect() as conn: m] commits when [m] returns and rolls
    the tables back when [m] raises. *)
Definition with_connect {A} (m : M A) : M A :=
  fun w =>
    match m w with
    | (w', inr a) => (w', inr a)
    | (w', inl e) => (set_store (store w) w', inl e)
    end.

Definition query {A} (q : Store -> A) : M A := fun w => (w, inr (q (store w))).

Definition execute {A} (stmt : Store -> Store * A) : M A :=
  fun w => let (s, a) := stmt (store w) in (set_store s w, inr a).

Definition execute_or_raise (stmt : Store -> Exception + Store) : M unit :=
  fun w =>
    match stmt (store w) with
    | inr s => (set_store s w, inr tt)
    | inl e => (w, inl e)
    end.

Definition log (ev : Event) : M unit := fun w => (record_call ev w, inr tt).

(** A Python [int] bound as a parameter of a statement: it must fit the
    64-bit INTEGER of SQLite, or [execute] raises before the statement
    runs. *)
Definition int64 (n : Z) : bool := (- 2 ^ 63 <=? n) && (n <? 2 ^ 63).

Definition int_too_large : Exception :=
  OverflowError "Python int too large to convert to SQLite INTEGER".

Definition sqlite_int (n : Z) : M unit :=
  if int64 n then ret tt else raise int_too_large.

Declare Scope monad_scope.
Delimit Scope monad_scope with monad.
Notation "x <- m ;; k" := (bind m (fun x => k))
  (at level 61, m at next level, right associativity) : monad_scope.
Notation "m ;; k" := (bind m (fun _ => k))
  (at level 61, right associativity) : monad_scope.
Local Open Scope monad_scope.

(* ------------------------------------------------------------------ *)
(** ** [RSSAggregator] *)

(** What [refresh] returns: the skip dictionary
    [{"feed_id", "skipped": True, "reason"}] or the summary
    [{"feed_id", "new_items", "duplicates", "total_items"}]. *)
Inductive RefreshResult : Type :=
| Skipped (feed_id reason : string)
| Refreshed (feed_id : string) (new_items duplicates total_items : Z).

(** An entry of the list [refresh_all] returns: a result of [refresh], or
    [{"feed_id", "error"}]. *)
Inductive BatchEntry : Type :=
| Done (result : RefreshResult)
| Failed (feed_id error : string).

Definition result_feed_id (r : RefreshResult) : string :=
  match r with
  | Skipped fid _ => fid
  | Refreshed fid _ _ _ => fid
  end.

Definition entry_feed_id (e : BatchEntry) : string :=
  match e with
  | Done r => result_feed_id r
  | Failed fid _ => fid
  end.

(** [SAMPLE_FEEDS]: (title, author, url, summary) by category. *)
Definition SAMPLE_FEEDS : list (string * list (string * string * string * string)) :=
  [ ("tech-news",
     [ ("AI Breakthrough in 2025", "Jane Smith", "https://example.com/ai-2025",
        "New AI models achieve human parity on reasoning benchmarks.");
       ("Open Source Wins Big", "John Doe", "https://example.com/oss",
        "Open source projects dominate enterprise adoption.");
       ("Cloud Costs Spiral", "Alice Brown", "https://example.com/cloud",
        "Enterprise cloud costs up 40% year over year.") ]);
    ("science",
     [ ("Mars Mission Update", "NASA Team", "https://example.com/mars",
        "Perseverance rover discovers ancient lake bed.");
       ("Quantum Computing Milestone", "MIT Lab", "https://example.com/quantum",
        "100-qubit processor achieves new error correction record.") ]);
    ("default",
     [ ("Sample Article 1", "Author A", "https://example.com/1",
        "Content for article one.");
       ("Sample Article 2", "Author B", "https://example.com/2",
        "Content for article two.") ]) ].

Definition sample_lookup (key : string)
  : option (list (string * string * string * string)) :=
  option_map snd (find (fun kv => String.eqb (fst kv) key) SAMPLE_FEEDS).

(** [enumerate(l)] *)
Definition enumerate {A} (l : list A) : list (Z * A) :=
  combine (map Z.of_nat (seq 0 (List.length l))) l.

(** [RSSAggregator._simulate_fetch], given the reading [now] of the clock. *)
Definition _simulate_fetch (cfg : AggregatorConfig) (feed : Feed.t) (now : Time)
  : Exception + list RawItem :=
  let key := match sample_lookup (Feed.category feed) with
             | Some _ => Feed.category feed
             | None => "default"
             end in
  let items := match sample_lookup key with Some l => l | None => [] end in
  inr (map (fun '(i, (title, author, url, summary)) =>
              {| raw_title := title;
                 raw_url := url;
                 raw_summary := Some (PyStr.slice_to (max_summary_length cfg) summary);
                 raw_author := Some author;
                 raw_published_at := Some (now - hours (i * 6)) |})
           (enumerate (PyStr.list_slice_to (max_items_per_feed cfg) items))).

Section Aggregator.

Variable self : Env.

(** [_now()] and [str(uuid.uuid4())]: the next reading of each source. *)
Definition _now : M Time :=
  fun w => (tick w, inr (utcnow self (clock_reads w))).

Definition new_uuid : M string :=
  fun w => (draw w, inr (uuid4 self (uuids_drawn w))).

Definition get_feed (feed_id : string) : M (option Feed.t) :=
  with_connect (query (select_feed_by_id feed_id)).

Definition get_feed_by_url (url : string) : M (option Feed.t) :=
  with_connect (query (select_feed_by_url url)).

Definition add_feed (name url category : string) (fetch_interval_min : Z)
  : M Feed.t :=
  feed_id <- new_uuid ;;
  created <- _now ;;
  let feed := Feed.mk feed_id name url category fetch_interval_min
                      None ACTIVE None 0 created in
  with_connect (
    sqlite_int fetch_interval_min ;;
    execute (fun s => (insert_or_ignore_feed feed s, tt))) ;;
  found <- get_feed_by_url url ;;
  ret (match found with Some f => f | None => feed end).

(** The call [self._simulate_fetch(feed)]. *)
Definition fetch (feed : Feed.t) : M (list RawItem) :=
  log (Fetching (Feed.id feed)) ;;
  now <- _now ;;
  match fetcher self (config self) feed now with
  | inr raw_items => ret raw_items
  | inl e => raise e
  end.

(** The body of [for raw in raw_items] in [refresh]: [true] for a new
    item, [false] for a duplicate. *)
Definition refresh_item (feed_id : string) (raw : RawItem) : M bool :=
  let fp := _fingerprint (raw_title raw) (raw_url raw) in
  with_connect (
    existing <- query (fingerprint_exists fp) ;;
    if existing then ret false
    else
      item_id <- new_uuid ;;
      default_published <- _now ;;
      created <- _now ;;
      execute_or_raise (insert_item
        (FeedItem.mk item_id feed_id (raw_title raw) (raw_url raw)
           (match raw_summary raw with Some x => x | None => "" end)
           (match raw_author raw with Some x => x | None => "" end)
           (match raw_published_at raw with
            | Some t => t | None => default_published end)
           fp false false created)) ;;
      ret true).

Fixpoint refresh_loop (feed_id : string) (raw_items : list RawItem)
  (new_count dup_count : Z) : M (Z * Z) :=
  match raw_items with
  | [] => ret (new_count, dup_count)
  | raw :: rest =>
      is_new <- refresh_item feed_id raw ;;
      if is_new then refresh_loop feed_id rest (new_count + 1) dup_count
      else refresh_loop feed_id rest new_count (dup_count + 1)
  end.

(** The statements of [refresh] after the loop. *)
Definition mark_fetched (feed_id : string) : M Z :=
  with_connect (
    total <- query (count_items_of feed_id) ;;
    now <- _now ;;
    execute (update_feeds feed_id (Feed.set_fetched now total)) ;;
    ret total).

(** The statements of the [except] clause of [refresh]. *)
Definition mark_error (feed_id : string) (e : Exception) : M unit :=
  with_connect (
    execute (update_feeds feed_id (Feed.set_error (str_of e))) ;;
    ret tt).

Definition refresh (feed_id : string) : M RefreshResult :=
  log (Refreshing feed_id) ;;
  found <- get_feed feed_id ;;
  match found with
  | None => raise (ValueError (String.append "Feed "
                     (String.append feed_id " not found")))
  | Some feed =>
      if status_eqb (Feed.status feed) PAUSED
      then ret (Skipped feed_id "paused")
      else
        try_except
          (raw_items <- fetch feed ;;
           counts <- refresh_loop feed_id raw_items 0 0 ;;
           total <- mark_fetched feed_id ;;
           ret (Refreshed feed_id (fst counts) (snd counts) total))
          (fun e => mark_error feed_id e ;; raise e)
  end.

(** [SELECT id FROM feeds WHERE status='active'] *)
Definition active_ids (s : Store) : list string :=
  map Feed.id (filter (fun f => status_eqb (Feed.status f) ACTIVE) (feeds s)).

Fixpoint refresh_each (ids : list string) (results : list BatchEntry)
  : M (list BatchEntry) :=
  match ids with
  | [] => ret results
  | fid :: rest =>
      entry <- try_except (result <- refresh fid ;; ret (Done result))
                          (fun e => ret (Failed fid (str_of e))) ;;
      refresh_each rest (results ++ [entry])
  end.

Definition refresh_all : M (list BatchEntry) :=
  ids <- with_connect (query active_ids) ;;
  refresh_each ids [].

Definition set_item_flag (item_id : string) (upd : FeedItem.t -> FeedItem.t)
  : M bool :=
  rowcount <- with_connect (execute (update_items item_id upd)) ;;
  ret (0 <? rowcount).

Definition mark_read (item_id : string) : M bool :=
  set_item_flag item_id (FeedItem.set_is_read true).

Definition mark_unread (item_id : string) : M bool :=
  set_item_flag item_id (FeedItem.set_is_read false).

Definition bookmark (item_id : string) : M bool :=
  set_item_flag item_id (FeedItem.set_is_bookmarked true).

Definition unbookmark (item_id : string) : M bool :=
  set_item_flag item_id (FeedItem.set_is_bookmarked false).




(** The loop of [deduplicate] over the rows of the GROUP BY query. *)
Fixpoint delete_losers (dups : list (string * Z * string)) (removed : Z)
  : M Z :=
  match dups with
  | [] => ret removed
  | dup :: rest =>
      rowcount <- execute (delete_items (fst (fst dup)) (snd dup)) ;;
      delete_losers rest (removed + rowcount)
  end.

Definition deduplicate : M Z :=
  with_connect (
    dups <- query duplicate_groups ;;
    delete_losers dups 0).

Definition set_feed_status (feed_id : string) (st : FeedStatus) : M bool :=
  rowcount <- with_connect (execute (update_feeds feed_id (Feed.set_status st))) ;;
  ret (0 <? rowcount).

Definition pause_feed (feed_id : string) : M bool :=
  set_feed_status feed_id PAUSED.

Definition resume_feed (feed_id : string) : M bool :=
  set_feed_status feed_id ACTIVE.

(** The operations that write to the store, as a caller issues them. *)
Inductive Op : Type :=
| OpAddFeed (name url category : string) (fetch_interval_min : Z)
| OpRefresh (feed_id : string)
| OpRefreshAll
| OpMarkRead (item_id : string)
| OpMarkUnread (item_id : string)
| OpBookmark (item_id : string)
| OpUnbookmark (item_id : string)
| OpDeduplicate
| OpPauseFeed (feed_id : string)
| OpResumeFeed (feed_id : string).

(** What a call gave back: [true] when it returned, [false] when it
    raised. *)
Definition returned {A} (m : M A) : M bool :=
  try_except (m ;; ret true) (fun _ => ret false).

Definition run_op (op : Op) : M bool :=
  match op with
  | OpAddFeed n u c i => returned (add_feed n u c i)
  | OpRefresh fid => returned (refresh fid)
  | OpRefreshAll => returned refresh_all
  | OpMarkRead i => returned (mark_read i)
  | OpMarkUnread i => returned (mark_unread i)
  | OpBookmark i => returned (bookmark i)
  | OpUnbookmark i => returned (unbookmark i)
  | OpDeduplicate => returned deduplicate
  | OpPauseFeed fid => returned (pause_feed fid)
  | OpResumeFeed fid => returned (resume_feed fid)
  end.

Fixpoint run_ops (ops : list Op) (w : World) : World :=
  match ops with
  | [] => w
  | op :: rest => run_ops rest (fst (run_op op w))
  end.

(** The worlds a caller can bring about from a new database. *)
Definition reachable (w : World) : Prop :=
  exists ops, w = run_ops ops empty_world.

End Aggregator.

(* ------------------------------------------------------------------ *)
(** ** Concrete environments

    Used to run the aggregator on explicit inputs. *)

(** The default tokenizer of FTS5 on ASCII text: tokens are the maximal
    runs of letters and digits, folded to lower case. *)
Definition is_alnum (c : ascii) : bool :=
  let n := PyStr.code c in
  ((48 <=? n) && (n <=? 57)) || ((65 <=? n) && (n <=? 90))
  || ((97 <=? n) && (n <=? 122)).

Fixpoint tokens_from (cur : string) (s : string) : list string :=
  match s with
  | EmptyString => if String.eqb cur "" then [] else [cur]
  | String c r =>
      if is_alnum c
      then tokens_from (String.append cur (String (PyStr.lower_char c) "")) r
      else if String.eqb cur "" then tokens_from "" r
           else cur :: tokens_from "" r
  end.

Definition tokens (s : string) : list string := tokens_from "" s.

Definition dq : string := String "034"%char EmptyString.

Definition cat3 (a b c : string) : string := String.append a (String.append b c).

(** The FTS5 query syntax over words.  A query is read token by token:
    bare words (runs of letters and digits), the operators [AND], [OR]
    and [NOT] in capitals, the star that makes the word before it a prefix,
    and the hyphen, which FTS5 takes for the start of a column filter.
    Blanks separate tokens; any other character is an error. *)
Inductive QueryToken : Type :=
| QWord (w : string)
| QAnd
| QOr
| QNot
| QMinus
| QStar
| QBad (c : ascii).

Definition word_token (w : string) : QueryToken :=
  if String.eqb w "AND" then QAnd
  else if String.eqb w "OR" then QOr
  else if String.eqb w "NOT" then QNot
  else QWord w.

Definition flush (cur : string) : list QueryToken :=
  if String.eqb cur "" then [] else [word_token cur].

Definition is_query_space (c : ascii) : bool :=
  let n := PyStr.code c in (n =? 32) || (n =? 9) || (n =? 10) || (n =? 13).

Fixpoint lex_from (cur : string) (q : string) : list QueryToken :=
  match q with
  | EmptyString => flush cur
  | String c r =>
      if is_alnum c then lex_from (String.append cur (String c "")) r
      else flush cur ++
           (if is_query_space c then lex_from "" r
            else if PyStr.code c =? 45 then QMinus :: lex_from "" r
            else if PyStr.code c =? 42 then QStar :: lex_from "" r
            else [QBad c])
  end.

Definition lex (q : string) : list QueryToken := lex_from "" q.

Definition token_text (t : QueryToken) : string :=
  match t with
  | QWord w => w
  | QAnd => "AND"
  | QOr => "OR"
  | QNot => "NOT"
  | QMinus => "-"
  | QStar => "*"
  | QBad c => String c ""
  end.

(** The message of the parser when it cannot go on at the head of
    [toks]. *)
Definition syntax_error_near (toks : list QueryToken) : string :=
  String.append "fts5: syntax error near "
    (cat3 dq (match toks with [] => "" | t :: _ => token_text t end) dq).

Definition is_column (w : string) : bool :=
  existsb (String.eqb (PyStr.lower w)) ["title"; "summary"; "author"].

(** After a hyphen FTS5 wants the name of a column and then a colon. *)
Definition column_filter_error (toks : list QueryToken) : string :=
  match toks with
  | QWord w :: rest =>
      match rest with
      | QBad _ :: _ => syntax_error_near rest
      | _ => if is_column w then syntax_error_near rest
             else String.append "no such column: " w
      end
  | _ => syntax_error_near toks
  end.

(** A parsed query: terms joined by the three operators; terms that
    follow each other are joined by an implicit AND. *)
Inductive QueryItem : Type :=
| Term (w : string) (is_prefix : bool)
| IAnd
| IOr
| INot.

Definition more (it : QueryItem) (r : string + list QueryItem)
  : string + list QueryItem :=
  match r with inl msg => inl msg | inr items => inr (it :: items) end.

(** [expect] tells that a term must come next: at the start and after an
    operator. *)
Fixpoint parse_query (expect : bool) (toks : list QueryToken)
  : string + list QueryItem :=
  match toks with
  | [] => if expect then inl (syntax_error_near toks) else inr []
  | QWord w :: QStar :: r => more (Term w true) (parse_query false r)
  | QWord w :: r => more (Term w false) (parse_query false r)
  | QAnd :: r =>
      if expect then inl (syntax_error_near toks) else more IAnd (parse_query true r)
  | QOr :: r =>
      if expect then inl (syntax_error_near toks) else more IOr (parse_query true r)
  | QNot :: r =>
      if expect then inl (syntax_error_near toks) else more INot (parse_query true r)
  | QMinus :: r => inl (column_filter_error r)
  | QStar :: _ => inl (syntax_error_near toks)
  | QBad _ :: _ => inl (syntax_error_near toks)
  end.

(** Whether an entry of the index holds a term: some token of one of the
    three columns is the word, or begins with it for a prefix term. *)
Definition doc_tokens (d : FtsDoc) : list string :=
  tokens (fts_title d) ++ tokens (fts_summary d) ++ tokens (fts_author d).

Definition holds_term (d : FtsDoc) (w : string) (is_prefix : bool) : bool :=
  if is_prefix then existsb (String.prefix (PyStr.lower w)) (doc_tokens d)
  else existsb (String.eqb (PyStr.lower w)) (doc_tokens d).

(** The value of a parsed query on an entry, read left to right.  NOT
    binds more tightly than AND, AND than OR, the implicit AND most
    tightly of all, and [a NOT b NOT c] is [(a NOT b) NOT c].  [alt] is
    the value of the alternatives of OR already closed, [conj] of the
    operands of AND already closed in the current alternative, [chain] of
    the current operand up to its last NOT, and [group] of the terms read
    since, negated when they follow a NOT. *)
Fixpoint eval_query (d : FtsDoc) (items : list QueryItem)
  (alt conj chain negated group : bool) : bool :=
  let closed := chain && (if negated then negb group else group) in
  match items with
  | [] => alt || (conj && closed)
  | Term w p :: r => eval_query d r alt conj chain negated (group && holds_term d w p)
  | INot :: r => eval_query d r alt conj closed true true
  | IAnd :: r => eval_query d r alt (conj && closed) true false true
  | IOr :: r => eval_query d r (alt || (conj && closed)) true true false true
  end.

(** The characters of the rest of the FTS5 syntax: quotes, parentheses,
    braces, colon, comma, plus, caret, the underscore, NUL, SUB and
    whatever is outside ASCII; and a star in first place, which starts a
    special query. *)
Definition beyond_words (q : string) : bool :=
  existsb (fun c => let n := PyStr.code c in
                    (n =? 0) || (n =? 26) || (128 <=? n)
                    || existsb (Z.eqb n) [34; 40; 41; 43; 44; 58; 94; 95; 123; 125])
          (list_ascii_of_string q)
  || match q with String c _ => PyStr.code c =? 42 | EmptyString => false end.

(** MATCH as FTS5 with its default tokenizer has it, for ASCII content
    and for the queries of the syntax above: the error FTS5 raises, or the
    test on the entries of the index.  A query that uses the rest of the
    syntax is not interpreted: this environment refuses it as well. *)
Definition sample_match (q : string) : Exception + (FtsDoc -> bool) :=
  if beyond_words q then inl (OperationalError "fts5: syntax error")
  else
    match parse_query true (lex q) with
    | inl msg => inl (OperationalError msg)
    | inr items => inr (fun d => eval_query d items false true true false true)
    end.

Definition nth_uuid (n : nat) : string :=
  String.append "uuid-" (NilEmpty.string_of_uint (Nat.to_uint n)).

(** A clock that advances by one second at each reading. *)
Definition nth_second (n : nat) : Time :=
  1700000000000000 + Z.of_nat n * 1000000.

(** The aggregator as the module builds it: sample fetcher, default
    configuration. *)
Definition sample_env : Env :=
  {| uuid4 := nth_uuid;
     utcnow := nth_second;
     config := default_config;
     fetcher := _simulate_fetch;
     fts_match := sample_match |}.

(** A feed server that is down before the fourth reading of the clock and
    serves the sample content afterwards. *)
Definition outage_fetcher (cfg : AggregatorConfig) (feed : Feed.t) (now : Time)
  : Exception + list RawItem :=
  if now <? nth_second 3 then inl (FetchError "connection timed out")
  else _simulate_fetch cfg feed now.

Definition outage_env : Env :=
  {| uuid4 := nth_uuid;
     utcnow := nth_second;
     config := default_config;
     fetcher := outage_fetcher;
     fts_match := sample_match |}.



(* ------------------------------------------------------------------ *)
(** ** Vocabulary of the statements *)

(** Two different byte strings with the same truncated digest. *)
Definition hash_collision (a b : list Z) : Prop :=
  a <> b /\
  PyStr.slice_to 16 (Sha256.hexdigest a) = PyStr.slice_to 16 (Sha256.hexdigest b).

(** The constraints of the schema: [id] is the primary key of [feeds] and
    of [feed_items], a [rowid] names one row, and the full-text index
    holds the indexed columns of every row. *)
Definition feeds_pk (s : Store) : Prop := NoDup (map Feed.id (feeds s)).

Definition item_id (r : ItemRow) : string := FeedItem.id (item r).
Definition item_fp (r : ItemRow) : string := FeedItem.fingerprint (item r).

Definition items_pk (s : Store) : Prop := NoDup (map item_id (feed_items s)).

Definition wf_store (s : Store) : Prop :=
  feeds_pk s /\ items_pk s
  /\ NoDup (map rowid (feed_items s))
  /\ feed_items_fts s = map doc_of (feed_items s).

(** The record [refresh] inserts for [raw], from the next identifier and
    the next two readings of the clock. *)
Definition new_item (self : Env) (feed_id : string) (raw : RawItem) (w : World)
  : FeedItem.t :=
  FeedItem.mk (uuid4 self (uuids_drawn w)) feed_id (raw_title raw) (raw_url raw)
    (match raw_summary raw with Some x => x | None => "" end)
    (match raw_author raw with Some x => x | None => "" end)
    (match raw_published_at raw with
     | Some t => t | None => utcnow self (clock_reads w) end)
    (raw_fingerprint raw) false false (utcnow self (S (clock_reads w))).

(** The feed identifiers of the [refresh] calls in a call log, and the
    number of fetcher calls. *)
Definition refreshes (l : list Event) : list string :=
  flat_map (fun ev => match ev with Refreshing fid => [fid] | Fetching _ => [] end) l.

Definition fetches (l : list Event) : list string :=
  flat_map (fun ev => match ev with Fetching fid => [fid] | Refreshing _ => [] end) l.

(** A run of [refresh] over a list of feeds, one entry for each: the
    result when the call returns, the message when it raises. *)
Inductive batch_run (self : Env)
  : list string -> World -> World -> list BatchEntry -> Prop :=
| batch_nil w : batch_run self [] w w []
| batch_done fid rest w w1 w2 r es :
    refresh self fid w = (w1, inr r) ->
    batch_run self rest w1 w2 es ->
    batch_run self (fid :: rest) w w2 (Done r :: es)
| batch_failed fid rest w w1 w2 e es :
    refresh self fid w = (w1, inl e) ->
    batch_run self rest w1 w2 es ->
    batch_run self (fid :: rest) w w2 (Failed fid (str_of e) :: es).

(** A row survives the sweep when its identifier is the least among the
    rows that carry its fingerprint. *)
Definition survivor (rows : list ItemRow) (r : ItemRow) : bool :=
  String.eqb (item_id r) (min_id (ids_with (item_fp r) rows)).

Definition carriers (fp : string) (rows : list ItemRow) : list ItemRow :=
  filter (fun r => String.eqb (item_fp r) fp) rows.

(** The world [refresh] leaves when the loop ran to its end in [w], and
    when it raised [e] in [w]. *)
Definition after_success (self : Env) (feed_id : string) (w : World) : World :=
  set_store
    (fst (update_feeds feed_id
            (Feed.set_fetched (utcnow self (clock_reads w))
                              (count_items_of feed_id (store w)))
            (store w)))
    (tick w).

Definition after_failure (feed_id : string) (e : Exception) (w : World) : World :=
  set_store (fst (update_feeds feed_id (Feed.set_error (str_of e)) (store w))) w.

(** The world in which the loop of [refresh] starts. *)
Definition after_fetch (feed_id : string) (feed : Feed.t) (w : World) : World :=
  tick (record_call (Fetching (Feed.id feed)) (record_call (Refreshing feed_id) w)).

Definition not_found (feed_id : string) : Exception :=
  ValueError (String.append "Feed " (String.append feed_id " not found")).

(** Worlds the statements are tried on. *)
Definition one_feed : list Op :=
  [OpAddFeed "General Feed" "https://example.com/general.rss" "general" 60].

Definition two_feeds : list Op :=
  [OpAddFeed "General Feed" "https://example.com/general.rss" "general" 60;
   OpAddFeed "Other Feed" "https://example.com/other.rss" "misc" 60].


(** The items table after [UPDATE feed_items SET ... WHERE id=?]. *)
Definition flag_update (iid : string) (upd : FeedItem.t -> FeedItem.t)
  (rows : list ItemRow) : list ItemRow :=
  map (fun r => if String.eqb (item_id r) iid
                then {| rowid := rowid r; item := upd (item r) |} else r) rows.

Definition has_item (iid : string) (s : Store) : bool :=
  existsb (fun r => String.eqb (item_id r) iid) (feed_items s).

(** Two items that agree on every field but [is_read], and on every field
    but [is_bookmarked]. *)
Definition same_but_is_read (a b : FeedItem.t) : Prop :=
  FeedItem.id a = FeedItem.id b /\ FeedItem.feed_id a = FeedItem.feed_id b
  /\ FeedItem.title a = FeedItem.title b /\ FeedItem.url a = FeedItem.url b
  /\ FeedItem.summary a = FeedItem.summary b
  /\ FeedItem.author a = FeedItem.author b
  /\ FeedItem.published_at a = FeedItem.published_at b
  /\ FeedItem.fingerprint a = FeedItem.fingerprint b
  /\ FeedItem.is_bookmarked a = FeedItem.is_bookmarked b
  /\ FeedItem.created_at a = FeedItem.created_at b.

Definition same_but_is_bookmarked (a b : FeedItem.t) : Prop :=
  FeedItem.id a = FeedItem.id b /\ FeedItem.feed_id a = FeedItem.feed_id b
  /\ FeedItem.title a = FeedItem.title b /\ FeedItem.url a = FeedItem.url b
  /\ FeedItem.summary a = FeedItem.summary b
  /\ FeedItem.author a = FeedItem.author b
  /\ FeedItem.published_at a = FeedItem.published_at b
  /\ FeedItem.fingerprint a = FeedItem.fingerprint b
  /\ FeedItem.is_read a = FeedItem.is_read b
  /\ FeedItem.created_at a = FeedItem.created_at b.

(** What a flag operation [m] does in world [w]: it returns whether the
    item is there, rewrites the rows with that identifier by [upd], and
    leaves the feeds, the index, the clock, the identifier source and the
    call log alone. *)
Definition flag_operation (m : M bool) (iid : string)
  (upd : FeedItem.t -> FeedItem.t) (w : World) : Prop :=
  m w = (set_store {| feeds := feeds (store w);
                      feed_items := flag_update iid upd (feed_items (store w));
                      feed_items_fts := feed_items_fts (store w) |} w,
         inr (has_item iid (store w)))
  /\ (forall r, In r (feed_items (store w)) -> item_id r <> iid ->
        In r (flag_update iid upd (feed_items (store w))))
  /\ (has_item iid (store w) = false -> m w = (w, inr false)).

(** The store after the DELETE statements of [deduplicate], one for each
    row of the GROUP BY query. *)
Definition sweep (dups : list (string * Z * string)) (s : Store) : Store :=
  fold_left (fun s dup => fst (delete_items (fst (fst dup)) (snd dup) s)) dups s.

(** The entries of a list [refresh_all] returned that name feed [fid],
    and the list it returns in world [w]. *)
Definition entries_of (fid : string) (es : list BatchEntry) : list BatchEntry :=
  filter (fun e => String.eqb (entry_feed_id e) fid) es.

Definition fleet_entries (self : Env) (w : World) : list BatchEntry :=
  match snd (refresh_all self w) with
  | inr es => es
  | inl _ => []
  end.

(** How the status of feed [fid] may move from [s] to [s'] when a caller
    issues [op] and the call returns ([ok = true]) or raises; [es] is the
    list [refresh_all] returns.  In a fleet refresh an active feed has
    one entry: it stays active when the entry is the summary of its
    refresh and goes to error when the entry is [{feed_id, error}], that
    is, when its refresh raised; a feed that is not active has no entry and
    keeps its status. *)
Definition status_step (op : Op) (fid : string) (ok : bool)
  (es : list BatchEntry) (s s' : FeedStatus) : Prop :=
  match op with
  | OpPauseFeed i => if String.eqb fid i then s' = PAUSED else s' = s
  | OpResumeFeed i => if String.eqb fid i then s' = ACTIVE else s' = s
  | OpRefresh i =>
      if String.eqb fid i then
        match s with
        | PAUSED => s' = PAUSED /\ ok = true
        | _ => if ok then s' = ACTIVE else s' = ERROR
        end
      else s' = s
  | OpRefreshAll =>
      match s with
      | ACTIVE =>
          (s' = ACTIVE
           /\ exists n d t, entries_of fid es = [Done (Refreshed fid n d t)])
          \/ (s' = ERROR /\ exists msg, entries_of fid es = [Failed fid msg])
      | _ => s' = s /\ entries_of fid es = []
      end
  | _ => s' = s
  end.

(** A database with rows that did not come through [refresh]: two rows
    carry one fingerprint. *)
Definition imported_item (iid title fp : string) (t : Time) : FeedItem.t :=
  FeedItem.mk iid "feed-1" title "https://example.com/a" "" "" t fp false false t.

Definition imported_rows : list ItemRow :=
  [ {| rowid := 1; item := imported_item "id-b" "Launch day" "00aa" 20 |};
    {| rowid := 2; item := imported_item "id-a" "Launch Day" "00aa" 30 |};
    {| rowid := 3; item := imported_item "id-c" "Weather" "00bb" 10 |} ].

Definition imported_world : World :=
  {| store := {| feeds := []; feed_items := imported_rows;
                 feed_items_fts := map doc_of imported_rows |};
     uuids_drawn := 0; clock_reads := 0; calls := [] |}.

(** A row no DELETE of the sweep removes. *)
Definition spared (dups : list (string * Z * string)) (r : ItemRow) : bool :=
  forallb (fun dup => negb (doomed (fst (fst dup)) (snd dup) r)) dups.

(** [a] is not above [b]. *)
Definition str_le (a b : string) : Prop := String.ltb b a = false.

(** The world after one feed was added and refreshed. *)
Definition refreshed_world : World :=
  run_ops sample_env (one_feed ++ [OpRefresh "uuid-0"]) empty_world.

(* ------------------------------------------------------------------ *)
(** ** The query layer, the statistics and the OPML export *)

(** [SELECT * FROM feed_items WHERE feed_id=? (AND is_read=0)
     ORDER BY published_at DESC LIMIT ?] *)
Definition get_items_rows (feed_id : string) (limit : Z) (unread_only : bool)
  (s : Store) : list FeedItem.t :=
  let rows :=
    if unread_only
    then filter (fun r => String.eqb (FeedItem.feed_id (item r)) feed_id
                          && negb (FeedItem.is_read (item r))) (feed_items s)
    else filter (fun r => String.eqb (FeedItem.feed_id (item r)) feed_id)
                (feed_items s) in
  map item (sql_limit limit (order_by_published_desc rows)).

Definition get_items (feed_id : string) (limit : Z) (unread_only : bool)
  : M (list FeedItem.t) :=
  with_connect (
    sqlite_int limit ;;
    query (get_items_rows feed_id limit unread_only)).

(** [SELECT fi.* FROM feed_items fi JOIN feeds f ON fi.feed_id = f.id
     WHERE f.category=? (AND fi.is_read=0)
     ORDER BY fi.published_at DESC LIMIT ?]: one result row for each pair
    of an item and a feed that owns it. *)
Definition joined_with_category (category : string) (s : Store) : list ItemRow :=
  flat_map (fun r =>
              map (fun _ => r)
                  (filter (fun f => String.eqb (Feed.id f) (FeedItem.feed_id (item r))
                                    && String.eqb (Feed.category f) category)
                          (feeds s)))
           (feed_items s).

Definition by_category_rows (category : string) (limit : Z) (unread_only : bool)
  (s : Store) : list FeedItem.t :=
  let rows :=
    if unread_only
    then filter (fun r => negb (FeedItem.is_read (item r)))
                (joined_with_category category s)
    else joined_with_category category s in
  map item (sql_limit limit (order_by_published_desc rows)).

Definition by_category (category : string) (limit : Z) (unread_only : bool)
  : M (list FeedItem.t) :=
  with_connect (
    sqlite_int limit ;;
    query (by_category_rows category limit unread_only)).

(** [SELECT * FROM feed_items WHERE is_bookmarked=1
     ORDER BY published_at DESC] *)
Definition get_bookmarks_rows (s : Store) : list FeedItem.t :=
  map item (order_by_published_desc
              (filter (fun r => FeedItem.is_bookmarked (item r)) (feed_items s))).

Definition get_bookmarks : M (list FeedItem.t) :=
  with_connect (query get_bookmarks_rows).

(** [FeedStatus.X.value] *)
Definition status_value (st : FeedStatus) : string :=
  match st with
  | ACTIVE => "active"
  | PAUSED => "paused"
  | ERROR => "error"
  end.

(** [ORDER BY name]: a stable insertion sort on the byte order of the
    names. *)
Fixpoint insert_by_name (f : Feed.t) (l : list Feed.t) : list Feed.t :=
  match l with
  | [] => [f]
  | x :: l' =>
      if String.leb (Feed.name f) (Feed.name x) then f :: l
      else x :: insert_by_name f l'
  end.

Definition order_by_name (l : list Feed.t) : list Feed.t :=
  fold_right insert_by_name [] l.

(** [list_feeds(status)]: [if status:] is false for [None] and for the
    empty string, and then there is no WHERE clause. *)
Definition list_feeds_rows (status : option string) (s : Store) : list Feed.t :=
  match status with
  | Some st =>
      if String.eqb st EmptyString then order_by_name (feeds s)
      else order_by_name
             (filter (fun f => String.eqb (status_value (Feed.status f)) st)
                     (feeds s))
  | None => order_by_name (feeds s)
  end.

Definition list_feeds (status : option string) : M (list Feed.t) :=
  with_connect (query (list_feeds_rows status)).

(** The dictionary [get_stats] returns. *)
Record Stats : Type := {
  total_feeds : Z;
  active_feeds : Z;
  total_items : Z;
  unread_items : Z;
  bookmarked_items : Z
}.

Definition count {A} (p : A -> bool) (l : list A) : Z :=
  Z.of_nat (List.length (filter p l)).

Definition get_stats_rows (s : Store) : Stats :=
  {| total_feeds := Z.of_nat (List.length (feeds s));
     active_feeds := count (fun f => status_eqb (Feed.status f) ACTIVE) (feeds s);
     total_items := Z.of_nat (List.length (feed_items s));
     unread_items := count (fun r => negb (FeedItem.is_read (item r))) (feed_items s);
     bookmarked_items := count (fun r => FeedItem.is_bookmarked (item r)) (feed_items s) |}.

Definition get_stats : M Stats := with_connect (query get_stats_rows).











(** Descending order of publication, and ascending byte order of names
    and of keys. *)
Definition newer_first (a b : ItemRow) : Prop :=
  FeedItem.published_at (item b) <= FeedItem.published_at (item a).

Definition name_order (a b : Feed.t) : Prop :=
  String.leb (Feed.name a) (Feed.name b) = true.


(** A character of [hexdigest()]. *)
Definition is_hex (c : ascii) : bool :=
  let n := PyStr.code c in
  ((48 <=? n) && (n <=? 57)) || ((97 <=? n) && (n <=? 102)).

Fixpoint all_hex (s : string) : bool :=
  match s with
  | EmptyString => true
  | String c r => is_hex c && all_hex r
  end.

(** What [pause_feed] and [resume_feed] do in world [w]: the rows of
    [feeds] with that identifier get the status, nothing else changes, and
    the result tells whether there was such a row. *)
Definition has_feed (fid : string) (s : Store) : bool :=
  existsb (fun f => String.eqb (Feed.id f) fid) (feeds s).

Definition status_update (fid : string) (st : FeedStatus) (s : Store) : Store :=
  {| feeds := map (fun f => if String.eqb (Feed.id f) fid
                            then Feed.set_status st f else f) (feeds s);
     feed_items := feed_items s;
     feed_items_fts := feed_items_fts s |}.

(** A database with three feeds in two categories, one of them paused. *)
Definition listed_feeds : list Feed.t :=
  [ Feed.mk "f1" "Wired" "https://example.com/w" "tech" 60 None ACTIVE None 0 1;
    Feed.mk "f2" "Ars" "https://example.com/a" "tech" 60 None PAUSED None 0 2;
    Feed.mk "f3" "Nature" "https://example.com/n" "science" 60 None ACTIVE None 0 3 ].

Definition listed_world : World :=
  {| store := {| feeds := listed_feeds; feed_items := imported_rows;
                 feed_items_fts := map doc_of imported_rows |};
     uuids_drawn := 0; clock_reads := 0; calls := [] |}.

Definition items_newer_first (l : list FeedItem.t) : Prop :=
  StronglySorted (fun a b => FeedItem.published_at b <= FeedItem.published_at a) l.

(** Rows owned by two of the listed feeds. *)
Definition listed_rows : list ItemRow :=
  [ {| rowid := 1;
       item := FeedItem.mk "i1" "f1" "Chips" "https://example.com/1" "" "" 20
                           "aa01" false false 20 |};
    {| rowid := 2;
       item := FeedItem.mk "i2" "f3" "Cells" "https://example.com/2" "" "" 30
                           "aa02" true false 30 |};
    {| rowid := 3;
       item := FeedItem.mk "i3" "f1" "Cables" "https://example.com/3" "" "" 40
                           "aa03" false true 40 |};
    {| rowid := 4;
       item := FeedItem.mk "i4" "gone" "Orphan" "https://example.com/4" "" "" 50
                           "aa04" false false 50 |} ].

Definition catalogue_world : World :=
  {| store := {| feeds := listed_feeds; feed_items := listed_rows;
                 feed_items_fts := map doc_of listed_rows |};
     uuids_drawn := 0; clock_reads := 0; calls := [] |}.

(** A row as [refresh] of feed [fid] inserts it: owned by the feed,
    unread, not bookmarked, with the fingerprint of its title and url. *)
Definition fresh_row (fid : string) (r : ItemRow) : Prop :=
  FeedItem.feed_id (item r) = fid
  /\ FeedItem.is_read (item r) = false
  /\ FeedItem.is_bookmarked (item r) = false
  /\ FeedItem.fingerprint (item r)
     = _fingerprint (FeedItem.title (item r)) (FeedItem.url (item r)).

(** The fields of a feed that only [add_feed] writes. *)
Definition same_identity (a b : Feed.t) : Prop :=
  Feed.id a = Feed.id b /\ Feed.name a = Feed.name b /\ Feed.url a = Feed.url b
  /\ Feed.category a = Feed.category b
  /\ Feed.fetch_interval_min a = Feed.fetch_interval_min b
  /\ Feed.created_at a = Feed.created_at b.

(** No two rows carry the same fingerprint. *)
Definition fingerprints_unique (s : Store) : Prop :=
  NoDup (map item_fp (feed_items s)).

(* ================================================================== *)
(** * Theorems *)

(** ** SHA-256 test vectors (FIPS 180-4) and the digest's shape *)

Example sha256_abc :
  Sha256.hexdigest (PyStr.encode "abc")
  = "ba7816bf8f01cfea414140de5dae2223b00361a396177a9cb410ff61f20015ad".
Proof. vm_compute. reflexivity. Qed.

Example sha256_empty :
  Sha256.hexdigest (PyStr.encode "")
  = "e3b0c44298fc1c149afbf4c8996fb92427ae41e4649b934ca495991b7852b855".
Proof. vm_compute. reflexivity. Qed.

Example sha256_two_blocks :
  Sha256.hexdigest (PyStr.encode
    "abcdbcdecdefdefgefghfghighijhijkijkljklmklmnlmnomnopnopq")
  = "248d6a61d20638b8e5c026930c3e6039a33ce45964ff2167f6ecedd419db06c1".
Proof. vm_compute. reflexivity. Qed.

Lemma hex32_length x rest :
  String.length (Sha256.hex32 x rest) = (8 + String.length rest)%nat.
Proof. reflexivity. Qed.

Lemma hexdigest_length msg : String.length (Sha256.hexdigest msg) = 64%nat.
Proof. unfold Sha256.hexdigest. rewrite !hex32_length. reflexivity. Qed.

Lemma substring_prefix_length n s :
  (n <= String.length s)%nat -> String.length (substring 0 n s) = n.
Proof.
  revert s. induction n as [|n IH]; intros s Hn.
  - destruct s; reflexivity.
  - destruct s as [|c r]; simpl in *; [lia|].
    rewrite IH; [reflexivity | lia].
Qed.

Lemma fingerprint_length t u : String.length (_fingerprint t u) = 16%nat.
Proof.
  unfold _fingerprint, PyStr.slice_to.
  change (0 <=? 16) with true. cbv iota. change (Z.to_nat 16) with 16%nat.
  apply substring_prefix_length. rewrite hexdigest_length. lia.
Qed.

(** ** Case and white space *)

Lemma lower_char_idem c : PyStr.lower_char (PyStr.lower_char c) = PyStr.lower_char c.
Proof. destruct c as [[] [] [] [] [] [] [] []]; reflexivity. Qed.

Lemma lower_upper_char c : PyStr.lower_char (PyStr.upper_char c) = PyStr.lower_char c.
Proof. destruct c as [[] [] [] [] [] [] [] []]; reflexivity. Qed.

Lemma is_space_lower_char c : PyStr.is_space (PyStr.lower_char c) = PyStr.is_space c.
Proof. destruct c as [[] [] [] [] [] [] [] []]; reflexivity. Qed.

Lemma lower_append s t :
  PyStr.lower (String.append s t) = String.append (PyStr.lower s) (PyStr.lower t).
Proof. induction s as [|c r IH]; simpl; [reflexivity | now rewrite IH]. Qed.

Lemma all_space_lower s : PyStr.all_space (PyStr.lower s) = PyStr.all_space s.
Proof.
  induction s as [|c r IH]; simpl; [reflexivity|].
  now rewrite is_space_lower_char, IH.
Qed.

Lemma same_letters_lower s t : PyStr.same_letters s t -> PyStr.lower s = PyStr.lower t.
Proof.
  revert t. induction s as [|a r IH]; intros [|b q]; simpl; try tauto.
  intros [Hc Hr]. rewrite Hc, (IH q Hr). reflexivity.
Qed.

Lemma same_letters_upper s : PyStr.same_letters (PyStr.upper s) s.
Proof.
  induction s as [|c r IH]; simpl; [exact I|].
  split; [apply lower_upper_char | exact IH].
Qed.

Lemma lstrip_space_prefix p s :
  PyStr.all_space p = true -> PyStr.lstrip (String.append p s) = PyStr.lstrip s.
Proof.
  induction p as [|c r IH]; simpl; intros H; [reflexivity|].
  apply andb_true_iff in H as [Hc Hr]. rewrite Hc. now apply IH.
Qed.

Lemma rstrip_all_space p : PyStr.all_space p = true -> PyStr.rstrip p = "".
Proof.
  induction p as [|c r IH]; simpl; intros H; [reflexivity|].
  apply andb_true_iff in H as [Hc Hr]. rewrite (IH Hr), Hc. reflexivity.
Qed.

Lemma rstrip_space_suffix s p :
  PyStr.all_space p = true -> PyStr.rstrip (String.append s p) = PyStr.rstrip s.
Proof.
  intros Hp. induction s as [|c r IH]; simpl.
  - now apply rstrip_all_space.
  - now rewrite IH.
Qed.

Lemma lstrip_all_space p : PyStr.all_space p = true -> PyStr.lstrip p = "".
Proof.
  induction p as [|c r IH]; simpl; intros H; [reflexivity|].
  apply andb_true_iff in H as [Hc Hr]. rewrite Hc. now apply IH.
Qed.

Lemma strip_space_suffix s p :
  PyStr.all_space p = true -> PyStr.strip (String.append s p) = PyStr.strip s.
Proof.
  intros Hp. unfold PyStr.strip. induction s as [|c r IH]; simpl.
  - now rewrite (lstrip_all_space p Hp).
  - destruct (PyStr.is_space c); [exact IH|].
    change (String c (String.append r p)) with (String.append (String c r) p).
    now apply rstrip_space_suffix.
Qed.

Lemma strip_padding p1 s p2 :
  PyStr.all_space p1 = true -> PyStr.all_space p2 = true ->
  PyStr.strip (String.append p1 (String.append s p2)) = PyStr.strip s.
Proof.
  intros H1 H2. unfold PyStr.strip. rewrite lstrip_space_prefix by exact H1.
  now apply strip_space_suffix.
Qed.

(** Letter case and surrounding white space do not survive [normalize]. *)
Lemma normalize_padding p1 s s' p2 :
  PyStr.all_space p1 = true -> PyStr.all_space p2 = true ->
  PyStr.same_letters s' s ->
  normalize (String.append p1 (String.append s' p2)) = normalize s.
Proof.
  intros H1 H2 Hs. unfold normalize. rewrite !lower_append.
  rewrite strip_padding by (now rewrite all_space_lower).
  now rewrite (same_letters_lower _ _ Hs).
Qed.

(** ASCII text stays ASCII under [lower], [upper] and [strip], so the
    Python functions are the ones applied at every step. *)
Lemma isascii_append s t :
  PyStr.isascii (String.append s t) = PyStr.isascii s && PyStr.isascii t.
Proof.
  induction s as [|c r IH]; cbn [String.append PyStr.isascii]; [reflexivity|].
  now rewrite IH, andb_assoc.
Qed.

Lemma isascii_lower_char c :
  (PyStr.code (PyStr.lower_char c) <? 128) = (PyStr.code c <? 128).
Proof. destruct c as [[] [] [] [] [] [] [] []]; reflexivity. Qed.

Lemma isascii_lower s : PyStr.isascii (PyStr.lower s) = PyStr.isascii s.
Proof.
  induction s as [|c r IH]; cbn [PyStr.lower PyStr.isascii]; [reflexivity|].
  now rewrite isascii_lower_char, IH.
Qed.

Lemma isascii_upper_char c :
  (PyStr.code (PyStr.upper_char c) <? 128) = (PyStr.code c <? 128).
Proof. destruct c as [[] [] [] [] [] [] [] []]; reflexivity. Qed.

Lemma isascii_upper s : PyStr.isascii (PyStr.upper s) = PyStr.isascii s.
Proof.
  induction s as [|c r IH]; cbn [PyStr.upper PyStr.isascii]; [reflexivity|].
  now rewrite isascii_upper_char, IH.
Qed.

Lemma isascii_lstrip s : PyStr.isascii s = true -> PyStr.isascii (PyStr.lstrip s) = true.
Proof.
  induction s as [|c r IH]; cbn [PyStr.lstrip]; [auto|].
  intros H. destruct (PyStr.is_space c); [|exact H].
  cbn [PyStr.isascii] in H. apply andb_true_iff in H as [_ H]. auto.
Qed.

Lemma isascii_rstrip s : PyStr.isascii s = true -> PyStr.isascii (PyStr.rstrip s) = true.
Proof.
  induction s as [|c r IH]; cbn [PyStr.rstrip]; [auto|].
  intros H. cbn [PyStr.isascii] in H. apply andb_true_iff in H as [Hc Hr].
  specialize (IH Hr). destruct (PyStr.rstrip r) as [|c' r'].
  - destruct (PyStr.is_space c); cbn [PyStr.isascii]; [reflexivity|].
    now rewrite Hc.
  - cbn [PyStr.isascii] in *. now rewrite Hc, IH.
Qed.

Lemma isascii_normalize s : PyStr.isascii s = true -> PyStr.isascii (normalize s) = true.
Proof.
  intros H. unfold normalize, PyStr.strip.
  apply isascii_rstrip, isascii_lstrip. now rewrite isascii_lower.
Qed.

Lemma all_space_isascii p : PyStr.all_space p = true -> PyStr.isascii p = true.
Proof.
  induction p as [|c r IH]; cbn [PyStr.all_space PyStr.isascii]; [auto|].
  intros H. apply andb_true_iff in H as [Hc Hr]. rewrite (IH Hr), andb_true_r.
  revert Hc. destruct c as [[] [] [] [] [] [] [] []]; cbn; congruence.
Qed.

Lemma same_letters_isascii s : forall t,
  PyStr.same_letters s t -> PyStr.isascii t = true -> PyStr.isascii s = true.
Proof.
  induction s as [|a r IH]; intros [|b q]; cbn [PyStr.same_letters PyStr.isascii];
    try tauto.
  intros [Hc Hr] H. apply andb_true_iff in H as [Hb Hq].
  rewrite (IH q Hr Hq), andb_true_r.
  rewrite <- isascii_lower_char, Hc, isascii_lower_char. exact Hb.
Qed.

(** Different texts are different byte strings. *)
Lemma encode_injective a b : PyStr.encode a = PyStr.encode b -> a = b.
Proof.
  unfold PyStr.encode. intros H.
  rewrite <- (string_of_list_ascii_of_string a), <- (string_of_list_ascii_of_string b).
  f_equal. revert H. generalize (list_ascii_of_string b).
  induction (list_ascii_of_string a) as [|x l IH]; intros [|y m]; cbn [map];
    try discriminate; [reflexivity|].
  intros H. injection H as Hc Hr. f_equal; [|now apply IH].
  unfold PyStr.code in Hc. apply N2Z.inj in Hc.
  rewrite <- (ascii_N_embedding x), <- (ascii_N_embedding y). now rewrite Hc.
Qed.

(** C4, as the code has it, for ASCII text.  The fingerprint is the
    first 16 hexadecimal characters of the SHA-256 digest of the bytes of
    the lower-cased, trimmed title followed without separator by the
    lower-cased, trimmed url, a text that is ASCII as well; it is 16
    characters long; a title and a url that differ from [t] and [u] in
    letter case and surrounding white space only are ASCII and have the
    same fingerprint; two pairs with the same concatenated normalized
    text have the same fingerprint; and when the concatenated normalized
    texts differ, the bytes that are hashed differ, so that the
    fingerprints differ unless the truncated digests of two different byte
    strings collide. *)
Theorem fingerprint_normalized_text :
  forall t u t' u' p1 p2 p3 p4 : string,
    PyStr.isascii t = true -> PyStr.isascii u = true ->
    PyStr.all_space p1 = true -> PyStr.all_space p2 = true ->
    PyStr.all_space p3 = true -> PyStr.all_space p4 = true ->
    PyStr.same_letters t' t -> PyStr.same_letters u' u ->
    _fingerprint t u
    = substring 0 16 (Sha256.hexdigest (PyStr.encode
        (String.append (PyStr.strip (PyStr.lower t))
                       (PyStr.strip (PyStr.lower u)))))
    /\ PyStr.isascii (fingerprint_text t u) = true
    /\ String.length (_fingerprint t u) = 16%nat
    /\ PyStr.isascii (String.append p1 (String.append t' p2)) = true
    /\ PyStr.isascii (String.append p3 (String.append u' p4)) = true
    /\ _fingerprint (String.append p1 (String.append t' p2))
                    (String.append p3 (String.append u' p4))
       = _fingerprint t u
    /\ _fingerprint (PyStr.upper t) (PyStr.upper u) = _fingerprint t u
    /\ (forall a b : string,
          PyStr.isascii a = true -> PyStr.isascii b = true ->
          fingerprint_text a b = fingerprint_text t u ->
          _fingerprint a b = _fingerprint t u)
    /\ (forall a b : string,
          PyStr.isascii a = true -> PyStr.isascii b = true ->
          fingerprint_text a b <> fingerprint_text t u ->
          PyStr.encode (fingerprint_text a b) <> PyStr.encode (fingerprint_text t u)
          /\ (_fingerprint a b <> _fingerprint t u
              \/ hash_collision (PyStr.encode (fingerprint_text a b))
                                (PyStr.encode (fingerprint_text t u)))).
Proof.
  intros t u t' u' p1 p2 p3 p4 At Au H1 H2 H3 H4 Ht Hu.
  split; [reflexivity|].
  split.
  { unfold fingerprint_text. rewrite isascii_append.
    now rewrite (isascii_normalize t At), (isascii_normalize u Au). }
  split; [apply fingerprint_length|].
  split.
  { rewrite !isascii_append, (all_space_isascii p1 H1), (all_space_isascii p2 H2).
    now rewrite (same_letters_isascii t' t Ht At). }
  split.
  { rewrite !isascii_append, (all_space_isascii p3 H3), (all_space_isascii p4 H4).
    now rewrite (same_letters_isascii u' u Hu Au). }
  split.
  { unfold _fingerprint, fingerprint_text.
    now rewrite (normalize_padding p1 t t' p2), (normalize_padding p3 u u' p4). }
  split.
  { unfold _fingerprint, fingerprint_text, normalize.
    now rewrite (same_letters_lower _ _ (same_letters_upper t)),
                (same_letters_lower _ _ (same_letters_upper u)). }
  split.
  { intros a b _ _ Hab. unfold _fingerprint. now rewrite Hab. }
  intros a b _ _ Hab.
  assert (Hbytes : PyStr.encode (fingerprint_text a b)
                   <> PyStr.encode (fingerprint_text t u)).
  { intros E. apply Hab. now apply encode_injective. }
  split; [exact Hbytes|].
  destruct (string_dec (_fingerprint a b) (_fingerprint t u)) as [E|E].
  - right. split; [exact Hbytes | exact E].
  - left. exact E.
Qed.

Lemma fingerprint_normalized_text_witness :
  PyStr.isascii "Open Source Wins Big" = true
  /\ PyStr.isascii "https://example.com/oss" = true
  /\ _fingerprint "  OPEN Source wins BIG " "HTTPS://Example.COM/oss
"
     = _fingerprint "Open Source Wins Big" "https://example.com/oss".
Proof.
  split; [reflexivity|]. split; [reflexivity|].
  apply (fingerprint_normalized_text
           "Open Source Wins Big" "https://example.com/oss"
           "OPEN Source wins BIG" "HTTPS://Example.COM/oss"
           "  " " " "" "
");
    try reflexivity; simpl; repeat split; reflexivity.
Defined.

(** C4 as first stated fails, on ASCII text already: moving a letter
    across the boundary between title and url changes both normalized
    parts and not the hashed text. *)
Lemma fingerprint_boundary_counterexample :
  ~ (forall t u t' u' : string,
       PyStr.isascii t = true -> PyStr.isascii u = true ->
       PyStr.isascii t' = true -> PyStr.isascii u' = true ->
       normalize t <> normalize t' \/ normalize u <> normalize u' ->
       _fingerprint t u <> _fingerprint t' u'
       \/ hash_collision (PyStr.encode (fingerprint_text t u))
                         (PyStr.encode (fingerprint_text t' u'))).
Proof.
  intros H.
  destruct (H "ab" "c" "a" "bc" eq_refl eq_refl eq_refl eq_refl) as [Hd | [Hd _]].
  - left. discriminate.
  - apply Hd. reflexivity.
  - apply Hd. reflexivity.
Qed.

(** ** The refresh loop *)

Arguments _fingerprint : simpl never.
Arguments raw_fingerprint : simpl never.

Ltac munfold :=
  unfold bind, ret, raise, try_except, with_connect, query, execute,
         execute_or_raise, log, _now, new_uuid in *.

Section RefreshLoop.

Variable self : Env.

(** A raw item whose fingerprint is in the store leaves the world as it
    is. *)
Lemma refresh_item_dup fid raw w :
  fingerprint_exists (raw_fingerprint raw) (store w) = true ->
  refresh_item self fid raw w = (w, inr false).
Proof.
  intros H. unfold refresh_item, raw_fingerprint in *. munfold.
  rewrite H. reflexivity.
Qed.

(** Otherwise [insert_item] decides. *)
Lemma refresh_item_new fid raw w :
  fingerprint_exists (raw_fingerprint raw) (store w) = false ->
  refresh_item self fid raw w =
  match insert_item (new_item self fid raw w) (store w) with
  | inr s' => (set_store s' (tick (tick (draw w))), inr true)
  | inl e => (tick (tick (draw w)), inl e)
  end.
Proof.
  intros H. unfold refresh_item, raw_fingerprint in *. munfold.
  rewrite H. cbn [store uuids_drawn clock_reads calls tick draw].
  fold (raw_fingerprint raw).
  change (FeedItem.mk _ _ _ _ _ _ _ _ _ _ _) with (new_item self fid raw w).
  destruct (insert_item (new_item self fid raw w) (store w)); reflexivity.
Qed.

Lemma insert_item_inr it s s' :
  insert_item it s = inr s' ->
  feeds s' = feeds s
  /\ feed_items s' = feed_items s ++ [{| rowid := next_rowid (feed_items s); item := it |}]
  /\ feed_items_fts s' = feed_items_fts s
       ++ [doc_of {| rowid := next_rowid (feed_items s); item := it |}]
  /\ existsb (fun r => String.eqb (item_id r) (FeedItem.id it)) (feed_items s) = false.
Proof.
  unfold insert_item, item_id.
  destruct (existsb _ (feed_items s)) eqn:E; [discriminate|].
  intros H. injection H as <-. cbn. auto.
Qed.

Lemma insert_item_inl it s e :
  insert_item it s = inl e ->
  e = IntegrityError "UNIQUE constraint failed: feed_items.id"
  /\ existsb (fun r => String.eqb (item_id r) (FeedItem.id it)) (feed_items s) = true.
Proof.
  unfold insert_item, item_id.
  destruct (existsb _ (feed_items s)) eqn:E; [|discriminate].
  intros H. injection H as <-. auto.
Qed.

(** Everything one pass through the loop body can do. *)
Lemma refresh_item_effect fid raw w w' out :
  refresh_item self fid raw w = (w', out) ->
  feeds (store w') = feeds (store w) /\ calls w' = calls w /\
  match out with
  | inr false =>
      w' = w /\ fingerprint_exists (raw_fingerprint raw) (store w) = true
  | inr true =>
      fingerprint_exists (raw_fingerprint raw) (store w) = false
      /\ insert_item (new_item self fid raw w) (store w) = inr (store w')
  | inl e =>
      fingerprint_exists (raw_fingerprint raw) (store w) = false
      /\ insert_item (new_item self fid raw w) (store w) = inl e
      /\ store w' = store w
  end.
Proof.
  destruct (fingerprint_exists (raw_fingerprint raw) (store w)) eqn:E.
  - rewrite (refresh_item_dup fid raw w E). intros H. injection H as <- <-. auto.
  - rewrite (refresh_item_new fid raw w E).
    destruct (insert_item (new_item self fid raw w) (store w)) as [e|s'] eqn:I;
      intros H; injection H as <- <-; cbn [store calls].
    + auto.
    + apply insert_item_inr in I as I'. destruct I' as (Hf & _). auto.
Qed.

Lemma fingerprint_exists_app fp s s' added :
  feed_items s' = feed_items s ++ added ->
  fingerprint_exists fp s = true -> fingerprint_exists fp s' = true.
Proof.
  unfold fingerprint_exists. intros -> H. rewrite existsb_app, H. reflexivity.
Qed.

(** A loop that runs to its end: the feeds and the call log are as
    before, the new rows are appended and owned by the feed, the counters
    account for every raw item, and every fingerprint met is now in the
    store. *)
Lemma refresh_loop_returns fid raws : forall n d w w' n' d',
  refresh_loop self fid raws n d w = (w', inr (n', d')) ->
  feeds (store w') = feeds (store w) /\ calls w' = calls w /\
  exists added,
    feed_items (store w') = feed_items (store w) ++ added
    /\ n' = n + Z.of_nat (List.length added)
    /\ n' + d' = n + d + Z.of_nat (List.length raws)
    /\ Forall (fun r => FeedItem.feed_id (item r) = fid) added
    /\ Forall (fun raw => fingerprint_exists (raw_fingerprint raw) (store w') = true) raws.
Proof.
  induction raws as [|raw rest IH]; intros n d w w' n' d' H.
  - cbn in H. injection H as <- <- <-. repeat split; auto.
    exists []. rewrite app_nil_r. cbn. repeat split; auto; lia.
  - cbn [refresh_loop] in H. unfold bind at 1 in H.
    destruct (refresh_item self fid raw w) as [w1 [e|b]] eqn:R; [discriminate|].
    apply refresh_item_effect in R as (Hf & Hc & Hb).
    destruct b.
    + destruct Hb as (Hfresh & Hins).
      apply IH in H as (Hf' & Hc' & added & Hi & Hn & Hd & Ho & He).
      apply insert_item_inr in Hins as (_ & Hrows & _ & _).
      repeat split; try congruence.
      exists ({| rowid := next_rowid (feed_items (store w));
                 item := new_item self fid raw w |} :: added).
      rewrite Hi, Hrows, <- app_assoc. cbn [app List.length].
      repeat split; auto; try lia.
      constructor; auto.
      eapply fingerprint_exists_app; [exact Hi|].
      unfold fingerprint_exists. rewrite Hrows, existsb_app. cbn.
      rewrite String.eqb_refl. now rewrite orb_true_r.
    + destruct Hb as (-> & Hex).
      apply IH in H as (Hf' & Hc' & added & Hi & Hn & Hd & Ho & He).
      repeat split; auto.
      exists added. cbn [List.length]. repeat split; auto; try lia.
      constructor; auto.
      eapply fingerprint_exists_app; eauto.
Qed.


(** When every fingerprint is already stored the loop only counts. *)
Lemma refresh_loop_all_known fid raws : forall n d w,
  Forall (fun raw => fingerprint_exists (raw_fingerprint raw) (store w) = true) raws ->
  refresh_loop self fid raws n d w = (w, inr (n, d + Z.of_nat (List.length raws))).
Proof.
  induction raws as [|raw rest IH]; intros n d w H.
  - cbn. unfold ret. repeat f_equal. lia.
  - inversion H as [|? ? Hraw Hrest]; subst.
    cbn [refresh_loop]. unfold bind at 1.
    rewrite (refresh_item_dup fid raw w Hraw), (IH n (d + 1) w Hrest).
    do 3 f_equal. cbn [List.length]. lia.
Qed.

End RefreshLoop.

(** ** Single-feed refresh *)

Section Refresh.

Variable self : Env.

(** [refresh], one case for each way through the method. *)
Lemma refresh_eq fid w :
  refresh self fid w =
  match select_feed_by_id fid (store w) with
  | None => (record_call (Refreshing fid) w, inl (not_found fid))
  | Some feed =>
      if status_eqb (Feed.status feed) PAUSED
      then (record_call (Refreshing fid) w, inr (Skipped fid "paused"))
      else
        match fetcher self (config self) feed (utcnow self (clock_reads w)) with
        | inl e => (after_failure fid e (after_fetch fid feed w), inl e)
        | inr raws =>
            match refresh_loop self fid raws 0 0 (after_fetch fid feed w) with
            | (w2, inr counts) =>
                (after_success self fid w2,
                 inr (Refreshed fid (fst counts) (snd counts)
                                (count_items_of fid (store w2))))
            | (w2, inl e) => (after_failure fid e w2, inl e)
            end
        end
  end.
Proof.
  unfold refresh, get_feed, fetch, mark_fetched, mark_error.
  unfold bind at 1. unfold log at 1. unfold bind at 1.
  unfold with_connect at 1, query at 1.
  change (store (record_call (Refreshing fid) w)) with (store w).
  destruct (select_feed_by_id fid (store w)) as [feed|]; [|reflexivity].
  destruct (status_eqb (Feed.status feed) PAUSED); [reflexivity|].
  unfold try_except, after_fetch.
  unfold bind at 1. unfold bind at 1. unfold log at 1.
  unfold bind at 1. unfold _now at 1.
  change (clock_reads (record_call _ (record_call _ w))) with (clock_reads w).
  destruct (fetcher self (config self) feed (utcnow self (clock_reads w)))
    as [e|raws]; [reflexivity|].
  unfold ret at 1. unfold bind at 1.
  destruct (refresh_loop self fid raws 0 0 _) as [w2 [e|counts]]; reflexivity.
Qed.

Lemma select_after_update fid' fid upd s :
  (forall f, Feed.id (upd f) = Feed.id f) ->
  select_feed_by_id fid' (fst (update_feeds fid upd s))
  = option_map (fun f => if String.eqb (Feed.id f) fid then upd f else f)
               (select_feed_by_id fid' s).
Proof.
  intros Hid. unfold select_feed_by_id, update_feeds. cbn [fst feeds].
  induction (feeds s) as [|g l IH]; [reflexivity|].
  cbn [map find].
  destruct (String.eqb (Feed.id g) fid) eqn:Eg.
  - rewrite Hid. destruct (String.eqb (Feed.id g) fid'); [|exact IH].
    cbn. now rewrite Eg.
  - destruct (String.eqb (Feed.id g) fid'); [|exact IH].
    cbn. now rewrite Eg.
Qed.

Lemma select_feed_id fid s f :
  select_feed_by_id fid s = Some f -> Feed.id f = fid.
Proof.
  unfold select_feed_by_id. intros H. apply find_some in H as [_ H].
  now apply String.eqb_eq.
Qed.

Lemma select_same_feeds fid s s' :
  feeds s' = feeds s -> select_feed_by_id fid s' = select_feed_by_id fid s.
Proof. unfold select_feed_by_id. now intros ->. Qed.

Lemma count_same_items fid s s' :
  feed_items s' = feed_items s -> count_items_of fid s' = count_items_of fid s.
Proof. unfold count_items_of. now intros ->. Qed.

Lemma status_eqb_eq a b : status_eqb a b = true <-> a = b.
Proof. destruct a, b; cbn; split; congruence. Qed.

End Refresh.

(** A refresh whose fetch and loop succeed returns the summary. *)
Lemma refresh_returns_summary self fid w f raws w2 n d :
  select_feed_by_id fid (store w) = Some f ->
  Feed.status f <> PAUSED ->
  fetcher self (config self) f (utcnow self (clock_reads w)) = inr raws ->
  refresh_loop self fid raws 0 0 (after_fetch fid f w) = (w2, inr (n, d)) ->
  refresh self fid w
  = (after_success self fid w2,
     inr (Refreshed fid n d (count_items_of fid (store w2)))).
Proof.
  intros Sel St Fe L. rewrite refresh_eq, Sel, Fe, L.
  destruct (status_eqb (Feed.status f) PAUSED) eqn:E; [|reflexivity].
  apply status_eqb_eq in E. contradiction.
Qed.

(** C1, as the code has it.  When [refresh] returns a summary, the feed
    existed and was not paused and the fetcher returned; the summary names
    the feed, [new_items] is the number of rows inserted, [duplicates] the
    number of raw items skipped, [total_items] the number of rows the feed
    owns afterwards; and the feed's row has that number as [item_count],
    status active, [last_fetched] the last reading of the clock, its other
    fields, [error_message] among them, as before. *)
Theorem refresh_post_processing :
  forall self fid w w' fid' n d t,
    refresh self fid w = (w', inr (Refreshed fid' n d t)) ->
    exists f raws,
      select_feed_by_id fid (store w) = Some f
      /\ Feed.status f <> PAUSED
      /\ fetcher self (config self) f (utcnow self (clock_reads w)) = inr raws
      /\ fid' = fid
      /\ n = Z.of_nat (List.length (feed_items (store w')))
             - Z.of_nat (List.length (feed_items (store w)))
      /\ d = Z.of_nat (List.length raws) - n
      /\ t = count_items_of fid (store w')
      /\ select_feed_by_id fid (store w')
         = Some (Feed.set_fetched (utcnow self (Nat.pred (clock_reads w'))) t f)
      /\ Feed.item_count (Feed.set_fetched (utcnow self (Nat.pred (clock_reads w'))) t f) = t
      /\ Feed.status (Feed.set_fetched (utcnow self (Nat.pred (clock_reads w'))) t f) = ACTIVE
      /\ Feed.last_fetched (Feed.set_fetched (utcnow self (Nat.pred (clock_reads w'))) t f)
         = Some (utcnow self (Nat.pred (clock_reads w')))
      /\ Feed.error_message (Feed.set_fetched (utcnow self (Nat.pred (clock_reads w'))) t f)
         = Feed.error_message f.
Proof.
  intros self fid w w' fid' n d t H. rewrite refresh_eq in H.
  destruct (select_feed_by_id fid (store w)) as [f|] eqn:Sel; [|discriminate].
  destruct (status_eqb (Feed.status f) PAUSED) eqn:St; [discriminate|].
  destruct (fetcher self (config self) f (utcnow self (clock_reads w)))
    as [e|raws] eqn:Fe; [discriminate|].
  destruct (refresh_loop self fid raws 0 0 (after_fetch fid f w))
    as [w2 [e|[n2 d2]]] eqn:L; [discriminate|].
  injection H as <- <- <- <- <-.
  apply refresh_loop_returns in L as (Hf & _ & added & Hi & Hn & Hd & _ & _).
  cbn [fst snd] in *.
  change (store (after_fetch fid f w)) with (store w) in *.
  exists f, raws.
  assert (Hcount : count_items_of fid (store (after_success self fid w2))
                   = count_items_of fid (store w2)) by reflexivity.
  repeat split; auto.
  - intros E. rewrite E in St. discriminate.
  - change (feed_items (store (after_success self fid w2)))
      with (feed_items (store w2)).
    rewrite Hi, length_app. lia.
  - lia.
  - change (store (after_success self fid w2))
      with (fst (update_feeds fid
              (Feed.set_fetched (utcnow self (clock_reads w2))
                                (count_items_of fid (store w2))) (store w2))).
    rewrite select_after_update by reflexivity.
    rewrite (select_same_feeds fid (store w) (store w2) Hf), Sel.
    cbn [option_map]. rewrite (select_feed_id _ _ _ Sel), String.eqb_refl.
    reflexivity.
Qed.

Lemma refresh_post_processing_witness :
  refresh sample_env "uuid-0" (run_ops sample_env one_feed empty_world)
  = (fst (refresh sample_env "uuid-0" (run_ops sample_env one_feed empty_world)),
     inr (Refreshed "uuid-0" 2 0 2))
  /\ exists f,
       select_feed_by_id "uuid-0"
         (store (fst (refresh sample_env "uuid-0"
                        (run_ops sample_env one_feed empty_world)))) = Some f
       /\ Feed.item_count f = 2 /\ Feed.status f = ACTIVE.
Proof.
  assert (H : refresh sample_env "uuid-0" (run_ops sample_env one_feed empty_world)
              = (fst (refresh sample_env "uuid-0"
                        (run_ops sample_env one_feed empty_world)),
                 inr (Refreshed "uuid-0" 2 0 2)))
    by (vm_compute; reflexivity).
  split; [exact H|].
  destruct (refresh_post_processing _ _ _ _ _ _ _ _ H)
    as (f & raws & _ & _ & _ & _ & _ & _ & _ & Hsel & Hc & Hs & _).
  eexists. split; [exact Hsel|]. split; [exact Hc | exact Hs].
Defined.

(** C1 as first stated fails: a feed that was in error keeps its error
    message through a refresh that succeeds. *)
Lemma refresh_keeps_error_message_counterexample :
  exists w' f' n d t,
    refresh outage_env "uuid-0"
      (run_ops outage_env (one_feed ++ [OpRefresh "uuid-0"; OpRefresh "uuid-0"])
               empty_world)
    = (w', inr (Refreshed "uuid-0" n d t))
    /\ select_feed_by_id "uuid-0" (store w') = Some f'
    /\ Feed.status f' = ACTIVE
    /\ Feed.error_message f' = Some "connection timed out"
    /\ Feed.error_message f' <> None.
Proof.
  do 5 eexists. split; [vm_compute; reflexivity|].
  split; [vm_compute; reflexivity|].
  repeat split. discriminate.
Qed.

(** C9.  Refreshing a paused feed returns the skip result; the tables,
    the clock and the identifier source are as before, the feed's row is
    the same row, and the fetcher was not called. *)
Theorem refresh_paused_is_skipped :
  forall self fid w f,
    select_feed_by_id fid (store w) = Some f ->
    Feed.status f = PAUSED ->
    exists w',
      refresh self fid w = (w', inr (Skipped fid "paused"))
      /\ store w' = store w
      /\ clock_reads w' = clock_reads w
      /\ uuids_drawn w' = uuids_drawn w
      /\ fetches (calls w') = fetches (calls w)
      /\ select_feed_by_id fid (store w') = Some f.
Proof.
  intros self fid w f Sel St. rewrite refresh_eq, Sel, St. cbn [status_eqb].
  eexists. split; [reflexivity|]. cbn [record_call store clock_reads uuids_drawn calls].
  repeat split; auto.
  unfold fetches. rewrite flat_map_app. cbn. now rewrite app_nil_r.
Qed.

Lemma refresh_paused_is_skipped_witness :
  exists w',
    refresh sample_env "uuid-0"
      (run_ops sample_env (one_feed ++ [OpPauseFeed "uuid-0"]) empty_world)
    = (w', inr (Skipped "uuid-0" "paused"))
    /\ store w' = store (run_ops sample_env (one_feed ++ [OpPauseFeed "uuid-0"])
                                 empty_world).
Proof.
  destruct (refresh_paused_is_skipped sample_env "uuid-0"
              (run_ops sample_env (one_feed ++ [OpPauseFeed "uuid-0"]) empty_world)
              (Feed.mk "uuid-0" "General Feed" "https://example.com/general.rss"
                       "general" 60 None PAUSED None 0 (nth_second 0)))
    as (w' & H & Hs & _).
  - vm_compute. reflexivity.
  - reflexivity.
  - exists w'. split; [exact H | exact Hs].
Defined.




(** ** Refreshing twice *)

Lemma fingerprint_exists_in fp s r :
  In r (feed_items s) -> FeedItem.fingerprint (item r) = fp ->
  fingerprint_exists fp s = true.
Proof.
  intros Hin Hfp. unfold fingerprint_exists. apply existsb_exists.
  exists r. split; [exact Hin|]. now apply String.eqb_eq.
Qed.

Lemma all_known_by_fingerprints s raws raws' :
  map raw_fingerprint raws' = map raw_fingerprint raws ->
  Forall (fun raw => fingerprint_exists (raw_fingerprint raw) s = true) raws ->
  Forall (fun raw => fingerprint_exists (raw_fingerprint raw) s = true) raws'.
Proof.
  intros E H.
  apply (proj1 (Forall_map raw_fingerprint
                  (fun fp => fingerprint_exists fp s = true) raws')).
  rewrite E. apply Forall_map. exact H.
Qed.

(** The sample fetcher returns the same titles and urls whenever it is
    asked for the same category. *)
Lemma simulate_fetch_same_content cfg f f' now now' raws raws' :
  Feed.category f' = Feed.category f ->
  _simulate_fetch cfg f now = inr raws ->
  _simulate_fetch cfg f' now' = inr raws' ->
  map raw_fingerprint raws' = map raw_fingerprint raws.
Proof.
  unfold _simulate_fetch. intros -> H H'.
  injection H as <-. injection H' as <-. rewrite !map_map.
  apply map_ext. intros [i [[[title author] url] summary]]. reflexivity.
Qed.

(** C3, as the code has it.  When the fetcher returns content with the
    same fingerprints on two consecutive refreshes of a feed and the first
    refresh returns a summary, the second returns one too, with
    [new_items = 0] and [duplicates] the number of raw items, which is the
    sum of [new_items] and [duplicates] of the first; it inserts nothing.
    And a raw item whose fingerprint some row carries, whichever feed owns
    that row, is counted as a duplicate and leaves the world as it is. *)
Theorem second_refresh_counts_duplicates :
  forall self fid w w1 f1 f2 raws1 raws2 n1 d1 t1,
    select_feed_by_id fid (store w) = Some f1 ->
    fetcher self (config self) f1 (utcnow self (clock_reads w)) = inr raws1 ->
    refresh self fid w = (w1, inr (Refreshed fid n1 d1 t1)) ->
    select_feed_by_id fid (store w1) = Some f2 ->
    fetcher self (config self) f2 (utcnow self (clock_reads w1)) = inr raws2 ->
    map raw_fingerprint raws2 = map raw_fingerprint raws1 ->
    (exists w2,
       refresh self fid w1 = (w2, inr (Refreshed fid 0 (n1 + d1) t1))
       /\ feed_items (store w2) = feed_items (store w1))
    /\ n1 + d1 = Z.of_nat (List.length raws1)
    /\ (forall other raw rest n d w0 r,
          In r (feed_items (store w0)) ->
          FeedItem.fingerprint (item r) = raw_fingerprint raw ->
          refresh_item self other raw w0 = (w0, inr false)
          /\ refresh_loop self other (raw :: rest) n d w0
             = refresh_loop self other rest n (d + 1) w0).
Proof.
  intros self fid w w1 f1 f2 raws1 raws2 n1 d1 t1 Sel1 Fe1 R1 Sel2 Fe2 Same.
  rewrite refresh_eq, Sel1 in R1.
  destruct (status_eqb (Feed.status f1) PAUSED) eqn:St1; [discriminate|].
  rewrite Fe1 in R1.
  destruct (refresh_loop self fid raws1 0 0 (after_fetch fid f1 w))
    as [w' [e|[n d]]] eqn:L; [discriminate|].
  injection R1 as <- <- <- <-.
  apply refresh_loop_returns in L as (Hf & _ & added & Hi & Hn & Hd & _ & Hall).
  cbn [fst snd] in *.
  assert (Hf2 : f2 = Feed.set_fetched (utcnow self (clock_reads w'))
                       (count_items_of fid (store w')) f1).
  { unfold after_success in Sel2. cbn [store set_store] in Sel2.
    rewrite select_after_update in Sel2 by reflexivity.
    change (store (after_fetch fid f1 w)) with (store w) in Hf.
    rewrite (select_same_feeds fid (store w) (store w') Hf), Sel1 in Sel2.
    cbn [option_map] in Sel2.
    rewrite (select_feed_id _ _ _ Sel1), String.eqb_refl in Sel2. congruence. }
  split; [|split; [lia|]].
  - rewrite refresh_eq, Sel2.
    replace (status_eqb (Feed.status f2) PAUSED) with false by (now subst f2).
    rewrite Fe2.
    rewrite refresh_loop_all_known.
    + exists (after_success self fid
                (after_fetch fid f2 (after_success self fid w'))).
      split; [|reflexivity].
      cbn [fst snd].
      apply (f_equal (@List.length _)) in Same. rewrite !length_map in Same.
      replace (0 + Z.of_nat (List.length raws2)) with (n + d) by lia.
      reflexivity.
    + eapply all_known_by_fingerprints; [exact Same|]. exact Hall.
  - intros other raw rest n0 d0 w0 r Hin Hfp.
    assert (Hex : fingerprint_exists (raw_fingerprint raw) (store w0) = true)
      by (eapply fingerprint_exists_in; eauto).
    split; [now apply refresh_item_dup|].
    cbn [refresh_loop]. unfold bind at 1.
    now rewrite (refresh_item_dup self other raw w0 Hex).
Qed.

Lemma second_refresh_counts_duplicates_witness :
  exists w1 w2,
    refresh sample_env "uuid-0" (run_ops sample_env one_feed empty_world)
    = (w1, inr (Refreshed "uuid-0" 2 0 2))
    /\ refresh sample_env "uuid-0" w1 = (w2, inr (Refreshed "uuid-0" 0 (2 + 0) 2)).
Proof.
  assert (H : refresh sample_env "uuid-0" (run_ops sample_env one_feed empty_world)
              = (fst (refresh sample_env "uuid-0"
                        (run_ops sample_env one_feed empty_world)),
                 inr (Refreshed "uuid-0" 2 0 2)))
    by (vm_compute; reflexivity).
  edestruct (second_refresh_counts_duplicates sample_env "uuid-0"
               (run_ops sample_env one_feed empty_world))
    as ((w2 & H2 & _) & _).
  - vm_compute. reflexivity.
  - vm_compute. reflexivity.
  - exact H.
  - vm_compute. reflexivity.
  - vm_compute. reflexivity.
  - vm_compute. reflexivity.
  - eexists. exists w2. split; [exact H | exact H2].
Defined.

(** C3 as first stated fails: when another feed has already stored the
    same content, the first refresh of a feed inserts nothing, and the
    duplicates of the second are not the new items of the first. *)
Lemma second_refresh_counterexample :
  exists w1 w2 f1 f2 raws1 raws2 n1 d1 t1 n2 d2 t2,
    let w := run_ops sample_env (two_feeds ++ [OpRefresh "uuid-0"]) empty_world in
    select_feed_by_id "uuid-1" (store w) = Some f1
    /\ fetcher sample_env (config sample_env) f1 (utcnow sample_env (clock_reads w))
       = inr raws1
    /\ refresh sample_env "uuid-1" w = (w1, inr (Refreshed "uuid-1" n1 d1 t1))
    /\ select_feed_by_id "uuid-1" (store w1) = Some f2
    /\ fetcher sample_env (config sample_env) f2 (utcnow sample_env (clock_reads w1))
       = inr raws2
    /\ map raw_fingerprint raws2 = map raw_fingerprint raws1
    /\ List.length raws1 = 2%nat
    /\ refresh sample_env "uuid-1" w1 = (w2, inr (Refreshed "uuid-1" n2 d2 t2))
    /\ n2 = 0 /\ d2 = 2 /\ n1 = 0 /\ d2 <> n1.
Proof.
  do 12 eexists. cbv zeta.
  split; [vm_compute; reflexivity|].
  split; [vm_compute; reflexivity|].
  split; [vm_compute; reflexivity|].
  split; [vm_compute; reflexivity|].
  split; [vm_compute; reflexivity|].
  split; [vm_compute; reflexivity|].
  split; [reflexivity|].
  split; [vm_compute; reflexivity|].
  repeat split. discriminate.
Qed.

(** ** Read and bookmark flags *)

Lemma rowcount_positive {A} (p : A -> bool) (l : list A) :
  (0 <? Z.of_nat (List.length (filter p l))) = existsb p l.
Proof.
  induction l as [|a l IH]; [reflexivity|].
  cbn [filter existsb]. destruct (p a); cbn [orb List.length]; [|exact IH].
  apply Z.ltb_lt. lia.
Qed.

Lemma flag_update_absent iid upd rows :
  existsb (fun r => String.eqb (item_id r) iid) rows = false ->
  flag_update iid upd rows = rows.
Proof.
  unfold flag_update. induction rows as [|r l IH]; [reflexivity|].
  cbn [existsb map]. intros H. apply orb_false_iff in H as [Hr Hl].
  rewrite Hr, (IH Hl). reflexivity.
Qed.

Lemma flag_update_other iid upd rows r :
  In r rows -> item_id r <> iid -> In r (flag_update iid upd rows).
Proof.
  intros Hin Hne. unfold flag_update. apply in_map_iff. exists r.
  split; [|exact Hin].
  destruct (String.eqb (item_id r) iid) eqn:E; [|reflexivity].
  apply String.eqb_eq in E. contradiction.
Qed.

Lemma set_item_flag_spec iid upd w :
  flag_operation (set_item_flag iid upd) iid upd w.
Proof.
  assert (E : set_item_flag iid upd w
              = (set_store {| feeds := feeds (store w);
                              feed_items := flag_update iid upd (feed_items (store w));
                              feed_items_fts := feed_items_fts (store w) |} w,
                 inr (has_item iid (store w)))).
  { unfold set_item_flag, has_item, item_id. munfold. unfold update_items.
    cbn [fst snd]. rewrite rowcount_positive. reflexivity. }
  split; [exact E|]. split.
  - intros r Hin Hne. now apply flag_update_other.
  - intros Habs. rewrite E, Habs.
    rewrite flag_update_absent by exact Habs.
    destruct w as [[fs rows idx] u c l]. reflexivity.
Qed.

(** C10.  Each of [mark_read], [mark_unread], [bookmark], [unbookmark]
    returns whether a row has the identifier; the rows with that
    identifier get the flag set or cleared and keep every other field;
    the other rows, the feeds and the index are as before; and when no row
    has the identifier the world is unchanged and the result is false. *)
Theorem item_flag_operations :
  forall iid w,
    flag_operation (mark_read iid) iid (FeedItem.set_is_read true) w
    /\ flag_operation (mark_unread iid) iid (FeedItem.set_is_read false) w
    /\ flag_operation (bookmark iid) iid (FeedItem.set_is_bookmarked true) w
    /\ flag_operation (unbookmark iid) iid (FeedItem.set_is_bookmarked false) w
    /\ (forall b i, FeedItem.is_read (FeedItem.set_is_read b i) = b
                    /\ same_but_is_read i (FeedItem.set_is_read b i))
    /\ (forall b i, FeedItem.is_bookmarked (FeedItem.set_is_bookmarked b i) = b
                    /\ same_but_is_bookmarked i (FeedItem.set_is_bookmarked b i))
    /\ (has_item iid (store w) = true <->
        exists r, In r (feed_items (store w)) /\ FeedItem.id (item r) = iid).
Proof.
  intros iid w.
  repeat (split; [apply set_item_flag_spec|]).
  split; [|split].
  - intros b i. unfold same_but_is_read. cbn. repeat split.
  - intros b i. unfold same_but_is_bookmarked. cbn. repeat split.
  - unfold has_item, item_id. rewrite existsb_exists.
    split; intros (r & Hin & Hr); exists r; (split; [exact Hin|]);
      now apply String.eqb_eq.
Qed.

Lemma item_flag_operations_witness :
  let w := run_ops sample_env (one_feed ++ [OpRefresh "uuid-0"]) empty_world in
  has_item "uuid-2" (store w) = true
  /\ snd (mark_read "uuid-2" w) = inr true
  /\ mark_read "no-such-item" w = (w, inr false).
Proof.
  cbv zeta.
  destruct (item_flag_operations "uuid-2"
              (run_ops sample_env (one_feed ++ [OpRefresh "uuid-0"]) empty_world))
    as ((Hr & _ & _) & _).
  destruct (item_flag_operations "no-such-item"
              (run_ops sample_env (one_feed ++ [OpRefresh "uuid-0"]) empty_world))
    as ((_ & _ & Habs) & _).
  split; [vm_compute; reflexivity|].
  split.
  - rewrite Hr. vm_compute. reflexivity.
  - apply Habs. vm_compute. reflexivity.
Defined.

(** ** Fleet refresh *)

Section Fleet.

Variable self : Env.

(** The loop of [refresh] writes neither to [feeds] nor to the call
    log, however it ends. *)
Lemma refresh_loop_frame fid raws : forall n d w w' out,
  refresh_loop self fid raws n d w = (w', out) ->
  feeds (store w') = feeds (store w) /\ calls w' = calls w.
Proof.
  induction raws as [|raw rest IH]; intros n d w w' out H.
  - cbn in H. injection H as <- <-. auto.
  - cbn [refresh_loop] in H. unfold bind at 1 in H.
    destruct (refresh_item self fid raw w) as [w1 [e|b]] eqn:R;
      apply refresh_item_effect in R as (Hf & Hc & _).
    + injection H as <- <-. auto.
    + destruct b; apply IH in H as [Hf' Hc']; split; congruence.
Qed.

Lemma refreshes_snoc l ev :
  refreshes (l ++ [ev])
  = refreshes l ++ match ev with Refreshing fid => [fid] | Fetching _ => [] end.
Proof. unfold refreshes. rewrite flat_map_app. cbn. now rewrite app_nil_r. Qed.

(** One call of [refresh] is one entry in the call log. *)
Lemma refresh_logged fid w w' out :
  refresh self fid w = (w', out) ->
  refreshes (calls w') = refreshes (calls w) ++ [fid].
Proof.
  rewrite refresh_eq.
  assert (Hlog : refreshes (calls (record_call (Refreshing fid) w))
                 = refreshes (calls w) ++ [fid]) by apply refreshes_snoc.
  destruct (select_feed_by_id fid (store w)) as [f|].
  2:{ intros H. injection H as <- <-. exact Hlog. }
  destruct (status_eqb (Feed.status f) PAUSED).
  { intros H. injection H as <- <-. exact Hlog. }
  assert (Hfetch : refreshes (calls (after_fetch fid f w))
                   = refreshes (calls w) ++ [fid]).
  { unfold after_fetch. cbn [calls tick record_call].
    rewrite refreshes_snoc, refreshes_snoc, app_nil_r. reflexivity. }
  destruct (fetcher self (config self) f (utcnow self (clock_reads w))) as [e|raws].
  { intros H. injection H as <- <-. exact Hfetch. }
  destruct (refresh_loop self fid raws 0 0 (after_fetch fid f w))
    as [w2 [e|counts]] eqn:L;
    apply refresh_loop_frame in L as [_ Hc];
    intros H; injection H as <- <-;
    cbn [after_success after_failure calls set_store tick];
    rewrite Hc; exact Hfetch.
Qed.

Lemma refresh_result_names_feed fid w w' r :
  refresh self fid w = (w', inr r) -> result_feed_id r = fid.
Proof.
  rewrite refresh_eq.
  destruct (select_feed_by_id fid (store w)) as [f|]; [|discriminate].
  destruct (status_eqb (Feed.status f) PAUSED).
  { intros H. injection H as <- <-. reflexivity. }
  destruct (fetcher self (config self) f (utcnow self (clock_reads w)));
    [discriminate|].
  destruct (refresh_loop self fid l 0 0 (after_fetch fid f w)) as [w2 [e|counts]];
    [discriminate|].
  intros H. injection H as <- <-. reflexivity.
Qed.

(** The loop of [refresh_all] never raises, and adds one entry for each
    identifier. *)
Lemma refresh_each_runs ids : forall acc w,
  exists w' es,
    refresh_each self ids acc w = (w', inr (acc ++ es))
    /\ batch_run self ids w w' es
    /\ map entry_feed_id es = ids
    /\ refreshes (calls w') = refreshes (calls w) ++ ids.
Proof.
  induction ids as [|fid rest IH]; intros acc w.
  - exists w, []. cbn. unfold ret. rewrite !app_nil_r.
    repeat split. constructor.
  - cbn [refresh_each]. unfold bind at 1. unfold try_except, bind at 1.
    destruct (refresh self fid w) as [w1 [e|r]] eqn:R.
    + destruct (IH (acc ++ [Failed fid (str_of e)]) w1)
        as (w' & es & Hrun & Hb & Hids & Hlog).
      exists w', (Failed fid (str_of e) :: es).
      unfold ret. rewrite Hrun, <- app_assoc.
      repeat split.
      * econstructor; eauto.
      * cbn. now rewrite Hids.
      * rewrite Hlog, (refresh_logged _ _ _ _ R), <- app_assoc. reflexivity.
    + destruct (IH (acc ++ [Done r]) w1) as (w' & es & Hrun & Hb & Hids & Hlog).
      exists w', (Done r :: es).
      unfold ret. rewrite Hrun, <- app_assoc.
      repeat split.
      * econstructor; eauto.
      * cbn. now rewrite Hids, (refresh_result_names_feed _ _ _ _ R).
      * rewrite Hlog, (refresh_logged _ _ _ _ R), <- app_assoc. reflexivity.
Qed.

Lemma refresh_all_runs_active_feeds_aux w :
  exists w' es,
    refresh_all self w = (w', inr es)
    /\ batch_run self (active_ids (store w)) w w' es.
Proof.
  destruct (refresh_each_runs (active_ids (store w)) [] w)
    as (w' & es & Hrun & Hb & _).
  exists w', es. unfold refresh_all. unfold bind at 1.
  unfold with_connect, query. now split.
Qed.

End Fleet.

(** C6.  [refresh_all] returns a list and never raises; it runs [refresh]
    once for each feed that is active when it starts and for no other
    feed, in the order of the SELECT; the list has one entry for each of
    these feeds, naming it: the result when [refresh] returned, and
    [{feed_id, error}] with the text of the exception when it raised. *)
Theorem refresh_all_runs_active_feeds :
  forall self w,
    exists w' results,
      refresh_all self w = (w', inr results)
      /\ batch_run self (active_ids (store w)) w w' results
      /\ map entry_feed_id results = active_ids (store w)
      /\ List.length results
         = List.length (filter (fun f => status_eqb (Feed.status f) ACTIVE)
                               (feeds (store w)))
      /\ refreshes (calls w') = refreshes (calls w) ++ active_ids (store w)
      /\ (forall fid, In fid (active_ids (store w)) <->
            exists f, In f (feeds (store w)) /\ Feed.id f = fid
                      /\ Feed.status f = ACTIVE).
Proof.
  intros self w.
  destruct (refresh_each_runs self (active_ids (store w)) [] w)
    as (w' & es & Hrun & Hb & Hids & Hlog).
  exists w', es. unfold refresh_all. unfold bind at 1.
  unfold with_connect, query. cbn [app] in Hrun.
  repeat split; auto.
  - rewrite <- (length_map entry_feed_id), Hids. unfold active_ids.
    now rewrite length_map.
  - unfold active_ids. rewrite in_map_iff. intros (f & Hid & Hin).
    apply filter_In in Hin as [Hin Hst]. apply status_eqb_eq in Hst. eauto.
  - intros (f & Hin & Hid & Hst). unfold active_ids. apply in_map_iff.
    exists f. split; [exact Hid|]. apply filter_In. split; [exact Hin|].
    now apply status_eqb_eq.
Qed.

Lemma refresh_all_runs_active_feeds_witness :
  exists w',
    refresh_all outage_env (run_ops outage_env two_feeds empty_world)
    = (w', inr [Failed "uuid-0" "connection timed out";
                Done (Refreshed "uuid-1" 2 0 2)]).
Proof.
  destruct (refresh_all_runs_active_feeds outage_env
              (run_ops outage_env two_feeds empty_world))
    as (w' & results & H & _).
  exists w'. rewrite H. f_equal. f_equal.
  apply (f_equal snd) in H. cbn [snd] in H.
  assert (E : snd (refresh_all outage_env (run_ops outage_env two_feeds empty_world))
              = inr [Failed "uuid-0" "connection timed out";
                     Done (Refreshed "uuid-1" 2 0 2)])
    by (vm_compute; reflexivity).
  congruence.
Defined.

(** ** The constraints of the schema are kept by every statement *)

Lemma NoDup_map_injective {A B} (f : A -> B) (l : list A) a b :
  NoDup (map f l) -> In a l -> In b l -> f a = f b -> a = b.
Proof.
  induction l as [|x l IH]; cbn [map]; intros Hnd Ha Hb E; [contradiction|].
  inversion Hnd as [|? ? Hx Hl]; subst.
  destruct Ha as [<-|Ha], Hb as [<-|Hb]; auto.
  - exfalso. apply Hx. rewrite E. now apply in_map.
  - exfalso. apply Hx. rewrite <- E. now apply in_map.
Qed.

Lemma filter_keeps_key_unique {A B} (p : A -> bool) (key : A -> B) rows :
  NoDup (map key rows) -> NoDup (map key (filter p rows)).
Proof.
  induction rows as [|x l IH]; cbn [map filter]; intros H; [constructor|].
  inversion H as [|? ? Hx Hl]; subst.
  destruct (p x); [|now apply IH].
  cbn [map]. constructor; [|now apply IH].
  intros Hin. apply Hx. apply in_map_iff in Hin as (y & Hy & Hin).
  apply filter_In in Hin as [Hin _]. apply in_map_iff. eauto.
Qed.

Lemma next_rowid_above rows r : In r rows -> rowid r < next_rowid rows.
Proof.
  unfold next_rowid. induction rows as [|x l IH]; [contradiction|].
  cbn [fold_right]. intros [<-|Hin]; [lia|]. specialize (IH Hin). lia.
Qed.

Lemma doc_eqb_rowid a b : doc_eqb a b = true -> fts_rowid a = fts_rowid b.
Proof.
  unfold doc_eqb. intros H.
  repeat (apply andb_true_iff in H as [H _]). now apply Z.eqb_eq.
Qed.

Lemma doc_eqb_refl a : doc_eqb a a = true.
Proof. unfold doc_eqb. now rewrite Z.eqb_refl, !String.eqb_refl. Qed.

Lemma fold_fts_delete dead : forall idx,
  fold_left (fun idx r => fts_delete r idx) dead idx
  = filter (fun d => forallb (fun r => negb (doc_eqb d (doc_of r))) dead) idx.
Proof.
  induction dead as [|r dead IH]; intros idx; cbn [fold_left forallb].
  - induction idx as [|d idx IHi]; [reflexivity|]. cbn [filter]. now rewrite <- IHi.
  - rewrite IH. unfold fts_delete.
    induction idx as [|d idx IHi]; [reflexivity|].
    cbn [filter]. destruct (negb (doc_eqb d (doc_of r))); cbn [filter andb].
    + destruct (forallb _ dead); [now rewrite IHi | exact IHi].
    + exact IHi.
Qed.

Lemma filter_map_swap {A B} (f : A -> B) (p : B -> bool) (l : list A) :
  filter p (map f l) = map f (filter (fun x => p (f x)) l).
Proof.
  induction l as [|x l IH]; [reflexivity|].
  cbn [map filter]. destruct (p (f x)); cbn [map]; now rewrite IH.
Qed.

Lemma wf_insert_or_ignore f s : wf_store s -> wf_store (insert_or_ignore_feed f s).
Proof.
  intros (Hf & Hi & Hr & Hx). unfold insert_or_ignore_feed.
  destruct (existsb _ (feeds s)) eqn:E; [now repeat split|].
  repeat split; auto. unfold feeds_pk. cbn [feeds].
  rewrite map_app. cbn [map].
  apply NoDup_app; [exact Hf | repeat constructor; cbn; tauto |].
  intros x Hx1 [<-|[]].
  apply in_map_iff in Hx1 as (g & Hg & Hin).
  assert (Ht : existsb (fun g => String.eqb (Feed.id g) (Feed.id f)
                                 || String.eqb (Feed.url g) (Feed.url f)) (feeds s) = true).
  { apply existsb_exists. exists g. split; [exact Hin|].
    rewrite Hg, String.eqb_refl. reflexivity. }
  congruence.
Qed.

Lemma wf_update_feeds fid upd s :
  (forall f, Feed.id (upd f) = Feed.id f) ->
  wf_store s -> wf_store (fst (update_feeds fid upd s)).
Proof.
  intros Hid (Hf & Hi & Hr & Hx). repeat split; auto.
  unfold feeds_pk, update_feeds. cbn [fst feeds]. rewrite map_map.
  erewrite map_ext; [exact Hf|].
  intros g. cbn. destruct (String.eqb (Feed.id g) fid); auto.
Qed.

Lemma wf_insert_item it s s' :
  insert_item it s = inr s' -> wf_store s -> wf_store s'.
Proof.
  intros H (Hf & Hi & Hr & Hx).
  apply insert_item_inr in H as (Hfeeds & Hrows & Hidx & Hfresh).
  unfold wf_store, feeds_pk, items_pk. rewrite Hfeeds, Hrows, Hidx, Hx, !map_app.
  cbn [map]. repeat split; auto.
  - apply NoDup_app; [exact Hi | repeat constructor; cbn; tauto |].
    intros x Hx1 [<-|[]].
    apply in_map_iff in Hx1 as (r & Hr1 & Hin).
    assert (Ht : existsb (fun r => String.eqb (item_id r) (FeedItem.id it))
                         (feed_items s) = true).
    { apply existsb_exists. exists r. split; [exact Hin|].
      rewrite Hr1. apply String.eqb_refl. }
    congruence.
  - apply NoDup_app; [exact Hr | repeat constructor; cbn; tauto |].
    intros x Hx1 [<-|[]].
    apply in_map_iff in Hx1 as (r & Hr1 & Hin).
    apply next_rowid_above in Hin. cbn [rowid] in Hr1. lia.
Qed.

Lemma wf_update_items iid upd s :
  (forall i, FeedItem.id (upd i) = FeedItem.id i
             /\ FeedItem.title (upd i) = FeedItem.title i
             /\ FeedItem.summary (upd i) = FeedItem.summary i
             /\ FeedItem.author (upd i) = FeedItem.author i) ->
  wf_store s -> wf_store (fst (update_items iid upd s)).
Proof.
  intros Hupd (Hf & Hi & Hr & Hx).
  unfold wf_store, items_pk, update_items. cbn [fst feeds feed_items feed_items_fts].
  rewrite !map_map. repeat split; auto.
  - erewrite map_ext; [exact Hi|]. intros r. unfold item_id.
    destruct (String.eqb (FeedItem.id (item r)) iid); cbn; auto.
    exact (proj1 (Hupd (item r))).
  - erewrite map_ext; [exact Hr|]. intros r.
    destruct (String.eqb (FeedItem.id (item r)) iid); reflexivity.
  - rewrite Hx. apply map_ext. intros r.
    destruct (String.eqb (FeedItem.id (item r)) iid); [|reflexivity].
    unfold doc_of. cbn. destruct (Hupd (item r)) as (_ & -> & -> & ->). reflexivity.
Qed.

Lemma wf_delete_items fp keep s :
  wf_store s -> wf_store (fst (delete_items fp keep s)).
Proof.
  intros (Hf & Hi & Hr & Hx).
  unfold wf_store, items_pk, delete_items. cbn [fst feeds feed_items feed_items_fts].
  repeat split; auto using filter_keeps_key_unique.
  rewrite fold_fts_delete, Hx, filter_map_swap. f_equal.
  apply filter_ext_in. intros r' Hin'.
  destruct (doomed fp keep r') eqn:D; cbn [negb].
  - apply not_true_is_false. intros Hall.
    rewrite forallb_forall in Hall.
    assert (Hd : In r' (filter (doomed fp keep) (feed_items s)))
      by (apply filter_In; auto).
    specialize (Hall r' Hd). rewrite doc_eqb_refl in Hall. discriminate.
  - apply forallb_forall. intros r Hd. apply filter_In in Hd as [Hin Hdoom].
    destruct (doc_eqb (doc_of r') (doc_of r)) eqn:E; [|reflexivity].
    apply doc_eqb_rowid in E. cbn [doc_of fts_rowid] in E.
    assert (r' = r) by (eapply NoDup_map_injective; eauto).
    subst. congruence.
Qed.

Lemma world_eta w : set_store (store w) w = w.
Proof. destruct w. reflexivity. Qed.

Lemma delete_items_length fp keep s :
  snd (delete_items fp keep s)
  = Z.of_nat (List.length (feed_items s))
    - Z.of_nat (List.length (feed_items (fst (delete_items fp keep s)))).
Proof.
  unfold delete_items. cbn [fst snd feed_items].
  induction (feed_items s) as [|r l IH]; [reflexivity|].
  cbn [filter]. destruct (doomed fp keep r); cbn [negb List.length]; lia.
Qed.

Lemma delete_items_shrinks fp keep s :
  (List.length (feed_items (fst (delete_items fp keep s)))
   <= List.length (feed_items s))%nat.
Proof. unfold delete_items. cbn [fst feed_items]. apply filter_length_le. Qed.

(** The loop of [deduplicate] runs the DELETE statements in turn and adds
    up their row counts. *)
Lemma delete_losers_eq dups : forall removed w,
  delete_losers dups removed w
  = (set_store (sweep dups (store w)) w,
     inr (removed + Z.of_nat (List.length (feed_items (store w)))
          - Z.of_nat (List.length (feed_items (sweep dups (store w)))))).
Proof.
  induction dups as [|dup rest IH]; intros removed w.
  - cbn. unfold ret. rewrite world_eta. do 2 f_equal. lia.
  - cbn [delete_losers sweep fold_left]. unfold bind at 1. unfold execute at 1.
    pose proof (delete_items_length (fst (fst dup)) (snd dup) (store w)) as Hlen.
    destruct (delete_items (fst (fst dup)) (snd dup) (store w)) as [s1 n1] eqn:D.
    cbn [fst snd] in *. rewrite IH. cbn [store set_store].
    unfold sweep. do 2 f_equal. lia.
Qed.

Lemma sweep_feeds dups : forall s, feeds (sweep dups s) = feeds s.
Proof.
  induction dups as [|dup rest IH]; intros s; [reflexivity|].
  cbn [sweep fold_left]. fold (sweep rest). now rewrite IH.
Qed.

Lemma sweep_wf dups : forall s, wf_store s -> wf_store (sweep dups s).
Proof.
  induction dups as [|dup rest IH]; intros s H; [exact H|].
  cbn [sweep fold_left]. fold (sweep rest). apply IH. now apply wf_delete_items.
Qed.

Lemma deduplicate_eq w :
  deduplicate w
  = (set_store (sweep (duplicate_groups (store w)) (store w)) w,
     inr (Z.of_nat (List.length (feed_items (store w)))
          - Z.of_nat (List.length
              (feed_items (sweep (duplicate_groups (store w)) (store w)))))).
Proof.
  unfold deduplicate, with_connect. unfold bind at 1. unfold query at 1.
  rewrite delete_losers_eq. reflexivity.
Qed.

Section Invariant.

Variable self : Env.

Lemma refresh_item_wf fid raw w w' out :
  refresh_item self fid raw w = (w', out) ->
  wf_store (store w) -> wf_store (store w').
Proof.
  intros H Hwf. apply refresh_item_effect in H as (_ & _ & H).
  destruct out as [e|[|]].
  - destruct H as (_ & _ & ->). exact Hwf.
  - destruct H as (_ & H). eapply wf_insert_item; eauto.
  - destruct H as (-> & _). exact Hwf.
Qed.

Lemma refresh_loop_wf fid raws : forall n d w w' out,
  refresh_loop self fid raws n d w = (w', out) ->
  wf_store (store w) -> wf_store (store w').
Proof.
  induction raws as [|raw rest IH]; intros n d w w' out H Hwf.
  - cbn in H. injection H as <- <-. exact Hwf.
  - cbn [refresh_loop] in H. unfold bind at 1 in H.
    destruct (refresh_item self fid raw w) as [w1 [e|b]] eqn:R;
      apply refresh_item_wf in R; auto.
    + injection H as <- <-. exact R.
    + destruct b; eapply IH; eauto.
Qed.

Lemma refresh_wf fid w w' out :
  refresh self fid w = (w', out) ->
  wf_store (store w) -> wf_store (store w').
Proof.
  rewrite refresh_eq. intros H Hwf.
  destruct (select_feed_by_id fid (store w)) as [f|].
  2:{ injection H as <- <-. exact Hwf. }
  destruct (status_eqb (Feed.status f) PAUSED).
  { injection H as <- <-. exact Hwf. }
  destruct (fetcher self (config self) f (utcnow self (clock_reads w))) as [e|raws].
  { injection H as <- <-. now apply wf_update_feeds. }
  destruct (refresh_loop self fid raws 0 0 (after_fetch fid f w))
    as [w2 [e|counts]] eqn:L;
    apply refresh_loop_wf in L; auto;
    injection H as <- <-; now apply wf_update_feeds.
Qed.

Lemma batch_run_wf ids w w' es :
  batch_run self ids w w' es -> wf_store (store w) -> wf_store (store w').
Proof.
  induction 1 as [| ? ? ? ? ? ? ? R _ IH | ? ? ? ? ? ? ? R _ IH]; intros Hwf; auto;
    apply IH; eapply refresh_wf; eauto.
Qed.

Lemma returned_fst {A} (m : M A) w : fst (returned m w) = fst (m w).
Proof.
  unfold returned, try_except, bind, ret.
  destruct (m w) as [w' [e|a]]; reflexivity.
Qed.

Lemma returned_snd {A} (m : M A) w :
  snd (returned m w)
  = inr (match snd (m w) with inr _ => true | inl _ => false end).
Proof.
  unfold returned, try_except, bind, ret.
  destruct (m w) as [w' [e|a]]; reflexivity.
Qed.

Lemma add_feed_store n u c i w :
  store (fst (add_feed self n u c i w))
  = if int64 i
    then insert_or_ignore_feed
           (Feed.mk (uuid4 self (uuids_drawn w)) n u c i None ACTIVE None 0
                    (utcnow self (clock_reads w)))
           (store w)
    else store w.
Proof.
  unfold add_feed, get_feed_by_url, sqlite_int. munfold.
  destruct (int64 i); reflexivity.
Qed.

Lemma set_feed_status_eq fid st w :
  set_feed_status fid st w
  = (set_store (fst (update_feeds fid (Feed.set_status st) (store w))) w,
     inr (0 <? snd (update_feeds fid (Feed.set_status st) (store w)))).
Proof. unfold set_feed_status. munfold. reflexivity. Qed.

(** The store after each operation. *)
Lemma run_op_wf op w :
  wf_store (store w) -> wf_store (store (fst (run_op self op w))).
Proof.
  intros Hwf. destruct op as [n u c i | fid | | iid | iid | iid | iid | | fid | fid];
    cbn [run_op]; rewrite returned_fst.
  - rewrite add_feed_store. destruct (int64 i); [|exact Hwf].
    now apply wf_insert_or_ignore.
  - destruct (refresh self fid w) as [w' out] eqn:R.
    eapply refresh_wf; eauto.
  - destruct (refresh_all_runs_active_feeds_aux self w) as (w' & es & -> & Hb).
    eapply batch_run_wf; eauto.
  - destruct (set_item_flag_spec iid (FeedItem.set_is_read true) w) as [-> _].
    now apply (wf_update_items iid (FeedItem.set_is_read true)).
  - destruct (set_item_flag_spec iid (FeedItem.set_is_read false) w) as [-> _].
    now apply (wf_update_items iid (FeedItem.set_is_read false)).
  - destruct (set_item_flag_spec iid (FeedItem.set_is_bookmarked true) w) as [-> _].
    now apply (wf_update_items iid (FeedItem.set_is_bookmarked true)).
  - destruct (set_item_flag_spec iid (FeedItem.set_is_bookmarked false) w) as [-> _].
    now apply (wf_update_items iid (FeedItem.set_is_bookmarked false)).
  - rewrite deduplicate_eq. now apply sweep_wf.
  - unfold pause_feed. rewrite set_feed_status_eq. now apply wf_update_feeds.
  - unfold resume_feed. rewrite set_feed_status_eq. now apply wf_update_feeds.
Qed.

Lemma run_ops_wf ops : forall w,
  wf_store (store w) -> wf_store (store (run_ops self ops w)).
Proof.
  induction ops as [|op rest IH]; intros w Hwf; [exact Hwf|].
  cbn [run_ops]. apply IH. now apply run_op_wf.
Qed.


End Invariant.

(** ** Status transitions *)

Lemma select_insert_or_ignore fid g s f :
  select_feed_by_id fid s = Some f ->
  select_feed_by_id fid (insert_or_ignore_feed g s) = Some f.
Proof.
  unfold insert_or_ignore_feed, select_feed_by_id.
  destruct (existsb _ (feeds s)); [auto|]. cbn [feeds].
  induction (feeds s) as [|x l IH]; cbn [find app]; [discriminate|].
  destruct (String.eqb (Feed.id x) fid); auto.
Qed.

Lemma select_in fid s f : select_feed_by_id fid s = Some f -> In f (feeds s).
Proof. unfold select_feed_by_id. intros H. now apply find_some in H. Qed.

Section Transitions.

Variable self : Env.

Lemma select_after_set fid' fid upd f w w2 :
  (forall g, Feed.id (upd g) = Feed.id g) ->
  feeds (store w2) = feeds (store w) ->
  select_feed_by_id fid' (store w) = Some f ->
  select_feed_by_id fid' (fst (update_feeds fid upd (store w2)))
  = Some (if String.eqb fid' fid then upd f else f).
Proof.
  intros Hid Hf Sel. rewrite select_after_update by exact Hid.
  rewrite (select_same_feeds fid' (store w) (store w2) Hf), Sel.
  cbn [option_map]. now rewrite (select_feed_id _ _ _ Sel).
Qed.

(** What one [refresh] does to the status of any feed. *)
Lemma refresh_feed_row fid w w' out fid' f :
  refresh self fid w = (w', out) ->
  select_feed_by_id fid' (store w) = Some f ->
  exists f',
    select_feed_by_id fid' (store w') = Some f'
    /\ status_step (OpRefresh fid) fid'
         (match out with inr _ => true | inl _ => false end) []
         (Feed.status f) (Feed.status f').
Proof.
  rewrite refresh_eq. intros H Sel. cbn [status_step].
  destruct (String.eqb_spec fid' fid) as [->|Hne].
  - rewrite Sel in H.
    destruct (status_eqb (Feed.status f) PAUSED) eqn:St.
    { injection H as <- <-. exists f. apply status_eqb_eq in St.
      rewrite St. auto. }
    assert (Hok : forall x y : Prop, x ->
              match Feed.status f with PAUSED => y | _ => x end).
    { intros x y Hx. destruct (Feed.status f); auto; discriminate. }
    destruct (fetcher self (config self) f (utcnow self (clock_reads w)))
      as [e|raws].
    { injection H as <- <-. eexists. split.
      - unfold after_failure. cbn [store set_store].
        apply (select_after_set fid fid _ f w (after_fetch fid f w));
          [reflexivity | reflexivity | exact Sel].
      - rewrite String.eqb_refl. now apply Hok. }
    destruct (refresh_loop self fid raws 0 0 (after_fetch fid f w))
      as [w2 [e|counts]] eqn:L;
      apply refresh_loop_frame in L as [Hf _];
      injection H as <- <-; eexists; (split;
        [ unfold after_failure, after_success; cbn [store set_store];
          apply (select_after_set fid fid _ f w w2);
            [reflexivity | exact Hf | exact Sel]
        | rewrite String.eqb_refl; now apply Hok ]).
  - assert (Hb : String.eqb fid' fid = false) by now apply String.eqb_neq.
    exists f. split; [|reflexivity].
    assert (Hset : forall upd w2, (forall g, Feed.id (upd g) = Feed.id g) ->
              feeds (store w2) = feeds (store w) ->
              select_feed_by_id fid' (fst (update_feeds fid upd (store w2))) = Some f).
    { intros upd w2 Hid Hf.
      rewrite (select_after_set fid' fid upd f w w2 Hid Hf Sel), Hb. reflexivity. }
    destruct (select_feed_by_id fid (store w)) as [g|].
    2:{ injection H as <- <-. exact Sel. }
    destruct (status_eqb (Feed.status g) PAUSED).
    { injection H as <- <-. exact Sel. }
    destruct (fetcher self (config self) g (utcnow self (clock_reads w)))
      as [e|raws].
    { injection H as <- <-. now apply Hset. }
    destruct (refresh_loop self fid raws 0 0 (after_fetch fid g w))
      as [w2 [e|counts]] eqn:L;
      apply refresh_loop_frame in L as [Hf _];
      injection H as <- <-; now apply Hset.
Qed.

(** What a run of refreshes does to the status of any feed. *)
Lemma batch_run_status ids w w' es :
  batch_run self ids w w' es ->
  forall fid f,
    select_feed_by_id fid (store w) = Some f ->
    exists f',
      select_feed_by_id fid (store w') = Some f'
      /\ (~ In fid ids -> Feed.status f' = Feed.status f)
      /\ (Feed.status f = PAUSED -> Feed.status f' = PAUSED)
      /\ (Feed.status f <> PAUSED -> Feed.status f' <> PAUSED).
Proof.
  assert (Hstep : forall fid0 w w1 out fid f,
            refresh self fid0 w = (w1, out) ->
            select_feed_by_id fid (store w) = Some f ->
            exists f1, select_feed_by_id fid (store w1) = Some f1
              /\ (fid <> fid0 -> Feed.status f1 = Feed.status f)
              /\ (Feed.status f = PAUSED -> Feed.status f1 = PAUSED)
              /\ (Feed.status f <> PAUSED -> Feed.status f1 <> PAUSED)).
  { intros fid0 w0 w1 out fid f R Sel.
    destruct (refresh_feed_row _ _ _ _ _ _ R Sel) as (f1 & Sel1 & Hs).
    exists f1. split; [exact Sel1|]. cbn [status_step] in Hs.
    destruct (String.eqb_spec fid fid0) as [->|Hne].
    - destruct (Feed.status f); destruct out; repeat split; intros;
        try congruence; try tauto; destruct Hs; congruence.
    - rewrite Hs. repeat split; auto. }
  induction 1 as [w | fid0 rest w w1 w2 r es R _ IH | fid0 rest w w1 w2 e es R _ IH];
    intros fid f Sel.
  - exists f. repeat split; auto.
  - destruct (Hstep _ _ _ _ _ _ R Sel) as (f1 & Sel1 & Ha & Hb & Hc).
    destruct (IH _ _ Sel1) as (f' & Sel' & Ha' & Hb' & Hc').
    exists f'. split; [exact Sel'|]. repeat split.
    + intros Hn. rewrite Ha', Ha; auto; intros E; apply Hn; [left|right]; auto.
    + auto.
    + auto.
  - destruct (Hstep _ _ _ _ _ _ R Sel) as (f1 & Sel1 & Ha & Hb & Hc).
    destruct (IH _ _ Sel1) as (f' & Sel' & Ha' & Hb' & Hc').
    exists f'. split; [exact Sel'|]. repeat split.
    + intros Hn. rewrite Ha', Ha; auto; intros E; apply Hn; [left|right]; auto.
    + auto.
    + auto.
Qed.

(** A refresh that returns for a feed that is not paused returns the
    summary. *)
Lemma refresh_not_paused_result fid w w' r f :
  refresh self fid w = (w', inr r) ->
  select_feed_by_id fid (store w) = Some f ->
  Feed.status f <> PAUSED ->
  exists n d t, r = Refreshed fid n d t.
Proof.
  rewrite refresh_eq. intros H Sel St. rewrite Sel in H.
  destruct (status_eqb (Feed.status f) PAUSED) eqn:E.
  { apply status_eqb_eq in E. contradiction. }
  destruct (fetcher self (config self) f (utcnow self (clock_reads w)));
    [discriminate|].
  destruct (refresh_loop self fid l 0 0 (after_fetch fid f w)) as [w2 [e|counts]];
    [discriminate|].
  injection H as _ <-. eauto.
Qed.

(** What a run of refreshes over distinct feeds does to one feed, and
    which entries name it: none when the feed is not in the run; otherwise
    one, the summary with the feed left active or the error with the feed
    left in error. *)
Lemma batch_run_entries ids w w' es :
  batch_run self ids w w' es ->
  NoDup ids ->
  forall fid f,
    select_feed_by_id fid (store w) = Some f ->
    exists f',
      select_feed_by_id fid (store w') = Some f'
      /\ (~ In fid ids ->
          Feed.status f' = Feed.status f /\ entries_of fid es = [])
      /\ (In fid ids -> Feed.status f <> PAUSED ->
          (Feed.status f' = ACTIVE
           /\ exists n d t, entries_of fid es = [Done (Refreshed fid n d t)])
          \/ (Feed.status f' = ERROR
              /\ exists msg, entries_of fid es = [Failed fid msg])).
Proof.
  induction 1 as [w | fid0 rest w w1 w2 r es R _ IH | fid0 rest w w1 w2 e es R _ IH];
    intros Hnd fid f Sel.
  - exists f. split; [exact Sel|]. split; [auto | intros []].
  - inversion Hnd as [|? ? Hfresh Hnd']; subst.
    destruct (refresh_feed_row _ _ _ _ _ _ R Sel) as (f1 & Sel1 & Hs).
    destruct (IH Hnd' _ _ Sel1) as (f' & Sel' & Hout & Hin).
    exists f'. split; [exact Sel'|].
    cbn [status_step] in Hs. unfold entries_of in *. cbn [filter entry_feed_id].
    rewrite (refresh_result_names_feed self _ _ _ _ R).
    destruct (String.eqb_spec fid fid0) as [->|Hne].
    + rewrite String.eqb_refl. split.
      * intros Hn. exfalso. apply Hn. now left.
      * intros _ St. destruct (Hout Hfresh) as [Hst' Hes]. left.
        destruct (refresh_not_paused_result _ _ _ _ _ R Sel St) as (n & d & t & ->).
        rewrite Hst', Hes. split; [|eauto].
        destruct (Feed.status f); [exact Hs | contradiction | exact Hs].
    + assert (Hb : String.eqb fid0 fid = false)
        by (apply String.eqb_neq; congruence).
      rewrite Hb. split.
      * intros Hn. destruct Hout as [Hst' Hes]; [intros Hr; apply Hn; now right|].
        split; congruence.
      * intros [Heq|Hr] St; [congruence|]. apply Hin; [exact Hr | congruence].
  - inversion Hnd as [|? ? Hfresh Hnd']; subst.
    destruct (refresh_feed_row _ _ _ _ _ _ R Sel) as (f1 & Sel1 & Hs).
    destruct (IH Hnd' _ _ Sel1) as (f' & Sel' & Hout & Hin).
    exists f'. split; [exact Sel'|].
    cbn [status_step] in Hs. unfold entries_of in *. cbn [filter entry_feed_id].
    destruct (String.eqb_spec fid fid0) as [->|Hne].
    + rewrite String.eqb_refl. split.
      * intros Hn. exfalso. apply Hn. now left.
      * intros _ St. destruct (Hout Hfresh) as [Hst' Hes]. right.
        rewrite Hst', Hes. split; [|eauto].
        destruct (Feed.status f); [exact Hs | contradiction | exact Hs].
    + assert (Hb : String.eqb fid0 fid = false)
        by (apply String.eqb_neq; congruence).
      rewrite Hb. split.
      * intros Hn. destruct Hout as [Hst' Hes]; [intros Hr; apply Hn; now right|].
        split; congruence.
      * intros [Heq|Hr] St; [congruence|]. apply Hin; [exact Hr | congruence].
Qed.

End Transitions.

Lemma returned_eq {A} (m : M A) w :
  returned m w
  = (fst (m w), inr (match snd (m w) with inr _ => true | inl _ => false end)).
Proof.
  unfold returned, try_except, bind, ret.
  destruct (m w) as [w' [e|a]]; reflexivity.
Qed.

Lemma not_active_not_selected fid s f :
  feeds_pk s ->
  select_feed_by_id fid s = Some f ->
  Feed.status f <> ACTIVE ->
  ~ In fid (active_ids s).
Proof.
  intros Hpk Sel Hst Hin. unfold active_ids in Hin.
  apply in_map_iff in Hin as (g & Hid & Hg).
  apply filter_In in Hg as [Hg Hact]. apply status_eqb_eq in Hact.
  assert (g = f).
  { eapply (NoDup_map_injective Feed.id); eauto using select_in.
    rewrite Hid. symmetry. eapply select_feed_id; eauto. }
  subst. contradiction.
Qed.

(** C2, as the code has it.  In every world a caller can bring about,
    one more operation moves the status of an existing feed as follows:
    [pause_feed] and [resume_feed] on that feed set it to paused and to
    active whatever it was, error included; [refresh] of that feed leaves
    a paused feed paused, and otherwise sets active when it returns and
    error when it raises; [refresh_all] gives an active feed one entry in
    its list, and leaves the feed active when that entry is the summary of
    its refresh and in error when it is the error of its refresh, while a
    feed that is not active gets no entry and stays as it was; every other
    operation, and every operation on another feed, leaves the status as
    it was. *)
Theorem status_transitions :
  forall self ops op fid f,
    select_feed_by_id fid (store (run_ops self ops empty_world)) = Some f ->
    exists w' ok f',
      run_op self op (run_ops self ops empty_world) = (w', inr ok)
      /\ select_feed_by_id fid (store w') = Some f'
      /\ status_step op fid ok (fleet_entries self (run_ops self ops empty_world))
           (Feed.status f) (Feed.status f').
Proof.
  intros self ops op fid f.
  assert (Hwf : wf_store (store (run_ops self ops empty_world))).
  { apply run_ops_wf. repeat split; cbn; constructor. }
  generalize dependent (run_ops self ops empty_world). intros w Hwf Sel.
  destruct op as [n u c i | i | | iid | iid | iid | iid | | i | i];
    cbn [run_op]; rewrite returned_eq;
    match goal with
    | |- exists w' ok f', (?a, inr ?b) = _ /\ _ => exists a, b
    end.
  - exists f. split; [reflexivity|]. split; [|reflexivity].
    rewrite add_feed_store. destruct (int64 i); [|exact Sel].
    now apply select_insert_or_ignore.
  - destruct (refresh self i w) as [w' out] eqn:R.
    destruct (refresh_feed_row self _ _ _ _ _ _ R Sel) as (f' & Sel' & Hs).
    exists f'. cbn [fst snd]. split; [reflexivity|]. split; [exact Sel' | exact Hs].
  - destruct (refresh_all_runs_active_feeds_aux self w) as (w' & es & R & Hb).
    unfold fleet_entries. rewrite R. cbn [fst snd].
    assert (Hnd : NoDup (active_ids (store w))).
    { unfold active_ids. apply filter_keeps_key_unique. apply Hwf. }
    destruct (batch_run_entries self _ _ _ _ Hb Hnd _ _ Sel) as (f' & Sel' & Hout & Hin).
    exists f'. split; [reflexivity|]. split; [exact Sel'|].
    cbn [status_step].
    destruct (Feed.status f) eqn:St.
    + apply Hin; [|discriminate].
      unfold active_ids. apply in_map_iff. exists f.
      split; [eapply select_feed_id; eauto|].
      apply filter_In. split; [eapply select_in; eauto|].
      rewrite St. reflexivity.
    + apply Hout. apply (not_active_not_selected fid (store w) f);
        [apply Hwf | exact Sel | rewrite St; discriminate].
    + apply Hout. apply (not_active_not_selected fid (store w) f);
        [apply Hwf | exact Sel | rewrite St; discriminate].
  - destruct (set_item_flag_spec iid (FeedItem.set_is_read true) w) as [E _].
    unfold mark_read in *. rewrite E. exists f. repeat split; auto.
  - destruct (set_item_flag_spec iid (FeedItem.set_is_read false) w) as [E _].
    unfold mark_unread in *. rewrite E. exists f. repeat split; auto.
  - destruct (set_item_flag_spec iid (FeedItem.set_is_bookmarked true) w) as [E _].
    unfold bookmark in *. rewrite E. exists f. repeat split; auto.
  - destruct (set_item_flag_spec iid (FeedItem.set_is_bookmarked false) w) as [E _].
    unfold unbookmark in *. rewrite E. exists f. repeat split; auto.
  - rewrite deduplicate_eq. exists f. split; [reflexivity|]. split; [|reflexivity].
    cbn [fst store set_store].
    rewrite <- Sel. apply select_same_feeds. apply sweep_feeds.
  - unfold pause_feed. rewrite set_feed_status_eq. eexists.
    split; [reflexivity|]. split.
    + cbn [fst store set_store].
      apply (select_after_set fid i _ f w w); [reflexivity | reflexivity | exact Sel].
    + cbn [status_step]. destruct (String.eqb fid i); reflexivity.
  - unfold resume_feed. rewrite set_feed_status_eq. eexists.
    split; [reflexivity|]. split.
    + cbn [fst store set_store].
      apply (select_after_set fid i _ f w w); [reflexivity | reflexivity | exact Sel].
    + cbn [status_step]. destruct (String.eqb fid i); reflexivity.
Qed.

Lemma status_transitions_witness :
  fleet_entries outage_env (run_ops outage_env two_feeds empty_world)
  = [Failed "uuid-0" "connection timed out"; Done (Refreshed "uuid-1" 2 0 2)]
  /\ (exists w' f',
        run_op outage_env OpRefreshAll (run_ops outage_env two_feeds empty_world)
        = (w', inr true)
        /\ select_feed_by_id "uuid-0" (store w') = Some f'
        /\ Feed.status f' = ERROR)
  /\ (exists w' f',
        run_op outage_env OpRefreshAll (run_ops outage_env two_feeds empty_world)
        = (w', inr true)
        /\ select_feed_by_id "uuid-1" (store w') = Some f'
        /\ Feed.status f' = ACTIVE)
  /\ (exists w' f',
        run_op sample_env (OpPauseFeed "uuid-0") (run_ops sample_env one_feed empty_world)
        = (w', inr true)
        /\ select_feed_by_id "uuid-0" (store w') = Some f'
        /\ Feed.status f' = PAUSED).
Proof.
  assert (E : fleet_entries outage_env (run_ops outage_env two_feeds empty_world)
              = [Failed "uuid-0" "connection timed out";
                 Done (Refreshed "uuid-1" 2 0 2)])
    by (vm_compute; reflexivity).
  split; [exact E|]. split; [|split].
  - destruct (status_transitions outage_env two_feeds OpRefreshAll "uuid-0"
                (Feed.mk "uuid-0" "General Feed" "https://example.com/general.rss"
                         "general" 60 None ACTIVE None 0 (nth_second 0)))
      as (w' & ok & f' & H & Hsel & Hstep).
    + vm_compute. reflexivity.
    + exists w', f'.
      assert (Eok : snd (run_op outage_env OpRefreshAll
                           (run_ops outage_env two_feeds empty_world)) = inr true)
        by (vm_compute; reflexivity).
      rewrite H in Eok. cbn [snd] in Eok. injection Eok as ->.
      split; [exact H|]. split; [exact Hsel|].
      rewrite E in Hstep. cbn in Hstep.
      destruct Hstep as [[_ (n & d & t & Hes)] | [Hst _]];
        [discriminate Hes | exact Hst].
  - destruct (status_transitions outage_env two_feeds OpRefreshAll "uuid-1"
                (Feed.mk "uuid-1" "Other Feed" "https://example.com/other.rss"
                         "misc" 60 None ACTIVE None 0 (nth_second 1)))
      as (w' & ok & f' & H & Hsel & Hstep).
    + vm_compute. reflexivity.
    + exists w', f'.
      assert (Eok : snd (run_op outage_env OpRefreshAll
                           (run_ops outage_env two_feeds empty_world)) = inr true)
        by (vm_compute; reflexivity).
      rewrite H in Eok. cbn [snd] in Eok. injection Eok as ->.
      split; [exact H|]. split; [exact Hsel|].
      rewrite E in Hstep. cbn in Hstep.
      destruct Hstep as [[Hst _] | [_ (msg & Hes)]];
        [exact Hst | discriminate Hes].
  - destruct (status_transitions sample_env one_feed (OpPauseFeed "uuid-0") "uuid-0"
                (Feed.mk "uuid-0" "General Feed" "https://example.com/general.rss"
                         "general" 60 None ACTIVE None 0 (nth_second 0)))
      as (w' & ok & f' & H & Hsel & Hstep).
    + vm_compute. reflexivity.
    + exists w', f'. cbn in Hstep.
      assert (Eok : snd (run_op sample_env (OpPauseFeed "uuid-0")
                           (run_ops sample_env one_feed empty_world)) = inr true)
        by (vm_compute; reflexivity).
      rewrite H in Eok. cbn [snd] in Eok. injection Eok as ->.
      repeat split; auto.
Defined.

(** C2 as first stated fails: a feed that a failed refresh has put in
    error is moved to active by [resume_feed] and to paused by
    [pause_feed]. *)
Lemma resume_leaves_error_counterexample :
  exists f f1 f2,
    let w := run_ops outage_env (one_feed ++ [OpRefresh "uuid-0"]) empty_world in
    reachable outage_env w
    /\ select_feed_by_id "uuid-0" (store w) = Some f
    /\ Feed.status f = ERROR
    /\ select_feed_by_id "uuid-0" (store (fst (resume_feed "uuid-0" w))) = Some f1
    /\ Feed.status f1 = ACTIVE
    /\ select_feed_by_id "uuid-0" (store (fst (pause_feed "uuid-0" w))) = Some f2
    /\ Feed.status f2 = PAUSED.
Proof.
  do 3 eexists. cbv zeta.
  split; [eexists; reflexivity|].
  split; [vm_compute; reflexivity|].
  split; [reflexivity|].
  split; [vm_compute; reflexivity|].
  split; [reflexivity|].
  split; [vm_compute; reflexivity|].
  reflexivity.
Qed.

(** ** The order on identifiers *)

Lemma str_compare_refl a : String.compare a a = Eq.
Proof.
  induction a as [|c r IH]; [reflexivity|]. cbn [String.compare].
  unfold Ascii.compare. now rewrite N.compare_refl.
Qed.

Lemma str_compare_lt_trans a : forall b c,
  String.compare a b = Lt -> String.compare b c = Lt -> String.compare a c = Lt.
Proof.
  induction a as [|x a IH]; intros [|y b] [|z c]; cbn [String.compare];
    try discriminate; auto.
  unfold Ascii.compare.
  destruct (N.compare_spec (N_of_ascii x) (N_of_ascii y)) as [Exy|Lxy|Gxy];
    try discriminate;
    destruct (N.compare_spec (N_of_ascii y) (N_of_ascii z)) as [Eyz|Lyz|Gyz];
    try discriminate; intros H1 H2.
  - replace (N_of_ascii x ?= N_of_ascii z)%N with Eq
      by (symmetry; apply N.compare_eq_iff; congruence).
    eapply IH; eauto.
  - replace (N_of_ascii x ?= N_of_ascii z)%N with Lt
      by (symmetry; apply N.compare_lt_iff; rewrite Exy; exact Lyz).
    reflexivity.
  - replace (N_of_ascii x ?= N_of_ascii z)%N with Lt
      by (symmetry; apply N.compare_lt_iff; rewrite <- Eyz; exact Lxy).
    reflexivity.
  - replace (N_of_ascii x ?= N_of_ascii z)%N with Lt
      by (symmetry; apply N.compare_lt_iff; eapply N.lt_trans; eauto).
    reflexivity.
Qed.

Lemma str_le_compare a b : str_le a b <-> String.compare a b <> Gt.
Proof.
  unfold str_le, String.ltb. rewrite (String.compare_antisym a b).
  destruct (String.compare b a); cbn; split; congruence.
Qed.

Lemma str_le_refl a : str_le a a.
Proof. apply str_le_compare. rewrite str_compare_refl. discriminate. Qed.

Lemma str_le_trans a b c : str_le a b -> str_le b c -> str_le a c.
Proof.
  rewrite !str_le_compare. intros Hab Hbc.
  destruct (String.compare a b) eqn:Eab; try congruence.
  - apply String.compare_eq_iff in Eab. now subst.
  - destruct (String.compare b c) eqn:Ebc; try congruence.
    + apply String.compare_eq_iff in Ebc. subst. rewrite Eab. discriminate.
    + rewrite (str_compare_lt_trans a b c Eab Ebc). discriminate.
Qed.

Lemma str_min_le_l a b : str_le (str_min a b) a.
Proof.
  unfold str_min. destruct (String.ltb b a) eqn:E; [|apply str_le_refl].
  apply str_le_compare. unfold String.ltb in E.
  destruct (String.compare b a); congruence.
Qed.

Lemma str_min_le_r a b : str_le (str_min a b) b.
Proof.
  unfold str_min. destruct (String.ltb b a) eqn:E; [apply str_le_refl | exact E].
Qed.

Lemma fold_min_in r : forall a, In (fold_left str_min r a) (a :: r).
Proof.
  induction r as [|b r IH]; intros a; cbn [fold_left]; [now left|].
  destruct (IH (str_min a b)) as [H|H]; [|right; right; exact H].
  rewrite <- H. unfold str_min. destruct (String.ltb b a); cbn; auto.
Qed.

Lemma fold_min_least r : forall a x,
  In x (a :: r) -> str_le (fold_left str_min r a) x.
Proof.
  induction r as [|b r IH]; intros a x Hin; cbn [fold_left].
  - destruct Hin as [<-|[]]. apply str_le_refl.
  - assert (Hm : str_le (fold_left str_min r (str_min a b)) (str_min a b))
      by (apply IH; now left).
    destruct Hin as [<-|[<-|Hin]].
    + eapply str_le_trans; [exact Hm | apply str_min_le_l].
    + eapply str_le_trans; [exact Hm | apply str_min_le_r].
    + apply IH. now right.
Qed.

Lemma min_id_in ids : ids <> [] -> In (min_id ids) ids.
Proof. destruct ids as [|a r]; [congruence|]. intros _. apply fold_min_in. Qed.

Lemma min_id_least ids x : In x ids -> String.ltb x (min_id ids) = false.
Proof.
  destruct ids as [|a r]; [contradiction|]. intros Hin.
  apply (fold_min_least r a x Hin).
Qed.

(** ** The deduplication sweep *)

Lemma filter_twice {A} (p q : A -> bool) (l : list A) :
  filter p (filter q l) = filter (fun x => q x && p x) l.
Proof.
  induction l as [|x l IH]; [reflexivity|].
  cbn [filter]. destruct (q x); cbn [filter andb]; now rewrite IH.
Qed.

Lemma sweep_items dups : forall s,
  feed_items (sweep dups s) = filter (spared dups) (feed_items s).
Proof.
  induction dups as [|dup rest IH]; intros s.
  - cbn. induction (feed_items s) as [|r l IHl]; [reflexivity|].
    cbn. now rewrite <- IHl.
  - cbn [sweep fold_left]. fold (sweep rest). rewrite IH.
    unfold delete_items. cbn [fst feed_items]. apply filter_twice.
Qed.

Lemma ids_with_carriers fp rows : ids_with fp rows = map item_id (carriers fp rows).
Proof. reflexivity. Qed.

Lemma carriers_in fp rows r :
  In r (carriers fp rows) <-> In r rows /\ item_fp r = fp.
Proof.
  unfold carriers. rewrite filter_In. now rewrite String.eqb_eq.
Qed.

Lemma duplicate_groups_in s dup :
  In dup (duplicate_groups s) <->
  exists fp,
    In fp (map item_fp (feed_items s))
    /\ dup = (fp, Z.of_nat (List.length (ids_with fp (feed_items s))),
              min_id (ids_with fp (feed_items s)))
    /\ (1 < List.length (ids_with fp (feed_items s)))%nat.
Proof.
  unfold duplicate_groups. rewrite filter_In, in_map_iff. split.
  - intros ((fp & <- & Hin) & Hcnt). exists fp. cbn [fst snd] in Hcnt.
    apply nodup_In in Hin. apply Z.ltb_lt in Hcnt. repeat split; auto. lia.
  - intros (fp & Hin & -> & Hcnt). split.
    + exists fp. split; [reflexivity|]. now apply nodup_In.
    + cbn [fst snd]. apply Z.ltb_lt. lia.
Qed.

Lemma single_carrier rows r :
  In r rows -> List.length (carriers (item_fp r) rows) = 1%nat ->
  carriers (item_fp r) rows = [r].
Proof.
  intros Hin Hlen.
  assert (Hc : In r (carriers (item_fp r) rows)) by (apply carriers_in; auto).
  destruct (carriers (item_fp r) rows) as [|x [|y l]]; try discriminate.
  destruct Hc as [->|[]]. reflexivity.
Qed.

(** A row escapes every DELETE exactly when it is the survivor of its
    group. *)
Lemma spared_survivor s r :
  In r (feed_items s) ->
  spared (duplicate_groups s) r = survivor (feed_items s) r.
Proof.
  intros Hin. unfold spared.
  destruct (survivor (feed_items s) r) eqn:Sv.
  - apply forallb_forall. intros dup Hdup.
    apply duplicate_groups_in in Hdup as (fp & _ & -> & _). cbn [fst snd].
    unfold doomed. fold (item_fp r) (item_id r).
    destruct (String.eqb_spec (item_fp r) fp) as [<-|]; [|reflexivity].
    unfold survivor in Sv. rewrite Sv. reflexivity.
  - apply not_true_is_false. intros Hall. rewrite forallb_forall in Hall.
    assert (Hmany : (1 < List.length (ids_with (item_fp r) (feed_items s)))%nat).
    { rewrite ids_with_carriers, length_map.
      assert (Hc : In r (carriers (item_fp r) (feed_items s)))
        by (apply carriers_in; auto).
      destruct (carriers (item_fp r) (feed_items s)) as [|x [|y l]] eqn:C;
        [contradiction | | cbn; lia].
      destruct Hc as [->|[]].
      unfold survivor in Sv. rewrite ids_with_carriers, C in Sv.
      cbn in Sv. rewrite String.eqb_refl in Sv. discriminate. }
    specialize (Hall (item_fp r,
                      Z.of_nat (List.length (ids_with (item_fp r) (feed_items s))),
                      min_id (ids_with (item_fp r) (feed_items s)))).
    cbn [fst snd] in Hall. unfold doomed in Hall.
    fold (item_fp r) (item_id r) in Hall. unfold survivor in Sv.
    rewrite String.eqb_refl, Sv in Hall. cbn in Hall.
    assert (false = true); [|discriminate].
    apply Hall. apply duplicate_groups_in. exists (item_fp r).
    repeat split; auto. now apply in_map.
Qed.

Lemma deduplicate_items s :
  feed_items (sweep (duplicate_groups s) s)
  = filter (survivor (feed_items s)) (feed_items s).
Proof.
  rewrite sweep_items. apply filter_ext_in. intros r Hin.
  now apply spared_survivor.
Qed.

Lemma filter_unique {A B} (f : A -> B) (p : A -> bool) (l : list A) a :
  NoDup (map f l) -> In a l -> p a = true ->
  (forall x, In x l -> p x = true -> f x = f a) ->
  filter p l = [a].
Proof.
  induction l as [|x l IH]; cbn [map filter]; intros Hnd Hin Hp Hall; [contradiction|].
  inversion Hnd as [|? ? Hx Hl]; subst.
  assert (Hrest : forall y, In y l -> f y <> f x).
  { intros y Hy E. apply Hx. rewrite <- E. now apply in_map. }
  destruct Hin as [->|Hin].
  - rewrite Hp. f_equal.
    assert (Hnone : forall y, In y l -> p y = false).
    { intros y Hy. destruct (p y) eqn:Py; [|reflexivity].
      exfalso. apply (Hrest y Hy). apply Hall; [now right | exact Py]. }
    clear -Hnone. induction l as [|y l IHl]; [reflexivity|].
    cbn [filter]. rewrite (Hnone y) by now left.
    apply IHl. intros z Hz. apply Hnone. now right.
  - destruct (p x) eqn:Px.
    + exfalso. apply (Hrest a Hin). symmetry. apply Hall; [now left | exact Px].
    + apply IH; auto. intros y Hy. apply Hall. now right.
Qed.

(** After the sweep each fingerprint has one carrier, the row of its
    group with the least identifier. *)
Lemma one_survivor rows fp :
  NoDup (map item_id rows) ->
  In fp (map item_fp rows) ->
  exists r,
    carriers fp (filter (survivor rows) rows) = [r]
    /\ In r rows /\ item_fp r = fp
    /\ item_id r = min_id (ids_with fp rows).
Proof.
  intros Hpk Hfp.
  apply in_map_iff in Hfp as (r1 & Hfp1 & Hin1).
  assert (Hne : ids_with fp rows <> []).
  { rewrite ids_with_carriers. intros E.
    assert (Hc : In r1 (carriers fp rows)) by (apply carriers_in; auto).
    destruct (carriers fp rows); [contradiction | discriminate]. }
  apply min_id_in in Hne. rewrite ids_with_carriers in Hne at 2.
  apply in_map_iff in Hne as (r & Hid & Hc).
  apply carriers_in in Hc as [Hin Hfpr].
  exists r. repeat split; auto.
  unfold carriers. rewrite filter_twice.
  apply (filter_unique item_id); auto.
  - unfold survivor. rewrite Hfpr, Hid, !String.eqb_refl. reflexivity.
  - intros x Hx Hpx. apply andb_true_iff in Hpx as [Hs Hf].
    apply String.eqb_eq in Hf. unfold survivor in Hs. rewrite Hf in Hs.
    apply String.eqb_eq in Hs. congruence.
Qed.

(** C7.  On a store that satisfies the schema (identifiers unique, the
    full-text index holding the rows of the table, so that the trigger of
    each DELETE finds the entry it removes), [deduplicate] returns;
    afterwards every fingerprint that was in the store is carried by
    exactly one row, the row of its group with the least identifier, and
    every other row of the group is gone; a row whose fingerprint no other
    row carried is still there; no row is added; the number returned is
    the number of rows removed; and the store satisfies the schema
    again. *)
Theorem deduplicate_keeps_smallest_id :
  forall w,
    wf_store (store w) ->
    exists w' removed,
      deduplicate w = (w', inr removed)
      /\ feed_items (store w')
         = filter (survivor (feed_items (store w))) (feed_items (store w))
      /\ (forall fp, In fp (map item_fp (feed_items (store w))) ->
            exists r,
              carriers fp (feed_items (store w')) = [r]
              /\ In r (feed_items (store w))
              /\ forall r0, In r0 (feed_items (store w)) -> item_fp r0 = fp ->
                            String.ltb (item_id r0) (item_id r) = false)
      /\ (forall fp, In fp (map item_fp (feed_items (store w'))) ->
            List.length (carriers fp (feed_items (store w'))) = 1%nat)
      /\ (forall r, In r (feed_items (store w)) ->
            List.length (carriers (item_fp r) (feed_items (store w))) = 1%nat ->
            In r (feed_items (store w')))
      /\ (forall r, In r (feed_items (store w')) -> In r (feed_items (store w)))
      /\ removed = Z.of_nat (List.length (feed_items (store w)))
                   - Z.of_nat (List.length (feed_items (store w')))
      /\ feeds (store w') = feeds (store w)
      /\ wf_store (store w').
Proof.
  intros w Hwf. pose proof Hwf as (_ & Hpk & _).
  rewrite deduplicate_eq. do 2 eexists.
  split; [reflexivity|]. cbn [store set_store].
  assert (Hwf' : wf_store (sweep (duplicate_groups (store w)) (store w)))
    by now apply sweep_wf.
  rewrite deduplicate_items.
  assert (Hone : forall fp, In fp (map item_fp (feed_items (store w))) ->
            exists r,
              carriers fp (filter (survivor (feed_items (store w)))
                                  (feed_items (store w))) = [r]
              /\ In r (feed_items (store w))
              /\ forall r0, In r0 (feed_items (store w)) -> item_fp r0 = fp ->
                            String.ltb (item_id r0) (item_id r) = false).
  { intros fp Hfp.
    destruct (one_survivor _ fp Hpk Hfp) as (r & Hc & Hin & Hfpr & Hid).
    exists r. repeat split; auto.
    intros r0 Hin0 Hfp0. rewrite Hid. apply min_id_least.
    rewrite ids_with_carriers. apply in_map. now apply carriers_in. }
  split; [reflexivity|]. split; [exact Hone|].
  split; [|split; [|split; [|split; [|split]]]].
  - intros fp Hfp.
    assert (Hfp' : In fp (map item_fp (feed_items (store w)))).
    { apply in_map_iff in Hfp as (r & Hr & Hin). apply filter_In in Hin as [Hin _].
      apply in_map_iff. eauto. }
    destruct (Hone fp Hfp') as (r & -> & _). reflexivity.
  - intros r Hin Hlen. apply filter_In. split; [exact Hin|].
    unfold survivor. rewrite ids_with_carriers, (single_carrier _ r Hin Hlen).
    cbn. apply String.eqb_refl.
  - intros r Hin. now apply filter_In in Hin.
  - reflexivity.
  - apply sweep_feeds.
  - exact Hwf'.
Qed.

Lemma deduplicate_keeps_smallest_id_witness :
  wf_store (store imported_world)
  /\ exists w',
       deduplicate imported_world = (w', inr 1)
       /\ map item_id (feed_items (store w')) = ["id-a"; "id-c"].
Proof.
  assert (Hwf : wf_store (store imported_world)).
  { unfold wf_store, feeds_pk, items_pk. cbn.
    repeat split; repeat constructor; cbn; intuition discriminate. }
  split; [exact Hwf|].
  destruct (deduplicate_keeps_smallest_id imported_world Hwf)
    as (w' & removed & H & Hrows & _ & _ & _ & _ & Hn & _).
  exists w'. rewrite Hrows in Hn. rewrite H, Hrows, Hn.
  split; vm_compute; reflexivity.
Defined.

(** ** Full-text search *)

Lemma insert_desc_in r x l : In x (insert_desc r l) <-> x = r \/ In x l.
Proof.
  induction l as [|y l IH]; cbn [insert_desc].
  - cbn. intuition.
  - destruct (FeedItem.published_at (item y) <=? FeedItem.published_at (item r)).
    + cbn. intuition.
    + cbn [In]. rewrite IH. intuition.
Qed.

Lemma order_by_in x l : In x (order_by_published_desc l) <-> In x l.
Proof.
  unfold order_by_published_desc. induction l as [|r l IH]; cbn [fold_right].
  - reflexivity.
  - rewrite insert_desc_in, IH. cbn. intuition.
Qed.

Lemma insert_desc_length r l :
  List.length (insert_desc r l) = S (List.length l).
Proof.
  induction l as [|y l IH]; cbn [insert_desc]; [reflexivity|].
  destruct (FeedItem.published_at (item y) <=? FeedItem.published_at (item r));
    cbn [List.length]; congruence.
Qed.

Lemma order_by_length l :
  List.length (order_by_published_desc l) = List.length l.
Proof.
  unfold order_by_published_desc. induction l as [|r l IH]; [reflexivity|].
  cbn [fold_right]. rewrite insert_desc_length. cbn. congruence.
Qed.

Lemma sql_limit_in {A} n (l : list A) x : In x (sql_limit n l) -> In x l.
Proof.
  unfold sql_limit. destruct (n <? 0); [auto|].
  rewrite <- (firstn_skipn (Z.to_nat n) l) at 2. intros H.
  apply in_or_app. now left.
Qed.

Lemma sql_limit_all {A} n (l : list A) :
  n < 0 \/ Z.of_nat (List.length l) <= n -> sql_limit n l = l.
Proof.
  unfold sql_limit. intros [H|H].
  - apply Z.ltb_lt in H. now rewrite H.
  - destruct (n <? 0); [reflexivity|]. apply firstn_all2. lia.
Qed.

Lemma int64_spec n : int64 n = true <-> - 2 ^ 63 <= n < 2 ^ 63.
Proof. unfold int64. rewrite andb_true_iff, Z.leb_le, Z.ltb_lt. tauto. Qed.

Lemma int64_false n : ~ (- 2 ^ 63 <= n < 2 ^ 63) -> int64 n = false.
Proof.
  intros H. destruct (int64 n) eqn:E; [|reflexivity].
  apply int64_spec in E. contradiction.
Qed.

(** A query with one integer parameter. *)
Lemma bound_query_eq {A} (n : Z) (q : Store -> A) w :
  with_connect (sqlite_int n ;; query q) w
  = if int64 n then (w, inr (q (store w))) else (w, inl int_too_large).
Proof.
  unfold with_connect, bind, sqlite_int, query, ret, raise.
  destruct (int64 n); [reflexivity|]. now rewrite world_eta.
Qed.








(* ================================================================== *)
(** * Further properties of the module *)

(** ** Insertion sorts *)

Section InsertionSort.

Variable A : Type.
Variable le : A -> A -> Prop.
Variable ins : A -> list A -> list A.

Hypothesis le_trans : forall a b c, le a b -> le b c -> le a c.
Hypothesis ins_nil : forall a, ins a [] = [a].
Hypothesis ins_cons : forall a x l,
  (ins a (x :: l) = a :: x :: l /\ le a x)
  \/ (ins a (x :: l) = x :: ins a l /\ le x a).

Lemma ins_perm a l : Permutation (ins a l) (a :: l).
Proof.
  induction l as [|x l IH]; [now rewrite ins_nil|].
  destruct (ins_cons a x l) as [[-> _]|[-> _]]; [reflexivity|].
  rewrite IH. apply perm_swap.
Qed.

Lemma ins_sorted a l : StronglySorted le l -> StronglySorted le (ins a l).
Proof.
  induction l as [|x l IH]; intros Hs.
  - rewrite ins_nil. repeat constructor.
  - inversion Hs as [|? ? Hl Hx]; subst.
    destruct (ins_cons a x l) as [[-> Hax]|[-> Hxa]].
    + constructor; [exact Hs|]. constructor; [exact Hax|].
      eapply Forall_impl; [|exact Hx]. intros b Hb. eapply le_trans; eauto.
    + constructor; [now apply IH|].
      apply (Permutation_Forall (Permutation_sym (ins_perm a l))).
      constructor; assumption.
Qed.

Lemma sort_perm l : Permutation (fold_right ins [] l) l.
Proof.
  induction l as [|a l IH]; [reflexivity|].
  cbn [fold_right]. rewrite ins_perm. now constructor.
Qed.

Lemma sort_sorted l : StronglySorted le (fold_right ins [] l).
Proof.
  induction l as [|a l IH]; [constructor|]. cbn [fold_right]. now apply ins_sorted.
Qed.

End InsertionSort.

Lemma leb_str_le a b : String.leb a b = true <-> str_le a b.
Proof.
  rewrite str_le_compare. unfold String.leb.
  destruct (String.compare a b); split; congruence.
Qed.

Lemma leb_trans a b c :
  String.leb a b = true -> String.leb b c = true -> String.leb a c = true.
Proof. rewrite !leb_str_le. apply str_le_trans. Qed.

Lemma leb_false_flip a b : String.leb a b = false -> String.leb b a = true.
Proof.
  intros H. destruct (String.leb_total a b) as [E|E]; [congruence | exact E].
Qed.

Lemma order_by_published_perm l : Permutation (order_by_published_desc l) l.
Proof.
  apply sort_perm with (le := newer_first); [reflexivity|].
  intros a x l'. cbn [insert_desc]. unfold newer_first.
  destruct (FeedItem.published_at (item x) <=? FeedItem.published_at (item a)) eqn:E.
  - left. split; [reflexivity|]. now apply Z.leb_le.
  - right. split; [reflexivity|]. apply Z.leb_gt in E. lia.
Qed.

Lemma order_by_published_sorted l :
  StronglySorted newer_first (order_by_published_desc l).
Proof.
  apply sort_sorted.
  - unfold newer_first. intros a b c H1 H2. lia.
  - reflexivity.
  - intros a x l'. cbn [insert_desc]. unfold newer_first.
    destruct (FeedItem.published_at (item x) <=? FeedItem.published_at (item a)) eqn:E.
    + left. split; [reflexivity|]. now apply Z.leb_le.
    + right. split; [reflexivity|]. apply Z.leb_gt in E. lia.
Qed.

Lemma order_by_name_perm l : Permutation (order_by_name l) l.
Proof.
  apply sort_perm with (le := name_order); [reflexivity|].
  intros a x l'. cbn [insert_by_name]. unfold name_order.
  destruct (String.leb (Feed.name a) (Feed.name x)) eqn:E.
  - left. auto.
  - right. split; [reflexivity|]. now apply leb_false_flip.
Qed.

Lemma order_by_name_sorted l : StronglySorted name_order (order_by_name l).
Proof.
  apply sort_sorted.
  - unfold name_order. intros a b c. apply leb_trans.
  - reflexivity.
  - intros a x l'. cbn [insert_by_name]. unfold name_order.
    destruct (String.leb (Feed.name a) (Feed.name x)) eqn:E.
    + left. auto.
    + right. split; [reflexivity|]. now apply leb_false_flip.
Qed.



Lemma strongly_sorted_firstn {A} (R : A -> A -> Prop) n : forall l,
  StronglySorted R l -> StronglySorted R (firstn n l).
Proof.
  induction n as [|n IH]; intros l Hs; [constructor|].
  destruct l as [|x l]; [constructor|].
  inversion Hs as [|? ? Hl Hx]; subst. cbn [firstn].
  constructor; [now apply IH|].
  apply Forall_forall. intros y Hy. rewrite Forall_forall in Hx. apply Hx.
  rewrite <- (firstn_skipn n l). apply in_or_app. now left.
Qed.

Lemma strongly_sorted_map {A B} (f : A -> B) (R : B -> B -> Prop) l :
  StronglySorted (fun a b => R (f a) (f b)) l -> StronglySorted R (map f l).
Proof.
  induction 1 as [|x l Hl IH Hx]; cbn [map]; constructor; auto.
  apply Forall_map. exact Hx.
Qed.

(** What [ORDER BY published_at DESC LIMIT ?] gives on any set of rows:
    newest first, at most [limit] of them when the limit is not negative,
    rows of the set only, and all of them when the limit allows. *)
Lemma ordered_and_limited limit rows :
  let res := map item (sql_limit limit (order_by_published_desc rows)) in
  items_newer_first res
  /\ (0 <= limit -> Z.of_nat (List.length res) <= limit)
  /\ (forall it, In it res -> exists r, In r rows /\ item r = it)
  /\ (limit < 0 \/ Z.of_nat (List.length rows) <= limit ->
      Permutation res (map item rows)).
Proof.
  cbv zeta. split; [|split; [|split]].
  - unfold items_newer_first. apply strongly_sorted_map.
    unfold sql_limit. destruct (limit <? 0).
    + apply order_by_published_sorted.
    + apply strongly_sorted_firstn, order_by_published_sorted.
  - intros Hl. rewrite length_map. unfold sql_limit.
    destruct (limit <? 0) eqn:E; [apply Z.ltb_lt in E; lia|].
    rewrite length_firstn. lia.
  - intros it Hin. apply in_map_iff in Hin as (r & Hr & Hin).
    apply sql_limit_in in Hin. apply (proj1 (order_by_in _ _)) in Hin.
    exists r. now split.
  - intros Hl. rewrite sql_limit_all by (now rewrite order_by_length).
    apply Permutation_map, order_by_published_perm.
Qed.

(** ** The query layer *)

(** With a limit that fits 64 bits, [get_items] returns items of the
    feed only, unread ones only when asked, newest first and at most
    [limit] of them; with a negative limit it returns every such item.
    With a limit that does not fit, it raises [OverflowError]. *)
Theorem get_items_of_feed_newest_first :
  forall fid limit unread w,
    (- 2 ^ 63 <= limit < 2 ^ 63 ->
     exists res,
       get_items fid limit unread w = (w, inr res)
       /\ items_newer_first res
       /\ (0 <= limit -> Z.of_nat (List.length res) <= limit)
       /\ (forall it, In it res ->
             FeedItem.feed_id it = fid
             /\ (unread = true -> FeedItem.is_read it = false)
             /\ exists r, In r (feed_items (store w)) /\ item r = it)
       /\ (limit < 0 ->
           forall r, In r (feed_items (store w)) ->
                     FeedItem.feed_id (item r) = fid ->
                     (unread = true -> FeedItem.is_read (item r) = false) ->
                     In (item r) res))
    /\ (~ (- 2 ^ 63 <= limit < 2 ^ 63) ->
        get_items fid limit unread w = (w, inl int_too_large)).
Proof.
  intros fid limit unread w. unfold get_items. rewrite bound_query_eq. split.
  2:{ intros Hrange. now rewrite (int64_false limit Hrange). }
  intros Hrange. rewrite (proj2 (int64_spec limit) Hrange).
  eexists. split; [reflexivity|].
  unfold get_items_rows.
  set (rows := if unread then _ else _).
  destruct (ordered_and_limited limit rows) as (Hs & Hl & Hin & Hall).
  assert (Hrows : forall r, In r rows <->
            In r (feed_items (store w))
            /\ FeedItem.feed_id (item r) = fid
            /\ (unread = true -> FeedItem.is_read (item r) = false)).
  { intros r. subst rows. destruct unread; rewrite filter_In.
    - rewrite andb_true_iff, String.eqb_eq, negb_true_iff. intuition.
    - rewrite String.eqb_eq. intuition discriminate. }
  split; [exact Hs|]. split; [exact Hl|]. split.
  - intros it Hit. destruct (Hin it Hit) as (r & Hr & <-).
    apply Hrows in Hr as (Hr & Hf & Hu). eauto.
  - intros Hneg r Hr Hf Hu.
    apply (Permutation_in (l := map item rows)).
    + symmetry. apply Hall. now left.
    + apply in_map. apply Hrows. auto.
Qed.

Lemma get_items_of_feed_newest_first_witness :
  (exists res,
     get_items "uuid-0" 1 false refreshed_world = (refreshed_world, inr res)
     /\ map FeedItem.title res = ["Sample Article 1"])
  /\ get_items "uuid-0" (2 ^ 63) false refreshed_world
     = (refreshed_world, inl int_too_large).
Proof.
  destruct (get_items_of_feed_newest_first "uuid-0" 1 false refreshed_world)
    as (Hin & _).
  destruct (get_items_of_feed_newest_first "uuid-0" (2 ^ 63) false refreshed_world)
    as (_ & Hout).
  split; [|apply Hout; lia].
  destruct Hin as (res & H & _); [lia|].
  exists res. split; [exact H|].
  assert (E : snd (get_items "uuid-0" 1 false refreshed_world) = inr res)
    by (now rewrite H).
  vm_compute in E. injection E as <-. reflexivity.
Defined.

(** [get_bookmarks] returns exactly the bookmarked items, newest first. *)
Theorem get_bookmarks_are_the_bookmarked :
  forall w,
    exists res,
      get_bookmarks w = (w, inr res)
      /\ items_newer_first res
      /\ Permutation res
           (map item (filter (fun r => FeedItem.is_bookmarked (item r))
                             (feed_items (store w))))
      /\ (forall it, In it res <->
            exists r, In r (feed_items (store w)) /\ item r = it
                      /\ FeedItem.is_bookmarked it = true).
Proof.
  intros w. eexists. split; [reflexivity|]. unfold get_bookmarks_rows.
  set (rows := filter _ (feed_items (store w))).
  assert (Hperm : Permutation (map item (order_by_published_desc rows)) (map item rows))
    by apply Permutation_map, order_by_published_perm.
  split; [|split; [exact Hperm|]].
  - unfold items_newer_first. apply strongly_sorted_map, order_by_published_sorted.
  - intros it. split.
    + intros Hin. apply (Permutation_in _ Hperm) in Hin.
      apply in_map_iff in Hin as (r & <- & Hr). subst rows.
      apply filter_In in Hr as [Hr Hb]. eauto.
    + intros (r & Hr & <- & Hb).
      apply (Permutation_in _ (Permutation_sym Hperm)). apply in_map.
      subst rows. apply filter_In. auto.
Qed.

Lemma at_most_one_owner fs fid p :
  NoDup (map Feed.id fs) ->
  map (fun _ : Feed.t => tt)
      (filter (fun f => String.eqb (Feed.id f) fid && p f) fs)
  = if existsb (fun f => String.eqb (Feed.id f) fid && p f) fs then [tt] else [].
Proof.
  induction fs as [|g l IH]; intros Hnd; [reflexivity|].
  inversion Hnd as [|? ? Hg Hl]; subst. cbn [filter existsb].
  destruct (String.eqb_spec (Feed.id g) fid) as [E|E]; cbn [andb].
  - assert (Hnone : filter (fun f => String.eqb (Feed.id f) fid && p f) l = []).
    { clear IH Hl Hnd. induction l as [|x l IHl]; [reflexivity|].
      cbn [filter]. destruct (String.eqb_spec (Feed.id x) fid) as [Ex|Ex]; cbn [andb].
      - exfalso. apply Hg. left. congruence.
      - apply IHl. intros Hin. apply Hg. now right. }
    assert (Hex : existsb (fun f => String.eqb (Feed.id f) fid && p f) l = false).
    { apply not_true_is_false. intros Hex.
      apply existsb_exists in Hex as (x & Hx & Hpx).
      assert (Hf : In x (filter (fun f => String.eqb (Feed.id f) fid && p f) l))
        by (apply filter_In; auto).
      rewrite Hnone in Hf. contradiction. }
    rewrite Hex. destruct (p g); cbn [map orb]; now rewrite Hnone.
  - cbn [orb]. now apply IH.
Qed.

(** With feed identifiers unique and a limit that fits 64 bits,
    [by_category] returns each item of a feed of the category once: the
    items whose owner exists and has the category, unread ones only when
    asked, newest first, at most [limit]; an item whose feed is not in the
    table is never returned.  With a limit that does not fit, it raises
    [OverflowError]. *)
Theorem by_category_items_of_category :
  forall c limit unread w,
    feeds_pk (store w) ->
    (- 2 ^ 63 <= limit < 2 ^ 63 ->
     exists res,
       by_category c limit unread w = (w, inr res)
       /\ items_newer_first res
       /\ (0 <= limit -> Z.of_nat (List.length res) <= limit)
       /\ joined_with_category c (store w)
          = filter (fun r =>
                      existsb (fun f => String.eqb (Feed.id f) (FeedItem.feed_id (item r))
                                        && String.eqb (Feed.category f) c)
                              (feeds (store w)))
                   (feed_items (store w))
       /\ (forall it, In it res ->
             (unread = true -> FeedItem.is_read it = false)
             /\ (exists r, In r (feed_items (store w)) /\ item r = it)
             /\ exists f, In f (feeds (store w))
                          /\ Feed.id f = FeedItem.feed_id it
                          /\ Feed.category f = c)
       /\ (forall it, In it res ->
             select_feed_by_id (FeedItem.feed_id it) (store w) <> None))
    /\ (~ (- 2 ^ 63 <= limit < 2 ^ 63) ->
        by_category c limit unread w = (w, inl int_too_large)).
Proof.
  intros c limit unread w Hpk. unfold by_category. rewrite bound_query_eq. split.
  2:{ intros Hrange. now rewrite (int64_false limit Hrange). }
  intros Hrange. rewrite (proj2 (int64_spec limit) Hrange).
  eexists. split; [reflexivity|].
  assert (Hjoin : joined_with_category c (store w)
            = filter (fun r =>
                        existsb (fun f => String.eqb (Feed.id f) (FeedItem.feed_id (item r))
                                          && String.eqb (Feed.category f) c)
                                (feeds (store w)))
                     (feed_items (store w))).
  { unfold joined_with_category.
    induction (feed_items (store w)) as [|r l IH]; [reflexivity|].
    cbn [flat_map filter]. rewrite IH.
    assert (E : map (fun _ : Feed.t => r)
                    (filter (fun f => String.eqb (Feed.id f) (FeedItem.feed_id (item r))
                                      && String.eqb (Feed.category f) c)
                            (feeds (store w)))
                = map (fun _ : unit => r)
                      (map (fun _ : Feed.t => tt)
                           (filter (fun f => String.eqb (Feed.id f) (FeedItem.feed_id (item r))
                                             && String.eqb (Feed.category f) c)
                                   (feeds (store w)))))
      by (now rewrite map_map).
    rewrite E, (at_most_one_owner _ _ (fun f => String.eqb (Feed.category f) c) Hpk).
    destruct (existsb _ (feeds (store w))); reflexivity. }
  unfold by_category_rows.
  set (rows := if unread then _ else _).
  destruct (ordered_and_limited limit rows) as (Hs & Hl & Hin & _).
  assert (Hrows : forall r, In r rows ->
            In r (joined_with_category c (store w))
            /\ (unread = true -> FeedItem.is_read (item r) = false)).
  { intros r. subst rows. destruct unread.
    - rewrite filter_In, negb_true_iff. intuition.
    - intuition discriminate. }
  assert (Howner : forall it, In it (map item (sql_limit limit (order_by_published_desc rows))) ->
            (unread = true -> FeedItem.is_read it = false)
            /\ (exists r, In r (feed_items (store w)) /\ item r = it)
            /\ exists f, In f (feeds (store w))
                         /\ Feed.id f = FeedItem.feed_id it
                         /\ Feed.category f = c).
  { intros it Hit. destruct (Hin it Hit) as (r & Hr & <-).
    apply Hrows in Hr as (Hj & Hu). rewrite Hjoin in Hj.
    apply filter_In in Hj as (Hr & Hex).
    apply existsb_exists in Hex as (f & Hf & Hm).
    apply andb_true_iff in Hm as (Hid & Hc).
    apply String.eqb_eq in Hid. apply String.eqb_eq in Hc.
    split; [exact Hu|]. split; eauto. }
  split; [exact Hs|]. split; [exact Hl|]. split; [exact Hjoin|].
  split; [exact Howner|].
  intros it Hit. destruct (Howner it Hit) as (_ & _ & f & Hf & Hid & _).
  unfold select_feed_by_id. intros Hnone.
  apply (find_none _ _ Hnone) in Hf. rewrite Hid, String.eqb_refl in Hf. discriminate.
Qed.

Lemma by_category_items_of_category_witness :
  feeds_pk (store catalogue_world)
  /\ (exists res,
        by_category "tech" 10 false catalogue_world = (catalogue_world, inr res)
        /\ map FeedItem.id res = ["i3"; "i1"])
  /\ by_category "tech" (- 2 ^ 63 - 1) false catalogue_world
     = (catalogue_world, inl int_too_large).
Proof.
  assert (Hpk : feeds_pk (store catalogue_world)).
  { unfold feeds_pk. cbn. repeat constructor; cbn; intuition discriminate. }
  split; [exact Hpk|].
  destruct (by_category_items_of_category "tech" 10 false catalogue_world Hpk)
    as (Hin & _).
  destruct (by_category_items_of_category "tech" (- 2 ^ 63 - 1) false
              catalogue_world Hpk) as (_ & Hout).
  split; [|apply Hout; lia].
  destruct Hin as (res & H & _); [lia|].
  exists res. split; [exact H|].
  assert (E : snd (by_category "tech" 10 false catalogue_world) = inr res)
    by (now rewrite H).
  vm_compute in E. injection E as <-. reflexivity.
Defined.



(** ** Listing feeds and statistics *)

Lemma status_value_injective a b : status_value a = status_value b -> a = b.
Proof. destruct a, b; cbn; congruence. Qed.

(** [list_feeds] orders by name; with a status it returns exactly the
    feeds of that status, and none when the text is no status; the empty
    string is read as no filter. *)
Theorem list_feeds_filters_and_orders :
  forall status w,
    exists res,
      list_feeds status w = (w, inr res)
      /\ StronglySorted name_order res
      /\ (forall st, status = Some st -> st <> EmptyString ->
            forall f, In f res <->
                      In f (feeds (store w)) /\ status_value (Feed.status f) = st)
      /\ (forall st, status = Some (status_value st) ->
            forall f, In f res <-> In f (feeds (store w)) /\ Feed.status f = st)
      /\ (status = None \/ status = Some EmptyString ->
          Permutation res (feeds (store w)))
      /\ list_feeds (Some EmptyString) w = list_feeds None w.
Proof.
  intros status w. eexists. split; [reflexivity|].
  assert (Hfilter : forall st, st <> EmptyString ->
            forall f, In f (list_feeds_rows (Some st) (store w)) <->
                      In f (feeds (store w)) /\ status_value (Feed.status f) = st).
  { intros st Hne f. unfold list_feeds_rows.
    destruct (String.eqb_spec st EmptyString) as [E|_]; [contradiction|].
    split.
    - intros Hin. apply (Permutation_in _ (order_by_name_perm _)) in Hin.
      apply filter_In in Hin as [Hin Hst]. now apply String.eqb_eq in Hst.
    - intros [Hin Hst]. apply (Permutation_in _ (Permutation_sym (order_by_name_perm _))).
      apply filter_In. split; [exact Hin|]. now apply String.eqb_eq. }
  split; [|split; [|split; [|split]]].
  - unfold list_feeds_rows. destruct status as [st|];
      [destruct (String.eqb st EmptyString)|]; apply order_by_name_sorted.
  - intros st -> Hne. now apply Hfilter.
  - intros st -> f. rewrite Hfilter by (destruct st; discriminate).
    split; intros [Hin Hst]; split; auto.
    + now apply status_value_injective.
    + now rewrite Hst.
  - intros [->| ->]; cbn; apply order_by_name_perm.
  - reflexivity.
Qed.

Lemma filter_length_split {A} (p : A -> bool) (l : list A) :
  (List.length (filter p l) + List.length (filter (fun x => negb (p x)) l)
   = List.length l)%nat.
Proof.
  induction l as [|x l IH]; [reflexivity|].
  cbn [filter]. destruct (p x); cbn [negb List.length]; lia.
Qed.

(** The numbers of [get_stats] agree with what the queries return:
    [total_feeds] and [active_feeds] with [list_feeds], [bookmarked_items]
    with [get_bookmarks], [unread_items] with the unread items of all
    feeds; and no partial count exceeds its total. *)
Theorem get_stats_agrees_with_queries :
  forall w,
    exists st,
      get_stats w = (w, inr st)
      /\ total_feeds st = Z.of_nat (List.length (list_feeds_rows None (store w)))
      /\ active_feeds st
         = Z.of_nat (List.length (list_feeds_rows (Some "active") (store w)))
      /\ bookmarked_items st = Z.of_nat (List.length (get_bookmarks_rows (store w)))
      /\ total_items st = Z.of_nat (List.length (feed_items (store w)))
      /\ unread_items st
         + count (fun r => FeedItem.is_read (item r)) (feed_items (store w))
         = total_items st
      /\ 0 <= active_feeds st <= total_feeds st
      /\ 0 <= unread_items st <= total_items st
      /\ 0 <= bookmarked_items st <= total_items st.
Proof.
  intros w. eexists. split; [reflexivity|].
  unfold get_stats_rows, count.
  cbn [total_feeds active_feeds total_items unread_items bookmarked_items].
  split; [|split; [|split; [|split; [|split; [|split; [|split]]]]]].
  - unfold list_feeds_rows. now rewrite (Permutation_length (order_by_name_perm _)).
  - unfold list_feeds_rows. cbn [String.eqb].
    rewrite (Permutation_length (order_by_name_perm _)).
    do 2 f_equal. apply filter_ext. intros f. destruct (Feed.status f); reflexivity.
  - unfold get_bookmarks_rows.
    now rewrite length_map, (Permutation_length (order_by_published_perm _)).
  - reflexivity.
  - pose proof (filter_length_split (fun r => FeedItem.is_read (item r))
                                    (feed_items (store w))). lia.
  - pose proof (filter_length_le (fun f => status_eqb (Feed.status f) ACTIVE)
                                 (feeds (store w))). lia.
  - pose proof (filter_length_le (fun r => negb (FeedItem.is_read (item r)))
                                 (feed_items (store w))). lia.
  - pose proof (filter_length_le (fun r => FeedItem.is_bookmarked (item r))
                                 (feed_items (store w))). lia.
Qed.

(** ** Adding feeds *)

Lemma find_app_none {A} (p : A -> bool) l x :
  find p l = None -> find p (l ++ [x]) = if p x then Some x else None.
Proof.
  induction l as [|y l IH]; cbn [find app]; [reflexivity|].
  destruct (p y); [discriminate | exact IH].
Qed.

Lemma find_app_some {A} (p : A -> bool) l x y :
  find p l = Some y -> find p (l ++ [x]) = Some y.
Proof.
  induction l as [|z l IH]; cbn [find app]; [discriminate|].
  destruct (p z); auto.
Qed.

(** [add_feed], one case for each way through the method: the interval
    is bound and the INSERT OR IGNORE runs, or it does not fit and nothing
    runs. *)
Lemma add_feed_eq self n u c i w :
  add_feed self n u c i w =
  let feed := Feed.mk (uuid4 self (uuids_drawn w)) n u c i None ACTIVE None 0
                      (utcnow self (clock_reads w)) in
  let s' := insert_or_ignore_feed feed (store w) in
  if int64 i then
    (set_store s' (tick (draw w)),
     inr (match select_feed_by_url u s' with Some f => f | None => feed end))
  else (tick (draw w), inl int_too_large).
Proof.
  unfold add_feed, get_feed_by_url, sqlite_int. munfold. cbv zeta.
  destruct (int64 i); reflexivity.
Qed.

Lemma add_feed_twice_aux self n u c i w f :
  select_feed_by_url u (store w) = Some f ->
  int64 i = true ->
  add_feed self n u c i w = (tick (draw w), inr f).
Proof.
  intros Sel Hi. rewrite add_feed_eq, Hi. cbv zeta.
  destruct (find_some _ _ Sel) as [Hin Hu]. cbv beta in Hu.
  assert (Hex : insert_or_ignore_feed
                  (Feed.mk (uuid4 self (uuids_drawn w)) n u c i None ACTIVE None 0
                           (utcnow self (clock_reads w))) (store w) = store w).
  { unfold insert_or_ignore_feed.
    replace (existsb _ (feeds (store w))) with true; [reflexivity|].
    symmetry. apply existsb_exists. exists f. split; [exact Hin|].
    cbn [Feed.url Feed.id]. rewrite Hu. apply orb_true_r. }
  rewrite Hex, Sel. reflexivity.
Qed.

(** [add_feed] with a URL that a feed already has writes nothing, whatever
    name, category and interval are given; it returns that feed when the
    interval fits 64 bits, and raises [OverflowError] when it does not. *)
Theorem add_feed_existing_url_returns_existing :
  forall self n u c i w f,
    select_feed_by_url u (store w) = Some f ->
    (- 2 ^ 63 <= i < 2 ^ 63 ->
     add_feed self n u c i w = (tick (draw w), inr f))
    /\ (~ (- 2 ^ 63 <= i < 2 ^ 63) ->
        add_feed self n u c i w = (tick (draw w), inl int_too_large))
    /\ store (tick (draw w)) = store w
    /\ Feed.url f = u.
Proof.
  intros self n u c i w f Sel.
  split; [|split; [|split]].
  - intros Hi. apply add_feed_twice_aux; [exact Sel | now apply int64_spec].
  - intros Hi. now rewrite add_feed_eq, (int64_false i Hi).
  - reflexivity.
  - apply find_some in Sel as [_ Hu]. now apply String.eqb_eq.
Qed.

Lemma add_feed_existing_url_returns_existing_witness :
  (exists w' f,
     add_feed sample_env "Again" "https://example.com/general.rss" "tech" 5
       (run_ops sample_env one_feed empty_world) = (w', inr f)
     /\ Feed.id f = "uuid-0" /\ Feed.name f = "General Feed"
     /\ store w' = store (run_ops sample_env one_feed empty_world))
  /\ (exists w',
        add_feed sample_env "Again" "https://example.com/general.rss" "tech" (2 ^ 63)
          (run_ops sample_env one_feed empty_world) = (w', inl int_too_large)
        /\ store w' = store (run_ops sample_env one_feed empty_world)).
Proof.
  split.
  - destruct (add_feed_existing_url_returns_existing sample_env "Again"
                "https://example.com/general.rss" "tech" 5
                (run_ops sample_env one_feed empty_world)
                (Feed.mk "uuid-0" "General Feed" "https://example.com/general.rss"
                         "general" 60 None ACTIVE None 0 (nth_second 0)))
      as (H & _ & Hs & _).
    + vm_compute. reflexivity.
    + do 2 eexists. split; [apply H; lia|].
      split; [reflexivity|]. split; [reflexivity | exact Hs].
  - destruct (add_feed_existing_url_returns_existing sample_env "Again"
                "https://example.com/general.rss" "tech" (2 ^ 63)
                (run_ops sample_env one_feed empty_world)
                (Feed.mk "uuid-0" "General Feed" "https://example.com/general.rss"
                         "general" 60 None ACTIVE None 0 (nth_second 0)))
      as (_ & H & Hs & _).
    + vm_compute. reflexivity.
    + eexists. split; [apply H; lia | exact Hs].
Defined.

(** [add_feed] with a new URL and a new identifier, when the interval
    fits 64 bits, stores an active feed with no items, no fetch and no
    error; [get_feed] and [get_feed_by_url] then return it, the feeds
    already there are found as before, and adding the URL again returns
    the same feed.  When the interval does not fit, [add_feed] raises
    [OverflowError] and stores nothing. *)
Theorem add_feed_new_url_is_stored :
  forall self n u c i w,
    select_feed_by_url u (store w) = None ->
    select_feed_by_id (uuid4 self (uuids_drawn w)) (store w) = None ->
    let feed := Feed.mk (uuid4 self (uuids_drawn w)) n u c i None ACTIVE None 0
                        (utcnow self (clock_reads w)) in
    (- 2 ^ 63 <= i < 2 ^ 63 ->
     exists w',
       add_feed self n u c i w = (w', inr feed)
       /\ feeds (store w') = feeds (store w) ++ [feed]
       /\ feed_items (store w') = feed_items (store w)
       /\ get_feed (Feed.id feed) w' = (w', inr (Some feed))
       /\ get_feed_by_url u w' = (w', inr (Some feed))
       /\ (forall fid f, select_feed_by_id fid (store w) = Some f ->
             select_feed_by_id fid (store w') = Some f)
       /\ (forall n2 c2 i2, - 2 ^ 63 <= i2 < 2 ^ 63 ->
             snd (add_feed self n2 u c2 i2 w') = inr feed))
    /\ (~ (- 2 ^ 63 <= i < 2 ^ 63) ->
        exists w',
          add_feed self n u c i w = (w', inl int_too_large)
          /\ store w' = store w).
Proof.
  intros self n u c i w Hurl Hid feed. split.
  2:{ intros Hi. eexists. rewrite add_feed_eq, (int64_false i Hi).
      split; reflexivity. }
  intros Hi. apply int64_spec in Hi.
  assert (Hins : insert_or_ignore_feed feed (store w)
                 = {| feeds := feeds (store w) ++ [feed];
                      feed_items := feed_items (store w);
                      feed_items_fts := feed_items_fts (store w) |}).
  { unfold insert_or_ignore_feed.
    replace (existsb _ (feeds (store w))) with false; [reflexivity|].
    symmetry. apply not_true_is_false. intros Hex.
    apply existsb_exists in Hex as (g & Hg & Hm).
    apply orb_true_iff in Hm as [Hm|Hm].
    - apply (find_none _ _ Hid) in Hg. cbn [Feed.id feed] in Hm. congruence.
    - apply (find_none _ _ Hurl) in Hg. cbn [Feed.url feed] in Hm. congruence. }
  assert (Hsel_url : select_feed_by_url u (insert_or_ignore_feed feed (store w))
                     = Some feed).
  { rewrite Hins. unfold select_feed_by_url. cbn [feeds].
    rewrite (find_app_none _ _ _ Hurl). cbn [Feed.url feed].
    now rewrite String.eqb_refl. }
  assert (Hsel_id : select_feed_by_id (Feed.id feed) (insert_or_ignore_feed feed (store w))
                    = Some feed).
  { rewrite Hins. unfold select_feed_by_id. cbn [feeds Feed.id feed].
    rewrite (find_app_none _ _ _ Hid). cbn [Feed.id].
    now rewrite String.eqb_refl. }
  eexists. rewrite add_feed_eq, Hi. cbv zeta. fold feed. rewrite Hsel_url.
  split; [reflexivity|]. cbn [store set_store]. rewrite Hins at 1 2. cbn [feeds feed_items].
  split; [reflexivity|]. split; [reflexivity|].
  split; [unfold get_feed, with_connect, query; cbn [store set_store];
          now rewrite Hsel_id|].
  split; [unfold get_feed_by_url, with_connect, query; cbn [store set_store];
          now rewrite Hsel_url|].
  split.
  - intros fid f Sel. now apply select_insert_or_ignore.
  - intros n2 c2 i2 Hi2.
    rewrite (add_feed_twice_aux self n2 u c2 i2
               (set_store (insert_or_ignore_feed feed (store w)) (tick (draw w)))
               feed Hsel_url (proj2 (int64_spec i2) Hi2)).
    reflexivity.
Qed.

Lemma add_feed_new_url_is_stored_witness :
  (exists w' f,
     add_feed sample_env "Tech Feed" "https://example.com/tech.rss" "tech-news" 60
              (run_ops sample_env one_feed empty_world) = (w', inr f)
     /\ Feed.id f = "uuid-1"
     /\ get_feed "uuid-1" w' = (w', inr (Some f)))
  /\ (exists w',
        add_feed sample_env "Tech Feed" "https://example.com/tech.rss" "tech-news"
                 (- 2 ^ 63 - 1) (run_ops sample_env one_feed empty_world)
        = (w', inl int_too_large)
        /\ store w' = store (run_ops sample_env one_feed empty_world)).
Proof.
  split.
  - destruct (add_feed_new_url_is_stored sample_env "Tech Feed"
                "https://example.com/tech.rss" "tech-news" 60
                (run_ops sample_env one_feed empty_world)) as (Hin & _).
    + vm_compute. reflexivity.
    + vm_compute. reflexivity.
    + destruct Hin as (w' & H & _ & _ & Hget & _); [lia|].
      do 2 eexists. split; [exact H|]. split; [reflexivity | exact Hget].
  - destruct (add_feed_new_url_is_stored sample_env "Tech Feed"
                "https://example.com/tech.rss" "tech-news" (- 2 ^ 63 - 1)
                (run_ops sample_env one_feed empty_world)) as (_ & Hout).
    + vm_compute. reflexivity.
    + vm_compute. reflexivity.
    + apply Hout. lia.
Defined.

(** ** More on refreshing *)

(** [refresh] of an identifier that no feed has raises
    [ValueError("Feed <id> not found")]; it reads neither the clock nor the
    fetcher and writes nothing; [refresh_all] is not stopped by it since
    it never asks for such a feed. *)
Theorem refresh_unknown_feed_raises :
  forall self fid w,
    select_feed_by_id fid (store w) = None ->
    exists w',
      refresh self fid w
      = (w', inl (ValueError (String.append "Feed " (String.append fid " not found"))))
      /\ store w' = store w
      /\ clock_reads w' = clock_reads w
      /\ uuids_drawn w' = uuids_drawn w
      /\ fetches (calls w') = fetches (calls w)
      /\ ~ In fid (active_ids (store w)).
Proof.
  intros self fid w Sel. rewrite refresh_eq, Sel. eexists.
  split; [reflexivity|]. cbn [record_call store clock_reads uuids_drawn calls].
  repeat split.
  - unfold fetches. rewrite flat_map_app. cbn. now rewrite app_nil_r.
  - unfold active_ids. intros Hin. apply in_map_iff in Hin as (f & Hid & Hf).
    apply filter_In in Hf as [Hf _].
    apply (find_none _ _ Sel) in Hf. rewrite Hid, String.eqb_refl in Hf. discriminate.
Qed.

Lemma refresh_unknown_feed_raises_witness :
  exists w',
    refresh sample_env "nonexistent-id" (run_ops sample_env one_feed empty_world)
    = (w', inl (ValueError "Feed nonexistent-id not found")).
Proof.
  destruct (refresh_unknown_feed_raises sample_env "nonexistent-id"
              (run_ops sample_env one_feed empty_world)) as (w' & H & _).
  - vm_compute. reflexivity.
  - exists w'. exact H.
Defined.

Lemma substring_prefix_le n : forall s, (String.length (substring 0 n s) <= n)%nat.
Proof.
  induction n as [|n IH]; intros [|c r]; cbn; try lia.
  specialize (IH r). lia.
Qed.

Lemma slice_to_bounded n s :
  0 <= n -> Z.of_nat (String.length (PyStr.slice_to n s)) <= n.
Proof.
  intros Hn. unfold PyStr.slice_to.
  destruct (0 <=? n) eqn:E; [|apply Z.leb_gt in E; lia].
  pose proof (substring_prefix_le (Z.to_nat n) s). lia.
Qed.

Lemma list_slice_to_bounded {A} n (l : list A) :
  (0 <= n -> Z.of_nat (List.length (PyStr.list_slice_to n l)) <= n)
  /\ (List.length (PyStr.list_slice_to n l) <= List.length l)%nat.
Proof.
  unfold PyStr.list_slice_to. destruct (0 <=? n) eqn:E.
  - split; [intros _|]; rewrite length_firstn; lia.
  - split; [apply Z.leb_gt in E; lia|]. rewrite length_firstn. lia.
Qed.

Lemma enumerate_in {A} (l : list A) i x :
  In (i, x) (enumerate l) -> 0 <= i < Z.of_nat (List.length l) /\ In x l.
Proof.
  unfold enumerate. intros H. split.
  - apply in_combine_l in H. apply in_map_iff in H as (k & <- & Hk).
    apply in_seq in Hk. lia.
  - now apply in_combine_r in H.
Qed.

Lemma enumerate_length {A} (l : list A) :
  List.length (enumerate l) = List.length l.
Proof.
  unfold enumerate. rewrite length_combine, length_map, length_seq. lia.
Qed.

Lemma sample_lists_short key l :
  sample_lookup key = Some l -> (List.length l <= 3)%nat.
Proof.
  unfold sample_lookup.
  destruct (find (fun kv => String.eqb (fst kv) key) SAMPLE_FEEDS) as [[k v]|] eqn:F;
    [|discriminate].
  cbn. intros H. injection H as <-.
  apply find_some in F as [Hin _].
  unfold SAMPLE_FEEDS in Hin. cbn [In] in Hin.
  destruct Hin as [E|[E|[E|[]]]]; injection E as _ <-; cbn; lia.
Qed.

Lemma simulate_fetch_bounds_aux cfg f now :
  exists raws,
    _simulate_fetch cfg f now = inr raws
    /\ (List.length raws <= 3)%nat
    /\ (0 <= max_items_per_feed cfg ->
        Z.of_nat (List.length raws) <= max_items_per_feed cfg).
Proof.
  unfold _simulate_fetch. eexists. split; [reflexivity|].
  set (key := match sample_lookup (Feed.category f) with
              | Some _ => Feed.category f | None => "default" end).
  set (items := match sample_lookup key with Some l => l | None => [] end).
  assert (Hshort : (List.length items <= 3)%nat).
  { subst items. destruct (sample_lookup key) eqn:E; [|cbn; lia].
    eapply sample_lists_short; eauto. }
  destruct (list_slice_to_bounded (max_items_per_feed cfg) items) as [Hcap Hle].
  rewrite length_map, enumerate_length. split; [lia | exact Hcap].
Qed.

(** The sample fetcher never raises.  It returns at most three items,
    and at most [max_items_per_feed] when that is not negative; every
    summary is cut to [max_summary_length] characters when that is not
    negative; every item has an author and a publication time that is not
    after the call; and a category without samples gets the default
    samples. *)
Theorem simulate_fetch_is_bounded :
  forall cfg f now,
    exists raws,
      _simulate_fetch cfg f now = inr raws
      /\ (List.length raws <= 3)%nat
      /\ (0 <= max_items_per_feed cfg ->
          Z.of_nat (List.length raws) <= max_items_per_feed cfg)
      /\ (forall raw, In raw raws ->
            exists sm au t,
              raw_summary raw = Some sm /\ raw_author raw = Some au
              /\ raw_published_at raw = Some t /\ t <= now
              /\ (0 <= max_summary_length cfg ->
                  Z.of_nat (String.length sm) <= max_summary_length cfg))
      /\ (sample_lookup (Feed.category f) = None ->
          forall g, Feed.category g = "default" ->
                    _simulate_fetch cfg f now = _simulate_fetch cfg g now).
Proof.
  intros cfg f now. unfold _simulate_fetch at 1. eexists. split; [reflexivity|].
  set (key := match sample_lookup (Feed.category f) with
              | Some _ => Feed.category f | None => "default" end).
  set (items := match sample_lookup key with Some l => l | None => [] end).
  assert (Hshort : (List.length items <= 3)%nat).
  { subst items. destruct (sample_lookup key) eqn:E; [|cbn; lia].
    eapply sample_lists_short; eauto. }
  destruct (list_slice_to_bounded (max_items_per_feed cfg) items) as [Hcap Hle].
  rewrite length_map, enumerate_length.
  split; [lia|]. split; [exact Hcap|]. split.
  - intros raw Hin. apply in_map_iff in Hin as ([i [[[title author] url] summary]] & <- & Hin).
    apply enumerate_in in Hin as [Hi _]. cbn.
    do 3 eexists. repeat split.
    + unfold hours. lia.
    + apply slice_to_bounded.
  - intros Hnone g Hg. unfold _simulate_fetch. subst key. rewrite Hnone, Hg.
    reflexivity.
Qed.

Section RefreshFrame.

Variable self : Env.

Lemma refresh_item_appends fid raw w w' out :
  refresh_item self fid raw w = (w', out) ->
  exists added,
    feed_items (store w') = feed_items (store w) ++ added
    /\ feed_items_fts (store w') = feed_items_fts (store w) ++ map doc_of added
    /\ Forall (fresh_row fid) added
    /\ (List.length added <= 1)%nat.
Proof.
  intros H. apply refresh_item_effect in H as (_ & _ & H).
  destruct out as [e|[|]].
  - destruct H as (_ & _ & ->). exists []. rewrite !app_nil_r. cbn. auto.
  - destruct H as (_ & H). apply insert_item_inr in H as (_ & Hr & Hi & _).
    eexists [_]. rewrite Hr, Hi. cbn [map List.length]. repeat split; auto.
    constructor; [|constructor]. unfold fresh_row, new_item. cbn. auto.
  - destruct H as (-> & _). exists []. rewrite !app_nil_r. cbn. auto.
Qed.

Lemma refresh_loop_appends fid raws : forall n d w w' out,
  refresh_loop self fid raws n d w = (w', out) ->
  exists added,
    feed_items (store w') = feed_items (store w) ++ added
    /\ feed_items_fts (store w') = feed_items_fts (store w) ++ map doc_of added
    /\ Forall (fresh_row fid) added
    /\ (List.length added <= List.length raws)%nat.
Proof.
  induction raws as [|raw rest IH]; intros n d w w' out H.
  - cbn in H. injection H as <- <-. exists []. rewrite !app_nil_r. cbn. auto.
  - cbn [refresh_loop] in H. unfold bind at 1 in H.
    destruct (refresh_item self fid raw w) as [w1 [e|b]] eqn:R;
      apply refresh_item_appends in R as (a1 & Hr1 & Hi1 & Hf1 & Hl1).
    + injection H as <- <-. exists a1. cbn [List.length]. repeat split; auto. lia.
    + assert (Hrest : exists n2 d2, refresh_loop self fid rest n2 d2 w1 = (w', out))
        by (destruct b; eauto).
      destruct Hrest as (n2 & d2 & Hrest).
      apply IH in Hrest as (a2 & Hr2 & Hi2 & Hf2 & Hl2).
      exists (a1 ++ a2).
      rewrite Hr2, Hr1, Hi2, Hi1, map_app, <- !app_assoc, length_app.
      cbn [List.length]. repeat split; auto.
      * apply Forall_app. auto.
      * lia.
Qed.

Lemma select_other_after_update fid' fid upd s :
  (forall f, Feed.id (upd f) = Feed.id f) ->
  fid' <> fid ->
  select_feed_by_id fid' (fst (update_feeds fid upd s)) = select_feed_by_id fid' s.
Proof.
  intros Hid Hne. rewrite select_after_update by exact Hid.
  destruct (select_feed_by_id fid' s) as [f|] eqn:Sel; [|reflexivity].
  cbn [option_map]. rewrite (select_feed_id _ _ _ Sel).
  destruct (String.eqb_spec fid' fid); [contradiction | reflexivity].
Qed.

Lemma refresh_loop_counts fid raws : forall n d w w' n' d',
  refresh_loop self fid raws n d w = (w', inr (n', d')) -> n <= n' /\ d <= d'.
Proof.
  induction raws as [|raw rest IH]; intros n d w w' n' d' H.
  - cbn in H. injection H as _ <- <-. lia.
  - cbn [refresh_loop] in H. unfold bind at 1 in H.
    destruct (refresh_item self fid raw w) as [w1 [e|b]]; [discriminate|].
    destruct b; apply IH in H; lia.
Qed.

End RefreshFrame.

(** Whatever its outcome, [refresh] only appends to the items table and
    to the index: the rows already there keep their place, fields and
    flags, and every row it adds is owned by the feed, unread, not
    bookmarked, indexed, and carries the fingerprint of its title and url. *)
Theorem refresh_only_appends_items :
  forall self fid w w' out,
    refresh self fid w = (w', out) ->
    exists added,
      feed_items (store w') = feed_items (store w) ++ added
      /\ feed_items_fts (store w') = feed_items_fts (store w) ++ map doc_of added
      /\ Forall (fresh_row fid) added.
Proof.
  intros self fid w w' out. rewrite refresh_eq.
  assert (Hnil : exists added : list ItemRow,
            feed_items (store w) = feed_items (store w) ++ added
            /\ feed_items_fts (store w) = feed_items_fts (store w) ++ map doc_of added
            /\ Forall (fresh_row fid) added).
  { exists []. rewrite !app_nil_r. cbn. auto. }
  destruct (select_feed_by_id fid (store w)) as [f|].
  2:{ intros H. injection H as <- <-. exact Hnil. }
  destruct (status_eqb (Feed.status f) PAUSED).
  { intros H. injection H as <- <-. exact Hnil. }
  destruct (fetcher self (config self) f (utcnow self (clock_reads w))) as [e|raws].
  { intros H. injection H as <- <-. exact Hnil. }
  destruct (refresh_loop self fid raws 0 0 (after_fetch fid f w))
    as [w2 [e|counts]] eqn:L;
    apply refresh_loop_appends in L as (added & Hr & Hi & Hf & _);
    intros H; injection H as <- <-; exists added; auto.
Qed.

Lemma refresh_only_appends_items_witness :
  exists added,
    feed_items (store (fst (refresh sample_env "uuid-0"
                              (run_ops sample_env one_feed empty_world))))
    = feed_items (store (run_ops sample_env one_feed empty_world)) ++ added
    /\ Forall (fresh_row "uuid-0") added.
Proof.
  destruct (refresh_only_appends_items sample_env "uuid-0"
              (run_ops sample_env one_feed empty_world)
              (fst (refresh sample_env "uuid-0" (run_ops sample_env one_feed empty_world)))
              (snd (refresh sample_env "uuid-0" (run_ops sample_env one_feed empty_world))))
    as (added & Hr & _ & Hf).
  - apply surjective_pairing.
  - exists added. split; [exact Hr | exact Hf].
Defined.

(** Whatever its outcome, [refresh] leaves the row of every other feed as
    it was, adds and removes no feed, and on the refreshed feed never
    changes the identifier, name, url, category, interval or creation
    time. *)
Theorem refresh_leaves_other_feeds :
  forall self fid w w' out,
    refresh self fid w = (w', out) ->
    (forall fid', fid' <> fid ->
       select_feed_by_id fid' (store w') = select_feed_by_id fid' (store w))
    /\ map Feed.id (feeds (store w')) = map Feed.id (feeds (store w))
    /\ (forall f, select_feed_by_id fid (store w) = Some f ->
          exists f', select_feed_by_id fid (store w') = Some f' /\ same_identity f f').
Proof.
  intros self fid w w' out H. rewrite refresh_eq in H.
  assert (Hsame : (forall fid', fid' <> fid ->
                     select_feed_by_id fid' (store w) = select_feed_by_id fid' (store w))
                  /\ map Feed.id (feeds (store w)) = map Feed.id (feeds (store w))
                  /\ (forall f, select_feed_by_id fid (store w) = Some f ->
                        exists f', select_feed_by_id fid (store w) = Some f'
                                   /\ same_identity f f')).
  { repeat split; auto. intros f Sel. exists f. unfold same_identity. auto 10. }
  assert (Hupd : forall upd w2,
            (forall g, same_identity g (upd g)) ->
            feeds (store w2) = feeds (store w) ->
            (forall fid', fid' <> fid ->
               select_feed_by_id fid' (fst (update_feeds fid upd (store w2)))
               = select_feed_by_id fid' (store w))
            /\ map Feed.id (feeds (fst (update_feeds fid upd (store w2))))
               = map Feed.id (feeds (store w))
            /\ (forall f, select_feed_by_id fid (store w) = Some f ->
                  exists f', select_feed_by_id fid (fst (update_feeds fid upd (store w2)))
                             = Some f' /\ same_identity f f')).
  { intros upd w2 Hid Hf.
    assert (Hid' : forall g, Feed.id (upd g) = Feed.id g)
      by (intros g; symmetry; apply (Hid g)).
    split; [|split].
    - intros fid' Hne. rewrite select_other_after_update by auto.
      now apply select_same_feeds.
    - unfold update_feeds. cbn [fst feeds]. rewrite Hf, map_map.
      apply map_ext. intros g. destruct (String.eqb (Feed.id g) fid); auto.
    - intros f Sel. exists (upd f). split; [|apply Hid].
      rewrite (select_after_set fid fid upd f w w2 Hid' Hf Sel).
      now rewrite String.eqb_refl. }
  remember (select_feed_by_id fid (store w)) as o eqn:Sel in H.
  destruct o as [f|].
  2:{ injection H as <- <-. exact Hsame. }
  destruct (status_eqb (Feed.status f) PAUSED).
  { injection H as <- <-. exact Hsame. }
  destruct (fetcher self (config self) f (utcnow self (clock_reads w))) as [e|raws].
  { injection H as <- <-. apply Hupd; [|reflexivity].
    intros g. unfold same_identity. cbn. auto 10. }
  destruct (refresh_loop self fid raws 0 0 (after_fetch fid f w))
    as [w2 [e|counts]] eqn:L;
    apply refresh_loop_frame in L as [Hf _];
    injection H as <- <-; (apply Hupd; [|exact Hf]);
    intros g; unfold same_identity; cbn; auto 10.
Qed.

Lemma refresh_leaves_other_feeds_witness :
  select_feed_by_id "uuid-1"
    (store (fst (refresh sample_env "uuid-0" (run_ops sample_env two_feeds empty_world))))
  = select_feed_by_id "uuid-1" (store (run_ops sample_env two_feeds empty_world)).
Proof.
  destruct (refresh_leaves_other_feeds sample_env "uuid-0"
              (run_ops sample_env two_feeds empty_world)
              (fst (refresh sample_env "uuid-0" (run_ops sample_env two_feeds empty_world)))
              (snd (refresh sample_env "uuid-0" (run_ops sample_env two_feeds empty_world))))
    as (H & _).
  - apply surjective_pairing.
  - apply H. discriminate.
Defined.

(** With the sample fetcher and a cap that is not negative, a refresh
    that returns a summary met at most [max_items_per_feed] raw items:
    [new_items] and [duplicates] are not negative and their sum is at most
    the cap, and the items table grew by [new_items] rows. *)
Theorem refresh_respects_item_cap :
  forall self fid w w' fid' n d t,
    fetcher self = _simulate_fetch ->
    0 <= max_items_per_feed (config self) ->
    refresh self fid w = (w', inr (Refreshed fid' n d t)) ->
    0 <= n /\ 0 <= d
    /\ n + d <= max_items_per_feed (config self)
    /\ n + d <= 3
    /\ Z.of_nat (List.length (feed_items (store w')))
       = Z.of_nat (List.length (feed_items (store w))) + n
    /\ n <= t.
Proof.
  intros self fid w w' fid' n d t Hfetch Hcap H. rewrite refresh_eq in H.
  destruct (select_feed_by_id fid (store w)) as [f|]; [|discriminate].
  destruct (status_eqb (Feed.status f) PAUSED); [discriminate|].
  destruct (fetcher self (config self) f (utcnow self (clock_reads w)))
    as [e|raws] eqn:Fe; [discriminate|].
  destruct (refresh_loop self fid raws 0 0 (after_fetch fid f w))
    as [w2 [e|[n2 d2]]] eqn:L; [discriminate|].
  injection H as <- <- <- <- <-. cbn [fst snd].
  rewrite Hfetch in Fe.
  destruct (simulate_fetch_bounds_aux (config self) f (utcnow self (clock_reads w)))
    as (raws' & Fe' & H3 & Hmax).
  rewrite Fe in Fe'. injection Fe' as <-.
  pose proof (refresh_loop_counts self _ _ _ _ _ _ _ _ L) as [Hn Hd].
  pose proof (refresh_loop_returns self _ _ _ _ _ _ _ _ L)
    as (_ & _ & added & Hi & Hlen & Hsum & Hown & _).
  change (feed_items (store (after_success self fid w2))) with (feed_items (store w2)).
  change (store (after_fetch fid f w)) with (store w) in Hi.
  rewrite Hi, length_app.
  repeat split; try lia.
  unfold count_items_of. rewrite Hi, filter_app, length_app.
  replace (filter (fun r => String.eqb (FeedItem.feed_id (item r)) fid) added) with added.
  - lia.
  - clear -Hown. induction Hown as [|r l Hr _ IH]; [reflexivity|].
    cbn [filter]. rewrite Hr, String.eqb_refl. now f_equal.
Qed.

Lemma refresh_respects_item_cap_witness :
  0 <= max_items_per_feed (config sample_env)
  /\ refresh sample_env "uuid-0" (run_ops sample_env one_feed empty_world)
     = (fst (refresh sample_env "uuid-0" (run_ops sample_env one_feed empty_world)),
        inr (Refreshed "uuid-0" 2 0 2))
  /\ 2 + 0 <= max_items_per_feed (config sample_env).
Proof.
  assert (H : refresh sample_env "uuid-0" (run_ops sample_env one_feed empty_world)
              = (fst (refresh sample_env "uuid-0"
                        (run_ops sample_env one_feed empty_world)),
                 inr (Refreshed "uuid-0" 2 0 2)))
    by (vm_compute; reflexivity).
  assert (Hcap : 0 <= max_items_per_feed (config sample_env)) by (cbn; lia).
  split; [exact Hcap|]. split; [exact H|].
  destruct (refresh_respects_item_cap sample_env _ _ _ _ _ _ _ eq_refl Hcap H)
    as (_ & _ & Hle & _).
  exact Hle.
Defined.

(** ** Invariants of the reachable worlds *)

(** In every world a caller can bring about, feed identifiers, item
    identifiers and rowids are unique and the full-text index holds the
    indexed columns of exactly the rows of the items table, in table
    order. *)
Theorem reachable_worlds_satisfy_schema :
  forall self ops,
    let s := store (run_ops self ops empty_world) in
    NoDup (map Feed.id (feeds s))
    /\ NoDup (map item_id (feed_items s))
    /\ NoDup (map rowid (feed_items s))
    /\ feed_items_fts s = map doc_of (feed_items s).
Proof.
  intros self ops. apply (run_ops_wf self ops empty_world).
  repeat split; cbn; constructor.
Qed.

Lemma carriers_at_most_one rows fp :
  NoDup (map item_fp rows) -> (List.length (carriers fp rows) <= 1)%nat.
Proof.
  unfold carriers. induction rows as [|r l IH]; cbn [map filter]; intros H; [cbn; lia|].
  inversion H as [|? ? Hr Hl]; subst.
  destruct (String.eqb_spec (item_fp r) fp) as [E|E]; [|now apply IH].
  cbn [List.length].
  replace (filter (fun r0 => String.eqb (item_fp r0) fp) l) with (@nil ItemRow);
    [cbn; lia|].
  symmetry. clear IH Hl H. induction l as [|x l IHl]; [reflexivity|].
  cbn [filter]. destruct (String.eqb_spec (item_fp x) fp) as [Ex|Ex].
  - exfalso. apply Hr. left. congruence.
  - apply IHl. intros Hin. apply Hr. now right.
Qed.

Lemma no_groups_when_unique s :
  fingerprints_unique s -> duplicate_groups s = [].
Proof.
  intros Hu. destruct (duplicate_groups s) as [|g l] eqn:E; [reflexivity|].
  assert (Hin : In g (duplicate_groups s)) by (rewrite E; now left).
  apply duplicate_groups_in in Hin as (fp & _ & _ & Hmany).
  rewrite ids_with_carriers, length_map in Hmany.
  pose proof (carriers_at_most_one (feed_items s) fp Hu). lia.
Qed.

Lemma unique_when_single_carriers rows :
  (forall fp, In fp (map item_fp rows) -> (List.length (carriers fp rows) <= 1)%nat) ->
  NoDup (map item_fp rows).
Proof.
  induction rows as [|r l IH]; intros H; cbn [map]; constructor.
  - intros Hin. apply in_map_iff in Hin as (y & Hy & Hyl).
    specialize (H (item_fp r) (or_introl eq_refl)).
    unfold carriers in H. cbn [filter] in H. rewrite String.eqb_refl in H.
    cbn [List.length] in H.
    assert (Hc : In y (filter (fun r0 => String.eqb (item_fp r0) (item_fp r)) l))
      by (apply filter_In; split; [exact Hyl | now apply String.eqb_eq]).
    destruct (filter (fun r0 => String.eqb (item_fp r0) (item_fp r)) l);
      [contradiction | cbn in H; lia].
  - apply IH. intros fp Hfp.
    specialize (H fp (or_intror Hfp)). unfold carriers in *. cbn [filter] in H.
    destruct (String.eqb (item_fp r) fp); cbn [List.length] in H; lia.
Qed.

(** On a store that satisfies the schema (identifiers unique, the index
    holding the rows of the table), one sweep of [deduplicate] leaves no
    two rows with the same fingerprint and a store that satisfies the
    schema, so a second sweep removes nothing and returns 0; and when no
    two rows share a fingerprint to begin with, the first sweep changes
    nothing and returns 0. *)
Theorem deduplicate_is_idempotent :
  forall w,
    wf_store (store w) ->
    fingerprints_unique (store (fst (deduplicate w)))
    /\ wf_store (store (fst (deduplicate w)))
    /\ deduplicate (fst (deduplicate w)) = (fst (deduplicate w), inr 0)
    /\ (fingerprints_unique (store w) -> deduplicate w = (w, inr 0)).
Proof.
  intros w Hwf. pose proof Hwf as (_ & Hpk & _).
  assert (Hnoop : forall w0, fingerprints_unique (store w0) ->
                             deduplicate w0 = (w0, inr 0)).
  { intros w0 Hu. rewrite deduplicate_eq, (no_groups_when_unique _ Hu).
    cbn [sweep fold_left]. rewrite world_eta. do 2 f_equal. lia. }
  assert (Hu : fingerprints_unique (store (fst (deduplicate w)))).
  { rewrite deduplicate_eq. cbn [fst store set_store].
    unfold fingerprints_unique. rewrite deduplicate_items.
    apply unique_when_single_carriers. intros fp Hfp.
    assert (Hfp' : In fp (map item_fp (feed_items (store w)))).
    { apply in_map_iff in Hfp as (r & Hr & Hin). apply filter_In in Hin as [Hin _].
      apply in_map_iff. eauto. }
    destruct (one_survivor _ fp Hpk Hfp') as (r & -> & _). cbn. lia. }
  split; [exact Hu|]. split.
  { rewrite deduplicate_eq. cbn [fst store set_store]. now apply sweep_wf. }
  split; [now apply Hnoop | apply Hnoop].
Qed.

Lemma deduplicate_is_idempotent_witness :
  wf_store (store imported_world)
  /\ fst (deduplicate imported_world) <> imported_world
  /\ deduplicate (fst (deduplicate imported_world))
     = (fst (deduplicate imported_world), inr 0).
Proof.
  assert (Hwf : wf_store (store imported_world)).
  { unfold wf_store, feeds_pk, items_pk. cbn.
    repeat split; repeat constructor; cbn; intuition discriminate. }
  split; [exact Hwf|]. split.
  - intros E. apply (f_equal (fun w => List.length (feed_items (store w)))) in E.
    vm_compute in E. discriminate.
  - exact (proj1 (proj2 (proj2 (deduplicate_is_idempotent imported_world Hwf)))).
Defined.

Section FingerprintInvariant.

Variable self : Env.

Lemma refresh_item_keeps_unique fid raw w w' out :
  refresh_item self fid raw w = (w', out) ->
  fingerprints_unique (store w) -> fingerprints_unique (store w').
Proof.
  intros H Hu. apply refresh_item_effect in H as (_ & _ & H).
  destruct out as [e|[|]].
  - destruct H as (_ & _ & ->). exact Hu.
  - destruct H as (Hnew & Hins).
    apply insert_item_inr in Hins as (_ & Hrows & _ & _).
    unfold fingerprints_unique. rewrite Hrows, map_app. cbn [map].
    apply NoDup_app; [exact Hu | repeat constructor; cbn; tauto |].
    intros fp Hin [<-|[]].
    apply in_map_iff in Hin as (r & Hr & Hin).
    assert (Hex : fingerprint_exists (raw_fingerprint raw) (store w) = true).
    { eapply fingerprint_exists_in; [exact Hin|]. exact Hr. }
    congruence.
  - destruct H as (-> & _). exact Hu.
Qed.

Lemma refresh_loop_keeps_unique fid raws : forall n d w w' out,
  refresh_loop self fid raws n d w = (w', out) ->
  fingerprints_unique (store w) -> fingerprints_unique (store w').
Proof.
  induction raws as [|raw rest IH]; intros n d w w' out H Hu.
  - cbn in H. injection H as <- <-. exact Hu.
  - cbn [refresh_loop] in H. unfold bind at 1 in H.
    destruct (refresh_item self fid raw w) as [w1 [e|b]] eqn:R;
      apply refresh_item_keeps_unique in R; auto.
    + injection H as <- <-. exact R.
    + destruct b; eapply IH; eauto.
Qed.

Lemma refresh_keeps_unique fid w w' out :
  refresh self fid w = (w', out) ->
  fingerprints_unique (store w) -> fingerprints_unique (store w').
Proof.
  rewrite refresh_eq. intros H Hu.
  destruct (select_feed_by_id fid (store w)) as [f|].
  2:{ injection H as <- <-. exact Hu. }
  destruct (status_eqb (Feed.status f) PAUSED).
  { injection H as <- <-. exact Hu. }
  destruct (fetcher self (config self) f (utcnow self (clock_reads w))) as [e|raws].
  { injection H as <- <-. exact Hu. }
  destruct (refresh_loop self fid raws 0 0 (after_fetch fid f w))
    as [w2 [e|counts]] eqn:L;
    apply refresh_loop_keeps_unique in L; auto;
    injection H as <- <-; exact L.
Qed.

Lemma batch_run_keeps_unique ids w w' es :
  batch_run self ids w w' es ->
  fingerprints_unique (store w) -> fingerprints_unique (store w').
Proof.
  induction 1 as [| ? ? ? ? ? ? ? R _ IH | ? ? ? ? ? ? ? R _ IH]; intros Hu; auto;
    apply IH; eapply refresh_keeps_unique; eauto.
Qed.

Lemma flag_update_keeps_fingerprints iid upd rows :
  (forall i, FeedItem.fingerprint (upd i) = FeedItem.fingerprint i) ->
  map item_fp (flag_update iid upd rows) = map item_fp rows.
Proof.
  intros Hupd. unfold flag_update. rewrite map_map. apply map_ext. intros r.
  destruct (String.eqb (item_id r) iid); [|reflexivity].
  unfold item_fp. cbn. apply Hupd.
Qed.

Lemma run_op_keeps_unique op w :
  fingerprints_unique (store w) ->
  fingerprints_unique (store (fst (run_op self op w))).
Proof.
  intros Hu. destruct op as [n u c i | fid | | iid | iid | iid | iid | | fid | fid];
    cbn [run_op]; rewrite returned_fst.
  - rewrite add_feed_eq. cbv zeta.
    destruct (int64 i); cbn [fst store set_store tick draw]; [|exact Hu].
    unfold insert_or_ignore_feed. destruct (existsb _ _); exact Hu.
  - destruct (refresh self fid w) as [w' out] eqn:R.
    eapply refresh_keeps_unique; eauto.
  - destruct (refresh_all_runs_active_feeds_aux self w) as (w' & es & -> & Hb).
    eapply batch_run_keeps_unique; eauto.
  - destruct (set_item_flag_spec iid (FeedItem.set_is_read true) w) as [E _].
    unfold mark_read. rewrite E. unfold fingerprints_unique.
    cbn [fst store set_store feed_items].
    now rewrite flag_update_keeps_fingerprints.
  - destruct (set_item_flag_spec iid (FeedItem.set_is_read false) w) as [E _].
    unfold mark_unread. rewrite E. unfold fingerprints_unique.
    cbn [fst store set_store feed_items].
    now rewrite flag_update_keeps_fingerprints.
  - destruct (set_item_flag_spec iid (FeedItem.set_is_bookmarked true) w) as [E _].
    unfold bookmark. rewrite E. unfold fingerprints_unique.
    cbn [fst store set_store feed_items].
    now rewrite flag_update_keeps_fingerprints.
  - destruct (set_item_flag_spec iid (FeedItem.set_is_bookmarked false) w) as [E _].
    unfold unbookmark. rewrite E. unfold fingerprints_unique.
    cbn [fst store set_store feed_items].
    now rewrite flag_update_keeps_fingerprints.
  - rewrite deduplicate_eq. cbn [fst store set_store].
    unfold fingerprints_unique. rewrite sweep_items.
    now apply filter_keeps_key_unique.
  - unfold pause_feed. rewrite set_feed_status_eq. exact Hu.
  - unfold resume_feed. rewrite set_feed_status_eq. exact Hu.
Qed.

Lemma run_ops_keep_unique ops : forall w,
  fingerprints_unique (store w) ->
  fingerprints_unique (store (run_ops self ops w)).
Proof.
  induction ops as [|op rest IH]; intros w Hu; [exact Hu|].
  cbn [run_ops]. apply IH. now apply run_op_keeps_unique.
Qed.

End FingerprintInvariant.

(** Every operation keeps fingerprints unique, so in every world a
    caller can bring about no two items share a fingerprint, and
    [deduplicate] there removes nothing. *)
Theorem reachable_worlds_have_no_duplicates :
  forall self ops,
    (forall op w, fingerprints_unique (store w) ->
                  fingerprints_unique (store (fst (run_op self op w))))
    /\ fingerprints_unique (store (run_ops self ops empty_world))
    /\ deduplicate (run_ops self ops empty_world)
       = (run_ops self ops empty_world, inr 0).
Proof.
  intros self ops.
  assert (Hu : fingerprints_unique (store (run_ops self ops empty_world))).
  { apply run_ops_keep_unique. constructor. }
  split; [apply run_op_keeps_unique|]. split; [exact Hu|].
  rewrite deduplicate_eq, (no_groups_when_unique _ Hu).
  cbn [sweep fold_left]. rewrite world_eta. do 2 f_equal. lia.
Qed.

(** ** Pausing and resuming *)

Lemma set_feed_status_store fid st w :
  set_feed_status fid st w
  = (set_store (status_update fid st (store w)) w, inr (has_feed fid (store w))).
Proof.
  rewrite set_feed_status_eq. unfold update_feeds, has_feed. cbn [fst snd].
  now rewrite rowcount_positive.
Qed.

Lemma status_update_absent fid st s :
  has_feed fid s = false -> status_update fid st s = s.
Proof.
  unfold has_feed, status_update. intros H.
  replace (map _ (feeds s)) with (feeds s); [destruct s; reflexivity|].
  induction (feeds s) as [|f l IH]; [reflexivity|].
  cbn [existsb map] in *. apply orb_false_iff in H as [Hf Hl].
  rewrite Hf, <- (IH Hl). reflexivity.
Qed.

(** [pause_feed] and [resume_feed] return whether the feed exists; they
    set the status of that feed and leave its other fields, every other
    feed, the items and the index as they were; with no such feed the
    world is unchanged and the result is false; and pausing or resuming
    twice is pausing or resuming once. *)
Theorem pause_and_resume_touch_only_status :
  forall fid w,
    (pause_feed fid w
     = (set_store (status_update fid PAUSED (store w)) w, inr (has_feed fid (store w)))
     /\ resume_feed fid w
        = (set_store (status_update fid ACTIVE (store w)) w, inr (has_feed fid (store w))))
    /\ (has_feed fid (store w) = false ->
        pause_feed fid w = (w, inr false) /\ resume_feed fid w = (w, inr false))
    /\ (forall st fid' f,
          select_feed_by_id fid' (store w) = Some f ->
          select_feed_by_id fid' (status_update fid st (store w))
          = Some (if String.eqb fid' fid then Feed.set_status st f else f))
    /\ (forall st f,
          same_identity f (Feed.set_status st f)
          /\ Feed.status (Feed.set_status st f) = st
          /\ Feed.last_fetched (Feed.set_status st f) = Feed.last_fetched f
          /\ Feed.error_message (Feed.set_status st f) = Feed.error_message f
          /\ Feed.item_count (Feed.set_status st f) = Feed.item_count f)
    /\ fst (pause_feed fid (fst (pause_feed fid w))) = fst (pause_feed fid w)
    /\ fst (resume_feed fid (fst (resume_feed fid w))) = fst (resume_feed fid w)
    /\ (has_feed fid (store w) = true <->
        exists f, In f (feeds (store w)) /\ Feed.id f = fid).
Proof.
  intros fid w.
  assert (Htwice : forall st,
            status_update fid st (status_update fid st (store w))
            = status_update fid st (store w)).
  { intros st. unfold status_update. cbn [feeds feed_items feed_items_fts].
    f_equal. rewrite map_map. apply map_ext. intros f.
    destruct (String.eqb (Feed.id f) fid) eqn:E; cbn [Feed.set_status Feed.id];
      now rewrite E. }
  unfold pause_feed, resume_feed. rewrite !set_feed_status_store.
  split; [split; reflexivity|]. split; [|split; [|split; [|split; [|split]]]].
  - intros Habs. rewrite Habs, !status_update_absent by exact Habs.
    now rewrite world_eta.
  - intros st fid' f Sel.
    apply (select_after_set fid' fid (Feed.set_status st) f w w);
      [reflexivity | reflexivity | exact Sel].
  - intros st f. unfold same_identity. cbn. auto 10.
  - cbn [fst store set_store]. now rewrite Htwice.
  - cbn [fst store set_store]. now rewrite Htwice.
  - unfold has_feed. rewrite existsb_exists.
    split; intros (f & Hin & Hf); exists f; (split; [exact Hin|]);
      now apply String.eqb_eq.
Qed.

(** After [pause_feed] of an existing feed, [refresh] of it returns the
    skip result without calling the fetcher and [refresh_all] does not
    select it; the feed keeps the fields it had, status apart. *)
Theorem paused_feed_is_not_refreshed :
  forall self fid w f,
    select_feed_by_id fid (store w) = Some f ->
    exists w1,
      pause_feed fid w = (w1, inr true)
      /\ select_feed_by_id fid (store w1) = Some (Feed.set_status PAUSED f)
      /\ refresh self fid w1 = (record_call (Refreshing fid) w1, inr (Skipped fid "paused"))
      /\ ~ In fid (active_ids (store w1)).
Proof.
  intros self fid w f Sel. unfold pause_feed. rewrite set_feed_status_store.
  assert (Hhas : has_feed fid (store w) = true).
  { unfold has_feed. apply existsb_exists. exists f.
    split; [eapply select_in; eauto|].
    apply String.eqb_eq. eapply select_feed_id; eauto. }
  assert (Hsel : select_feed_by_id fid (status_update fid PAUSED (store w))
                 = Some (Feed.set_status PAUSED f)).
  { pose proof (select_after_set fid fid (Feed.set_status PAUSED) f w w
                  (fun _ => eq_refl) eq_refl Sel) as H.
    rewrite String.eqb_refl in H. exact H. }
  rewrite Hhas. eexists. split; [reflexivity|].
  cbn [store set_store]. split; [exact Hsel|]. split.
  - rewrite refresh_eq. cbn [store set_store]. rewrite Hsel. reflexivity.
  - unfold active_ids, status_update. cbn [feeds]. intros Hin.
    apply in_map_iff in Hin as (g & Hid & Hg).
    apply filter_In in Hg as [Hg Hact].
    apply in_map_iff in Hg as (g0 & <- & _).
    destruct (String.eqb_spec (Feed.id g0) fid) as [E|E].
    + cbn in Hact. discriminate.
    + contradiction.
Qed.

Lemma paused_feed_is_not_refreshed_witness :
  exists w1,
    pause_feed "uuid-0" (run_ops sample_env one_feed empty_world) = (w1, inr true)
    /\ snd (refresh sample_env "uuid-0" w1) = inr (Skipped "uuid-0" "paused").
Proof.
  destruct (paused_feed_is_not_refreshed sample_env "uuid-0"
              (run_ops sample_env one_feed empty_world)
              (Feed.mk "uuid-0" "General Feed" "https://example.com/general.rss"
                       "general" 60 None ACTIVE None 0 (nth_second 0)))
    as (w1 & Hp & _ & Hr & _).
  - vm_compute. reflexivity.
  - exists w1. split; [exact Hp|]. now rewrite Hr.
Defined.

(** Pausing and then resuming a feed whose rows are all active gives back
    the world there was. *)
Theorem pause_then_resume_restores_active_feed :
  forall fid w,
    (forall f, In f (feeds (store w)) -> Feed.id f = fid -> Feed.status f = ACTIVE) ->
    resume_feed fid (fst (pause_feed fid w)) = (w, inr (has_feed fid (store w))).
Proof.
  intros fid w Hact. unfold pause_feed, resume_feed.
  rewrite !set_feed_status_store. cbn [fst store set_store].
  assert (Hback : status_update fid ACTIVE (status_update fid PAUSED (store w)) = store w).
  { unfold status_update. cbn [feeds feed_items feed_items_fts]. rewrite map_map.
    replace (map _ (feeds (store w))) with (feeds (store w));
      [destruct (store w); reflexivity|].
    rewrite <- (map_id (feeds (store w))) at 1. apply map_ext_in. intros f Hin.
    destruct (String.eqb_spec (Feed.id f) fid) as [E|E].
    - cbn [Feed.set_status Feed.id]. rewrite E, String.eqb_refl.
      specialize (Hact f Hin E). destruct f. cbn in *. now subst.
    - destruct (String.eqb_spec (Feed.id f) fid); [contradiction | reflexivity]. }
  assert (Hhas : has_feed fid (status_update fid PAUSED (store w)) = has_feed fid (store w)).
  { unfold has_feed, status_update. cbn [feeds]. clear Hact Hback.
    induction (feeds (store w)) as [|f l IH]; [reflexivity|].
    cbn [map existsb]. rewrite IH. f_equal.
    destruct (String.eqb (Feed.id f) fid) eqn:E; [|exact E].
    cbn [Feed.set_status Feed.id]. exact E. }
  rewrite Hback, Hhas. f_equal. destruct w. reflexivity.
Qed.

Lemma pause_then_resume_restores_active_feed_witness :
  resume_feed "uuid-0" (fst (pause_feed "uuid-0" refreshed_world))
  = (refreshed_world, inr true).
Proof.
  rewrite (pause_then_resume_restores_active_feed "uuid-0" refreshed_world).
  - vm_compute. reflexivity.
  - intros f Hin Hid. vm_compute in Hin. destruct Hin as [<-|[]]. reflexivity.
Defined.

(** ** Flags seen through the queries *)

Lemma flag_update_in iid upd rows r' :
  In r' (flag_update iid upd rows) ->
  exists r, In r rows
            /\ r' = (if String.eqb (item_id r) iid
                     then {| rowid := rowid r; item := upd (item r) |} else r).
Proof.
  unfold flag_update. rewrite in_map_iff. intros (r & <- & Hin). eauto.
Qed.

Lemma mark_read_store iid b w :
  store (fst (set_item_flag iid (FeedItem.set_is_read b) w))
  = {| feeds := feeds (store w);
       feed_items := flag_update iid (FeedItem.set_is_read b) (feed_items (store w));
       feed_items_fts := feed_items_fts (store w) |}.
Proof.
  destruct (set_item_flag_spec iid (FeedItem.set_is_read b) w) as [-> _]. reflexivity.
Qed.

Lemma bookmark_store iid b w :
  store (fst (set_item_flag iid (FeedItem.set_is_bookmarked b) w))
  = {| feeds := feeds (store w);
       feed_items := flag_update iid (FeedItem.set_is_bookmarked b) (feed_items (store w));
       feed_items_fts := feed_items_fts (store w) |}.
Proof.
  destruct (set_item_flag_spec iid (FeedItem.set_is_bookmarked b) w) as [-> _].
  reflexivity.
Qed.

(** After [mark_read] no unread-only listing, by feed or by category,
    returns the item; after [mark_unread] the unread-only listing of its
    feed without limit returns it again. *)
Theorem mark_read_hides_item_from_unread :
  forall iid w,
    (forall fid limit it,
       In it (get_items_rows fid limit true (store (fst (mark_read iid w)))) ->
       FeedItem.id it <> iid)
    /\ (forall c limit it,
          In it (by_category_rows c limit true (store (fst (mark_read iid w)))) ->
          FeedItem.id it <> iid)
    /\ (forall limit r,
          limit < 0 -> In r (feed_items (store w)) -> item_id r = iid ->
          In (FeedItem.set_is_read false (item r))
             (get_items_rows (FeedItem.feed_id (item r)) limit true
                             (store (fst (mark_unread iid w))))).
Proof.
  intros iid w. unfold mark_read, mark_unread. rewrite !mark_read_store.
  assert (Hread : forall r', In r' (flag_update iid (FeedItem.set_is_read true)
                                               (feed_items (store w))) ->
            FeedItem.is_read (item r') = false -> item_id r' <> iid).
  { intros r' Hin Hunread Hid. apply flag_update_in in Hin as (r & Hr & ->).
    destruct (String.eqb_spec (item_id r) iid) as [E|E]; [discriminate | contradiction]. }
  split; [|split].
  - intros fid limit it Hit. unfold get_items_rows in Hit.
    destruct (ordered_and_limited limit
                (filter (fun r => String.eqb (FeedItem.feed_id (item r)) fid
                                  && negb (FeedItem.is_read (item r)))
                        (flag_update iid (FeedItem.set_is_read true) (feed_items (store w)))))
      as (_ & _ & Hin & _).
    destruct (Hin it Hit) as (r' & Hr' & <-).
    apply filter_In in Hr' as [Hr' Hp]. apply andb_true_iff in Hp as [_ Hu].
    apply negb_true_iff in Hu. now apply Hread.
  - intros c limit it Hit. unfold by_category_rows in Hit.
    match type of Hit with
    | In _ (map item (sql_limit _ (order_by_published_desc ?rows))) =>
        destruct (ordered_and_limited limit rows) as (_ & _ & Hin & _)
    end.
    destruct (Hin it Hit) as (r' & Hr' & <-).
    apply filter_In in Hr' as [Hr' Hu]. apply negb_true_iff in Hu.
    unfold joined_with_category in Hr'. apply in_flat_map in Hr' as (r0 & Hr0 & Hm).
    apply in_map_iff in Hm as (_ & <- & _). cbn [feed_items] in Hr0.
    now apply Hread.
  - intros limit r Hneg Hr Hid. unfold get_items_rows.
    match goal with
    | |- In _ (map item (sql_limit _ (order_by_published_desc ?rows))) =>
        destruct (ordered_and_limited limit rows) as (_ & _ & _ & Hall)
    end.
    apply (Permutation_in _ (Permutation_sym (Hall (or_introl Hneg)))).
    apply in_map_iff.
    exists {| rowid := rowid r; item := FeedItem.set_is_read false (item r) |}.
    split; [reflexivity|]. apply filter_In. split.
    + cbn [feed_items]. unfold flag_update. apply in_map_iff. exists r.
      split; [|exact Hr]. rewrite Hid, String.eqb_refl. reflexivity.
    + cbn. now rewrite String.eqb_refl.
Qed.

(** After [bookmark] of an item that is there, [get_bookmarks] returns
    it; after [unbookmark], [get_bookmarks] does not return it. *)
Theorem bookmark_shows_in_bookmarks :
  forall iid w,
    (forall r, In r (feed_items (store w)) -> item_id r = iid ->
       In (FeedItem.set_is_bookmarked true (item r))
          (get_bookmarks_rows (store (fst (bookmark iid w)))))
    /\ (forall it, In it (get_bookmarks_rows (store (fst (unbookmark iid w)))) ->
          FeedItem.id it <> iid).
Proof.
  intros iid w. unfold bookmark, unbookmark. rewrite !bookmark_store.
  unfold get_bookmarks_rows. cbn [feed_items]. split.
  - intros r Hr Hid. apply in_map_iff.
    exists {| rowid := rowid r; item := FeedItem.set_is_bookmarked true (item r) |}.
    split; [reflexivity|]. apply order_by_in, filter_In. split; [|reflexivity].
    unfold flag_update. apply in_map_iff. exists r.
    split; [|exact Hr]. rewrite Hid, String.eqb_refl. reflexivity.
  - intros it Hit Hid. apply in_map_iff in Hit as (r' & <- & Hr').
    apply (proj1 (order_by_in _ _)) in Hr'. apply filter_In in Hr' as [Hr' Hb].
    apply flag_update_in in Hr' as (r & Hr & ->).
    destruct (String.eqb_spec (item_id r) iid) as [E|E]; [discriminate | contradiction].
Qed.

(** Marking an unread item read and then unread, or bookmarking an item
    that is not bookmarked and then removing the bookmark, gives back the
    world there was. *)
Theorem flag_round_trips :
  forall iid w,
    (forall r, In r (feed_items (store w)) -> item_id r = iid ->
       FeedItem.is_read (item r) = false /\ FeedItem.is_bookmarked (item r) = false) ->
    mark_unread iid (fst (mark_read iid w)) = (w, inr (has_item iid (store w)))
    /\ unbookmark iid (fst (bookmark iid w)) = (w, inr (has_item iid (store w))).
Proof.
  intros iid w Hclear.
  assert (Hback : forall up down,
            (forall i, FeedItem.id (up i) = FeedItem.id i) ->
            (forall r, In r (feed_items (store w)) -> item_id r = iid ->
               down (up (item r)) = item r) ->
            set_item_flag iid down (fst (set_item_flag iid up w))
            = (w, inr (has_item iid (store w)))).
  { intros up down Hid Hinv.
    destruct (set_item_flag_spec iid up w) as [E1 _]. rewrite E1. cbn [fst].
    destruct (set_item_flag_spec iid down
                (set_store {| feeds := feeds (store w);
                              feed_items := flag_update iid up (feed_items (store w));
                              feed_items_fts := feed_items_fts (store w) |} w))
      as [E2 _].
    rewrite E2. cbn [store set_store feeds feed_items feed_items_fts].
    assert (Hrows : flag_update iid down (flag_update iid up (feed_items (store w)))
                    = feed_items (store w)).
    { unfold flag_update. rewrite map_map.
      rewrite <- (map_id (feed_items (store w))) at 2. apply map_ext_in.
      intros r Hr. destruct (String.eqb_spec (item_id r) iid) as [E|E].
      - unfold item_id at 1. cbn [item rowid]. rewrite Hid. fold (item_id r).
        rewrite E, String.eqb_refl, (Hinv r Hr E). destruct r. reflexivity.
      - destruct (String.eqb_spec (item_id r) iid); [contradiction | reflexivity]. }
    assert (Hhas : has_item iid {| feeds := feeds (store w);
                                   feed_items := flag_update iid up (feed_items (store w));
                                   feed_items_fts := feed_items_fts (store w) |}
                   = has_item iid (store w)).
    { unfold has_item, flag_update. cbn [feed_items]. clear -Hid.
      induction (feed_items (store w)) as [|r l IH]; [reflexivity|].
      cbn [map existsb]. rewrite IH. f_equal.
      destruct (String.eqb (item_id r) iid) eqn:E; [|exact E].
      unfold item_id. cbn [item]. rewrite Hid. exact E. }
    rewrite Hrows, Hhas. f_equal. destruct w as [[fs rows idx] u c l]. reflexivity. }
  unfold mark_unread, mark_read, unbookmark, bookmark. split; apply Hback.
  - reflexivity.
  - intros r Hr Hid. destruct (Hclear r Hr Hid) as [H _].
    destruct (item r); cbn in *. now subst.
  - reflexivity.
  - intros r Hr Hid. destruct (Hclear r Hr Hid) as [_ H].
    destruct (item r); cbn in *. now subst.
Qed.

Lemma flag_round_trips_witness :
  mark_unread "uuid-2" (fst (mark_read "uuid-2" refreshed_world))
  = (refreshed_world, inr true).
Proof.
  destruct (flag_round_trips "uuid-2" refreshed_world) as [H _].
  - intros r Hr Hid. vm_compute in Hr.
    destruct Hr as [<-|[<-|[]]]; split; reflexivity.
  - rewrite H. vm_compute. reflexivity.
Defined.

(** ** More on fingerprints *)

Lemma hexdigit_is_hex y : 0 <= y < 16 -> is_hex (Sha256.hexdigit y) = true.
Proof.
  intros Hy.
  assert (H : y = 0 \/ y = 1 \/ y = 2 \/ y = 3 \/ y = 4 \/ y = 5 \/ y = 6 \/ y = 7
              \/ y = 8 \/ y = 9 \/ y = 10 \/ y = 11 \/ y = 12 \/ y = 13 \/ y = 14
              \/ y = 15) by lia.
  repeat (destruct H as [->|H]; [reflexivity|]). subst. reflexivity.
Qed.

Lemma nibble_is_hex x i : is_hex (Sha256.nibble x i) = true.
Proof.
  unfold Sha256.nibble. apply hexdigit_is_hex. apply Z.mod_pos_bound. lia.
Qed.

Lemma hex32_all_hex x rest : all_hex rest = true -> all_hex (Sha256.hex32 x rest) = true.
Proof.
  intros H. unfold Sha256.hex32. cbn [all_hex]. now rewrite !nibble_is_hex, H.
Qed.

Lemma substring_all_hex n : forall s,
  all_hex s = true -> all_hex (substring 0 n s) = true.
Proof.
  induction n as [|n IH]; intros [|c r] H; cbn [substring all_hex] in *; auto.
  apply andb_true_iff in H as [Hc Hr]. now rewrite Hc, IH.
Qed.

Lemma lower_fixes_hex s : all_hex s = true -> PyStr.lower s = s.
Proof.
  induction s as [|c r IH]; cbn [all_hex PyStr.lower]; intros H; [reflexivity|].
  apply andb_true_iff in H as [Hc Hr]. rewrite (IH Hr). f_equal.
  revert Hc. destruct c as [[] [] [] [] [] [] [] []]; cbn; congruence.
Qed.

(** A fingerprint is made of sixteen characters among [0-9a-f], so
    lower-casing leaves it as it is. *)
Theorem fingerprint_is_lowercase_hex :
  forall t u,
    all_hex (_fingerprint t u) = true
    /\ String.length (_fingerprint t u) = 16%nat
    /\ PyStr.lower (_fingerprint t u) = _fingerprint t u.
Proof.
  intros t u.
  assert (H : all_hex (_fingerprint t u) = true).
  { unfold _fingerprint, PyStr.slice_to.
    change (0 <=? 16) with true. cbv iota. apply substring_all_hex.
    unfold Sha256.hexdigest. repeat apply hex32_all_hex. reflexivity. }
  split; [exact H|]. split; [apply fingerprint_length | now apply lower_fixes_hex].
Qed.

Lemma lower_lstrip s : PyStr.lower (PyStr.lstrip s) = PyStr.lstrip (PyStr.lower s).
Proof.
  induction s as [|c r IH]; cbn [PyStr.lstrip PyStr.lower]; [reflexivity|].
  rewrite is_space_lower_char. destruct (PyStr.is_space c); [exact IH | reflexivity].
Qed.

Lemma lower_rstrip s : PyStr.lower (PyStr.rstrip s) = PyStr.rstrip (PyStr.lower s).
Proof.
  induction s as [|c r IH]; cbn [PyStr.rstrip PyStr.lower]; [reflexivity|].
  rewrite <- IH, is_space_lower_char.
  destruct (PyStr.rstrip r) as [|a b]; cbn [PyStr.lower].
  - destruct (PyStr.is_space c); reflexivity.
  - reflexivity.
Qed.

Lemma lower_idem s : PyStr.lower (PyStr.lower s) = PyStr.lower s.
Proof.
  induction s as [|c r IH]; cbn [PyStr.lower]; [reflexivity|].
  now rewrite lower_char_idem, IH.
Qed.

Lemma rstrip_idem s : PyStr.rstrip (PyStr.rstrip s) = PyStr.rstrip s.
Proof.
  induction s as [|c r IH]; cbn [PyStr.rstrip]; [reflexivity|].
  destruct (PyStr.rstrip r) as [|a b] eqn:E.
  - destruct (PyStr.is_space c) eqn:Ec; cbn [PyStr.rstrip]; [reflexivity|].
    now rewrite Ec.
  - cbn [PyStr.rstrip] in *. rewrite IH. reflexivity.
Qed.

Lemma rstrip_keeps_head c r :
  PyStr.is_space c = false ->
  exists r', PyStr.rstrip (String c r) = String c r'.
Proof.
  intros Hc. cbn [PyStr.rstrip]. destruct (PyStr.rstrip r); rewrite ?Hc; eauto.
Qed.

Lemma lstrip_head s :
  PyStr.lstrip s = EmptyString
  \/ exists c r, PyStr.lstrip s = String c r /\ PyStr.is_space c = false.
Proof.
  induction s as [|c r IH]; cbn [PyStr.lstrip]; [now left|].
  destruct (PyStr.is_space c) eqn:E; [exact IH|]. right. eauto.
Qed.

Lemma strip_idem s : PyStr.strip (PyStr.strip s) = PyStr.strip s.
Proof.
  unfold PyStr.strip. destruct (lstrip_head s) as [->|(c & r & -> & Hc)].
  - reflexivity.
  - destruct (rstrip_keeps_head c r Hc) as (r' & E).
    rewrite E. cbn [PyStr.lstrip]. rewrite Hc, <- E. apply rstrip_idem.
Qed.

(** Normalizing twice is normalizing once, so a title and url that are
    already lower-cased and trimmed have the fingerprint of the text they
    were made from. *)
Theorem normalize_is_idempotent :
  forall t u,
    normalize (normalize t) = normalize t
    /\ _fingerprint (normalize t) (normalize u) = _fingerprint t u
    /\ _fingerprint (PyStr.lower t) (PyStr.strip u) = _fingerprint t u.
Proof.
  assert (Hn : forall s, normalize (normalize s) = normalize s).
  { intros s. unfold normalize, PyStr.strip.
    rewrite lower_rstrip, lower_lstrip, lower_idem.
    apply strip_idem. }
  assert (Hl : forall s, normalize (PyStr.lower s) = normalize s)
    by (intros s; unfold normalize; now rewrite lower_idem).
  assert (Hs : forall s, normalize (PyStr.strip s) = normalize s).
  { intros s. unfold normalize, PyStr.strip.
    rewrite lower_rstrip, lower_lstrip. apply strip_idem. }
  intros t u. split; [apply Hn|].
  unfold _fingerprint, fingerprint_text. now rewrite !Hn, Hl, Hs.
Qed.

(** ** The OPML export *)







(** ** Statistics and refresh *)

(** A refresh that returns a summary raises [total_items] and
    [unread_items] of [get_stats] by [new_items], and leaves
    [bookmarked_items] and [total_feeds] as they were. *)
Theorem refresh_moves_statistics :
  forall self fid w w' fid' n d t,
    refresh self fid w = (w', inr (Refreshed fid' n d t)) ->
    total_items (get_stats_rows (store w')) = total_items (get_stats_rows (store w)) + n
    /\ unread_items (get_stats_rows (store w'))
       = unread_items (get_stats_rows (store w)) + n
    /\ bookmarked_items (get_stats_rows (store w'))
       = bookmarked_items (get_stats_rows (store w))
    /\ total_feeds (get_stats_rows (store w')) = total_feeds (get_stats_rows (store w)).
Proof.
  intros self fid w w' fid' n d t H. rewrite refresh_eq in H.
  destruct (select_feed_by_id fid (store w)) as [f|]; [|discriminate].
  destruct (status_eqb (Feed.status f) PAUSED); [discriminate|].
  destruct (fetcher self (config self) f (utcnow self (clock_reads w)))
    as [e|raws]; [discriminate|].
  destruct (refresh_loop self fid raws 0 0 (after_fetch fid f w))
    as [w2 [e|[n2 d2]]] eqn:L; [discriminate|].
  injection H as <- <- <- <- <-. cbn [fst snd].
  pose proof (refresh_loop_returns self _ _ _ _ _ _ _ _ L)
    as (Hfeeds & _ & added & Hi & Hlen & _).
  pose proof (refresh_loop_appends self _ _ _ _ _ _ _ L)
    as (added' & Hi' & _ & Hfresh & _).
  rewrite Hi in Hi'. apply app_inv_head in Hi'. subst added'.
  change (store (after_fetch fid f w)) with (store w) in *.
  unfold get_stats_rows, count.
  cbn [total_items unread_items bookmarked_items total_feeds].
  change (feed_items (store (after_success self fid w2))) with (feed_items (store w2)).
  rewrite Hi, !filter_app, !length_app.
  replace (filter (fun r => negb (FeedItem.is_read (item r))) added) with added.
  2:{ clear -Hfresh. induction Hfresh as [|r l (_ & Hr & _) _ IH]; [reflexivity|].
      cbn [filter]. rewrite Hr. cbn [negb]. now f_equal. }
  replace (filter (fun r => FeedItem.is_bookmarked (item r)) added) with (@nil ItemRow).
  2:{ clear -Hfresh. induction Hfresh as [|r l (_ & _ & Hb & _) _ IH]; [reflexivity|].
      cbn [filter]. now rewrite Hb. }
  cbn [List.length]. repeat split; try lia.
  unfold after_success, update_feeds. cbn [store set_store fst feeds].
  rewrite length_map, Hfeeds. reflexivity.
Qed.

Lemma refresh_moves_statistics_witness :
  total_items (get_stats_rows (store refreshed_world))
  = total_items (get_stats_rows (store (run_ops sample_env one_feed empty_world))) + 2.
Proof.
  assert (H : refresh sample_env "uuid-0" (run_ops sample_env one_feed empty_world)
              = (fst (refresh sample_env "uuid-0"
                        (run_ops sample_env one_feed empty_world)),
                 inr (Refreshed "uuid-0" 2 0 2)))
    by (vm_compute; reflexivity).
  destruct (refresh_moves_statistics _ _ _ _ _ _ _ _ H) as (Ht & _).
  vm_compute in Ht. vm_compute. exact Ht.
Defined.

(** ** Fleet refresh and the cached item count *)

Lemma select_unique_row s f :
  feeds_pk s -> In f (feeds s) -> select_feed_by_id (Feed.id f) s = Some f.
Proof.
  intros Hpk Hin. unfold select_feed_by_id.
  destruct (find (fun g => String.eqb (Feed.id g) (Feed.id f)) (feeds s)) as [g|] eqn:F.
  - destruct (find_some _ _ F) as [Hg Hid]. cbv beta in Hid.
    apply String.eqb_eq in Hid. f_equal.
    eapply (NoDup_map_injective Feed.id); eauto.
  - apply (find_none _ _ F) in Hin. cbv beta in Hin.
    rewrite String.eqb_refl in Hin. discriminate.
Qed.

Section NoSkips.

Variable self : Env.

Lemma batch_run_no_skips ids w w' es :
  batch_run self ids w w' es ->
  NoDup ids ->
  (forall fid, In fid ids ->
     exists f, select_feed_by_id fid (store w) = Some f /\ Feed.status f = ACTIVE) ->
  Forall (fun e => forall fid reason, e <> Done (Skipped fid reason)) es.
Proof.
  induction 1 as [w | fid0 rest w w1 w2 r es R _ IH | fid0 rest w w1 w2 e es R _ IH];
    intros Hnd Hact; [constructor| |].
  - inversion Hnd as [|? ? Hfresh Hnd']; subst.
    assert (Hrest : forall fid, In fid rest ->
              exists f, select_feed_by_id fid (store w1) = Some f
                        /\ Feed.status f = ACTIVE).
    { intros fid Hin. destruct (Hact fid (or_intror Hin)) as (f & Sel & St).
      destruct (refresh_feed_row self _ _ _ _ _ _ R Sel) as (f' & Sel' & Hs).
      cbn [status_step] in Hs.
      destruct (String.eqb_spec fid fid0) as [->|_]; [contradiction|].
      exists f'. split; [exact Sel' | congruence]. }
    constructor; [|now apply IH].
    intros fid reason E. injection E as ->.
    destruct (Hact fid0 (or_introl eq_refl)) as (f & Sel & St).
    rewrite refresh_eq, Sel, St in R. cbn [status_eqb] in R.
    destruct (fetcher self (config self) f (utcnow self (clock_reads w)));
      [discriminate|].
    destruct (refresh_loop self fid0 l 0 0 (after_fetch fid0 f w)) as [w3 [e|c]];
      discriminate.
  - inversion Hnd as [|? ? Hfresh Hnd']; subst.
    assert (Hrest : forall fid, In fid rest ->
              exists f, select_feed_by_id fid (store w1) = Some f
                        /\ Feed.status f = ACTIVE).
    { intros fid Hin. destruct (Hact fid (or_intror Hin)) as (f & Sel & St).
      destruct (refresh_feed_row self _ _ _ _ _ _ R Sel) as (f' & Sel' & Hs).
      cbn [status_step] in Hs.
      destruct (String.eqb_spec fid fid0) as [->|_]; [contradiction|].
      exists f'. split; [exact Sel' | congruence]. }
    constructor; [|now apply IH]. discriminate.
Qed.

End NoSkips.

(** With feed identifiers unique, no entry of the list [refresh_all]
    returns is a skip: each is a summary or an error. *)
Theorem refresh_all_never_reports_a_skip :
  forall self w w' es,
    feeds_pk (store w) ->
    refresh_all self w = (w', inr es) ->
    Forall (fun e => (exists fid n d t, e = Done (Refreshed fid n d t))
                     \/ (exists fid msg, e = Failed fid msg)) es.
Proof.
  intros self w w' es Hpk H.
  destruct (refresh_all_runs_active_feeds_aux self w) as (w2 & es2 & H2 & Hb).
  rewrite H in H2. injection H2 as <- <-.
  assert (Hns : Forall (fun e => forall fid reason, e <> Done (Skipped fid reason)) es).
  { apply (batch_run_no_skips self _ _ _ _ Hb).
    - unfold active_ids. now apply filter_keeps_key_unique.
    - intros fid Hin. unfold active_ids in Hin.
      apply in_map_iff in Hin as (f & <- & Hf). apply filter_In in Hf as [Hf Hst].
      exists f. split; [now apply select_unique_row | now apply status_eqb_eq]. }
  eapply Forall_impl; [|exact Hns]. intros e He.
  destruct e as [[fid reason|fid n d t]|fid msg].
  - exfalso. eapply He. reflexivity.
  - left. eauto.
  - right. eauto.
Qed.

Lemma refresh_all_never_reports_a_skip_witness :
  feeds_pk (store (run_ops sample_env two_feeds empty_world))
  /\ refresh_all sample_env (run_ops sample_env two_feeds empty_world)
     = (fst (refresh_all sample_env (run_ops sample_env two_feeds empty_world)),
        inr [Done (Refreshed "uuid-0" 2 0 2); Done (Refreshed "uuid-1" 0 2 0)])
  /\ Forall (fun e => (exists fid n d t, e = Done (Refreshed fid n d t))
                      \/ (exists fid msg, e = Failed fid msg))
            [Done (Refreshed "uuid-0" 2 0 2); Done (Refreshed "uuid-1" 0 2 0)].
Proof.
  assert (Hpk : feeds_pk (store (run_ops sample_env two_feeds empty_world))).
  { unfold feeds_pk. vm_compute. repeat constructor; cbn; intuition discriminate. }
  assert (H : refresh_all sample_env (run_ops sample_env two_feeds empty_world)
              = (fst (refresh_all sample_env (run_ops sample_env two_feeds empty_world)),
                 inr [Done (Refreshed "uuid-0" 2 0 2); Done (Refreshed "uuid-1" 0 2 0)]))
    by (vm_compute; reflexivity).
  split; [exact Hpk|]. split; [exact H|].
  exact (refresh_all_never_reports_a_skip _ _ _ _ Hpk H).
Defined.

(** After a refresh that returns a summary, the [item_count] stored for
    the feed and the [total_items] of the summary are the number of items
    [get_items] returns for the feed without limit. *)
Theorem refresh_item_count_matches_get_items :
  forall self fid w w' fid' n d t limit,
    refresh self fid w = (w', inr (Refreshed fid' n d t)) ->
    limit < 0 ->
    t = Z.of_nat (List.length (get_items_rows fid limit false (store w')))
    /\ exists f', select_feed_by_id fid (store w') = Some f'
                  /\ Feed.item_count f'
                     = Z.of_nat (List.length (get_items_rows fid limit false (store w'))).
Proof.
  intros self fid w w' fid' n d t limit H Hneg. rewrite refresh_eq in H.
  destruct (select_feed_by_id fid (store w)) as [f|] eqn:Sel; [|discriminate].
  destruct (status_eqb (Feed.status f) PAUSED); [discriminate|].
  destruct (fetcher self (config self) f (utcnow self (clock_reads w)))
    as [e|raws]; [discriminate|].
  destruct (refresh_loop self fid raws 0 0 (after_fetch fid f w))
    as [w2 [e|[n2 d2]]] eqn:L; [discriminate|].
  injection H as <- <- <- <- <-.
  apply refresh_loop_frame in L as [Hf _].
  assert (Hlen : count_items_of fid (store w2)
                 = Z.of_nat (List.length
                     (get_items_rows fid limit false (store (after_success self fid w2))))).
  { unfold get_items_rows, count_items_of.
    change (feed_items (store (after_success self fid w2))) with (feed_items (store w2)).
    rewrite sql_limit_all by (now left).
    now rewrite length_map, order_by_length. }
  split; [exact Hlen|]. eexists. split.
  - unfold after_success. cbn [store set_store].
    apply (select_after_set fid fid _ f w w2); [reflexivity | exact Hf | exact Sel].
  - rewrite String.eqb_refl. cbn [Feed.set_fetched Feed.item_count]. exact Hlen.
Qed.

Lemma refresh_item_count_matches_get_items_witness :
  List.length (get_items_rows "uuid-0" (-1) false (store refreshed_world)) = 2%nat.
Proof.
  assert (H : refresh sample_env "uuid-0" (run_ops sample_env one_feed empty_world)
              = (refreshed_world, inr (Refreshed "uuid-0" 2 0 2)))
    by (vm_compute; reflexivity).
  destruct (refresh_item_count_matches_get_items _ _ _ _ _ _ _ _ (-1) H) as (Ht & _).
  - lia.
  - lia.
Defined.
